(** * verify_kerr: the Kerr validation harness, embedded and verified

    The harness (validation/verify_kerr.py) evaluates the closed-form
    ISCO and photon-ring radii of a Kerr black hole at four spins,
    compares them with two literature tables, and reports the relative
    errors.

    The program is written once, over an interface [PyFloat] that
    collects the float operations the script uses, with the exceptions
    Python raises. Two arithmetics implement the interface:

    - [RealArith]: exact real arithmetic, the idealisation in which the
      formulas are analysed;
    - [Binary64]: IEEE 754 binary64 as CPython computes with it, the C
      library's [pow], [cos], [acos] and the exact sum [fsum] being
      parameters. *)

From Stdlib Require Import ZArith List String Ascii Bool.
From Stdlib Require Import Reals Lra Lia Psatz.
From Stdlib Require Import Permutation.
From Stdlib Require Floats.
Import ListNotations.

Set Implicit Arguments.

(** ** Exceptions *)

(** The exceptions the script can meet. [TypeError] stands for the use
    of a complex number where [math.sqrt] wants a real: a negative float
    raised to a fractional power is complex in Python, and the next
    [math.sqrt] refuses it. *)
Inductive exn : Set :=
| ValueError
| TypeError
| ZeroDivisionError
| OverflowError
| StatisticsError.

Inductive result (A : Type) : Type :=
| Ok (a : A)
| Raise (e : exn).

Arguments Ok {A} a.
Arguments Raise {A} e.

Definition bind {A B : Type} (m : result A) (k : A -> result B) : result B :=
  match m with
  | Ok a => k a
  | Raise e => Raise e
  end.

Declare Scope py_scope.
Delimit Scope py_scope with py.
Notation "x <- m ;; k" := (bind m (fun x => k))
  (at level 61, m at next level, right associativity) : py_scope.
Notation "' p <- m ;; k" := (bind m (fun p => k))
  (at level 61, p pattern, m at next level, right associativity) : py_scope.

Fixpoint mapM {A B : Type} (f : A -> result B) (l : list A) : result (list B) :=
  match l with
  | [] => Ok []
  | x :: xs =>
      (y <- f x ;;
       ys <- mapM f xs ;;
       Ok (y :: ys))%py
  end.

(** ** The float interface *)

Class PyFloat (F : Type) : Type := {
  (** [float(n)] for an int [n], also the implicit conversion in mixed
      int/float arithmetic *)
  of_int : Z -> F;
  (** the decimal literal [m]e[k], as in [0.998 = 998e-3] *)
  of_decimal : Z -> Z -> F;
  f_neg : F -> F;
  f_abs : F -> F;
  f_add : F -> F -> F;
  f_sub : F -> F -> F;
  f_mul : F -> F -> F;
  f_div : F -> F -> result F;
  f_pow : F -> F -> result F;
  f_lt : F -> F -> bool;
  f_le : F -> F -> bool;
  m_sqrt : F -> result F;
  m_cos : F -> result F;
  m_acos : F -> result F;
  m_fsum : list F -> result F;
  (** [format(x, ".<p>e")] *)
  format_e : nat -> F -> string
}.

Section Program.

Context {F : Type} `{PyFloat F}.

Local Open Scope Z_scope.
Local Open Scope py_scope.
Local Open Scope string_scope.

Definition f_gt (x y : F) : bool := f_lt y x.
Definition f_ge (x y : F) : bool := f_le y x.

(** [min(x, y)] and [max(x, y)] of two arguments: the first argument is
    kept unless the second compares strictly below (above) it. *)
Definition py_min (x y : F) : F := if f_lt y x then y else x.
Definition py_max (x y : F) : F := if f_gt y x then y else x.

(** ** Constants and reference tables *)

Definition G : F := of_decimal 667430 (-16).
Definition C : Z := 299792458.
Definition SOLAR_MASS : F := of_decimal 198847 25.

(** A dict literal with pairwise distinct keys: [items()] yields the
    pairs in the order written. *)
Definition REFERENCE_ISCO : list (F * F) :=
  [ (of_decimal 0 (-1), of_decimal 60 (-1));
    (of_decimal 5 (-1), of_decimal 4233 (-3));
    (of_decimal 9 (-1), of_decimal 2320 (-3));
    (of_decimal 998 (-3), of_decimal 1237 (-3)) ].

Definition REFERENCE_PHOTON : list (F * F) :=
  [ (of_decimal 0 (-1), of_decimal 30 (-1));
    (of_decimal 5 (-1), of_decimal 23472963553 (-10));
    (of_decimal 9 (-1), of_decimal 15578546274 (-10));
    (of_decimal 998 (-3), of_decimal 10739092577 (-10)) ].

(** ** Formula evaluator *)

Definition gravitational_radius (mass_solar : F) : result F :=
  f_div (f_mul (f_mul (f_mul (of_int 2) G) mass_solar) SOLAR_MASS)
        (of_int (C * C)).

(** The clamp of [isco_radius], [max(min(spin, 0.998), -0.998)]. *)
Definition isco_clamp (spin : F) : F :=
  py_max (py_min spin (of_decimal 998 (-3))) (f_neg (of_decimal 998 (-3))).

Definition isco_radius (spin : F) : result F :=
  let a := isco_clamp spin in
  third <- f_div (of_int 1) (of_int 3) ;;
  term <- f_pow (f_sub (of_int 1) (f_mul a a)) third ;;
  p <- f_pow (f_add (of_int 1) a) third ;;
  q <- f_pow (f_sub (of_int 1) a) third ;;
  let z1 := f_add (of_int 1) (f_mul term (f_add p q)) in
  z2 <- m_sqrt (f_add (f_mul (f_mul (of_int 3) a) a) (f_mul z1 z1)) ;;
  let sign : Z := if f_ge a (of_int 0) then 1 else -1 in
  s <- m_sqrt (f_mul (f_sub (of_int 3) z1)
                     (f_add (f_add (of_int 3) z1) (f_mul (of_int 2) z2))) ;;
  Ok (f_sub (f_add (of_int 3) z2) (f_mul (of_int sign) s)).

(** The clamp of [photon_radius], [max(min(abs(spin), 0.999), 1e-6)]. *)
Definition photon_clamp (spin : F) : F :=
  py_max (py_min (f_abs spin) (of_decimal 999 (-3))) (of_decimal 1 (-6)).

Definition photon_radius (spin : F) : result F :=
  let a := photon_clamp spin in
  k <- f_div (of_decimal 20 (-1)) (of_decimal 30 (-1)) ;;
  t <- m_acos (f_neg a) ;;
  c <- m_cos (f_mul k t) ;;
  Ok (f_mul (of_int 2) (f_add (of_int 1) c)).

(** ** Reference comparator *)

(** An error entry, the tuple [(label, spin, rel_err)]. *)
Definition entry : Type := (string * F * F)%type.

Definition check_row (fn : F -> result F) (label : string) (row : F * F)
  : result entry :=
  let '(spin, expected) := row in
  value <- fn spin ;;
  rel_err <- f_div (f_abs (f_sub value expected)) expected ;;
  Ok (label, spin, rel_err).

Definition check_series (reference : list (F * F)) (fn : F -> result F)
    (label : string) : result (list entry) :=
  mapM (check_row fn label) reference.

(** ** Report aggregator *)

(** [max(xs)] of a list: [ValueError] on the empty list, otherwise the
    first item, replaced by each later item that compares strictly
    above it. *)
Definition max_list (xs : list F) : result F :=
  match xs with
  | [] => Raise ValueError
  | x :: rest => Ok (fold_left py_max rest x)
  end.

(** [statistics.fmean]: the exact sum [math.fsum] divided by the
    length; a zero length is reported as a [StatisticsError]. *)
Definition fmean (xs : list F) : result F :=
  total <- m_fsum xs ;;
  match xs with
  | [] => Raise StatisticsError
  | _ => f_div total (of_int (Z.of_nat (List.length xs)))
  end.

Record Summary : Type := mkSummary {
  summary_max_rel_error : F;
  summary_mean_rel_error : F
}.

(** The dict display evaluates its values left to right: [max] runs
    before [fmean]. *)
Definition summarize (errors : list entry) : result Summary :=
  let rel_vals := map (fun e : entry => snd e) errors in
  mx <- max_list rel_vals ;;
  mean <- fmean rel_vals ;;
  Ok (mkSummary mx mean).

Record Entry : Type := mkEntry {
  quantity : string;
  spin : F;
  relative_error : F
}.

Record Report : Type := mkReport {
  mass_solar : F;
  grav_radius_m : F;
  max_rel_error : F;
  mean_rel_error : F;
  ok : bool;
  entries : list Entry
}.

(** A tuple entry as the dict of the report,
    [{"quantity": label, "spin": spin, "relative_error": err}]. *)
Definition to_Entry (e : entry) : Entry :=
  let '(label, s, err) := e in mkEntry label s err.

(** What the program does to the outside: the report written to a path
    (as [json.dumps(report, indent=2)]) and the lines printed. *)
Inductive event : Type :=
| WriteText (path : string) (report : Report)
| Print (line : string).

Definition threshold : F := of_decimal 8 (-3).

Definition run_checks (mass : F) (output : string)
  : result (Report * list event) :=
  grav_radius <- gravitational_radius mass ;;
  isco <- check_series REFERENCE_ISCO isco_radius "isco" ;;
  photon <- check_series REFERENCE_PHOTON photon_radius "photon" ;;
  let errors := (isco ++ photon)%list in
  summary <- summarize errors ;;
  let report :=
    mkReport mass grav_radius
      (summary_max_rel_error summary)
      (summary_mean_rel_error summary)
      (f_lt (summary_max_rel_error summary) threshold)
      (map to_Entry errors) in
  Ok (report, [WriteText output report]).

(** ** Driver *)

(** The parsed command line. *)
Record Namespace : Type := mkNamespace {
  mass : F;
  out : string
}.

Definition default_args : Namespace :=
  mkNamespace (of_decimal 65 7) "validation_report.json".

Definition verdict_line (report : Report) : string :=
  let verdict := if ok report then "PASS" else "FAIL" in
  "[" ++ verdict ++ "] max_rel_error=" ++ format_e 4 (max_rel_error report)
  ++ " mean_rel_error=" ++ format_e 4 (mean_rel_error report).

Definition exit_status (report : Report) : Z :=
  if ok report then 0 else 1.

(** [main] after [parse_args]: the exit status and everything done to
    the outside, in order. *)
Definition main (args : Namespace) : result (Z * list event) :=
  '(report, trace) <- run_checks (mass args) (out args) ;;
  Ok (exit_status report, (trace ++ [Print (verdict_line report)])%list).

(** The lines [main] printed. *)
Definition stdout (trace : list event) : list string :=
  flat_map (fun ev => match ev with Print l => [l] | WriteText _ _ => [] end)
           trace.

(** *** Vocabulary of the statements *)

(** The label and spin of each entry, in order. *)
Definition keys (es : list Entry) : list (string * F) :=
  map (fun e => (quantity e, spin e)) es.

Definition labelled (label : string) (reference : list (F * F))
  : list (string * F) :=
  map (fun row => (label, fst row)) reference.

End Program.


(** ** Scientific notation *)

(** Both arithmetics print a number the same way once it is decomposed
    into a sign, a decimal significand [n] of [p + 1] digits and a
    decimal exponent [e]: [d.ddd...e+XX], the exponent with a sign and
    at least two digits. *)

Local Open Scope Z_scope.

Definition digit_char (d : Z) : ascii :=
  ascii_of_nat (48 + Z.to_nat (d mod 10)).

(** The [n] low decimal digits of [x], most significant first. *)
Fixpoint digits_fixed (n : nat) (x : Z) : string :=
  match n with
  | O => EmptyString
  | S n' => (digits_fixed n' (x / 10) ++ String (digit_char x) EmptyString)%string
  end.

(** The decimal digits of [x >= 0]: [fuel] bounds their number. *)
Fixpoint digits_fuel (fuel : nat) (x : Z) : string :=
  match fuel with
  | O => EmptyString
  | S fuel' =>
      if x <? 10 then String (digit_char x) EmptyString
      else (digits_fuel fuel' (x / 10) ++ String (digit_char x) EmptyString)%string
  end.

Definition digits (x : Z) : string :=
  digits_fuel (S (Z.to_nat (Z.log2 x))) x.

Definition render_exponent (e : Z) : string :=
  ((if (e <? 0)%Z then "-" else "+")
   ++ (if (Z.abs e <? 10)%Z then "0" else EmptyString) ++ digits (Z.abs e))%string.

Definition render_e (p : nat) (neg : bool) (n e : Z) : string :=
  ((if neg then "-" else EmptyString)
   ++ String (digit_char (n / 10 ^ Z.of_nat p)) EmptyString
   ++ (match p with O => EmptyString | S _ => "." ++ digits_fixed p n end)
   ++ "e" ++ render_exponent e)%string.

(** Rounding to [p + 1] digits can carry into one more digit. *)
Definition renormalize (p : nat) (ne : Z * Z) : Z * Z :=
  let '(n, e) := ne in
  if n =? 10 ^ Z.of_nat (S p) then (10 ^ Z.of_nat p, e + 1) else (n, e).

Local Close Scope Z_scope.

(** Whether a string holds a blank. *)
Fixpoint has_space (s : string) : bool :=
  match s with
  | EmptyString => false
  | String c s' => Ascii.eqb c " " || has_space s'
  end.

(** ** Exact real arithmetic *)

Module RealArith.

Local Open Scope R_scope.

Definition decimal (m k : Z) : R :=
  if (0 <=? k)%Z then IZR (m * 10 ^ k) else IZR m / IZR (10 ^ (- k)).

Definition ltb (x y : R) : bool := if Rlt_dec x y then true else false.
Definition leb (x y : R) : bool := if Rle_dec x y then true else false.

Definition div (x y : R) : result R :=
  if Req_dec_T y 0 then Raise ZeroDivisionError else Ok (x / y).

(** [x ** y] on floats: [x ** 0] is 1; a positive base gives
    [exp (y * ln x)]; zero to a negative power is an error; a negative
    base with a fractional exponent leaves the reals. *)
Definition pow (x y : R) : result R :=
  if Req_dec_T y 0 then Ok 1
  else if Rlt_dec 0 x then Ok (Rpower x y)
  else if Req_dec_T x 0 then
    (if Rlt_dec y 0 then Raise ZeroDivisionError else Ok 0)
  else if Req_dec_T (IZR (Int_part y)) y then Ok (powerRZ x (Int_part y))
  else Raise TypeError.

Definition msqrt (x : R) : result R :=
  if Rlt_dec x 0 then Raise ValueError else Ok (sqrt x).

Definition macos (x : R) : result R :=
  if Rle_dec (-1) x then
    if Rle_dec x 1 then Ok (acos x) else Raise ValueError
  else Raise ValueError.

Definition fsum (xs : list R) : result R := Ok (fold_right Rplus 0 xs).

(** The nearest integer, ties to the even one. *)
Definition round_half_even (x : R) : Z :=
  let n := Int_part x in
  let r := x - IZR n in
  if Rlt_dec r (1 / 2) then n
  else if Rlt_dec (1 / 2) r then (n + 1)%Z
  else if Z.even n then n else (n + 1)%Z.

Definition decompose (p : nat) (x : R) : Z * Z :=
  let y := Rabs x in
  let e := Int_part (ln y / ln 10) in
  renormalize p (round_half_even (y * powerRZ 10 (Z.of_nat p - e)), e).

Definition format (p : nat) (x : R) : string :=
  if Req_dec_T x 0 then render_e p false 0 0
  else
    let '(n, e) := decompose p x in
    render_e p (ltb x 0) n e.

#[export] Instance arith : PyFloat R := {
  of_int := IZR;
  of_decimal := decimal;
  f_neg := Ropp;
  f_abs := Rabs;
  f_add := Rplus;
  f_sub := Rminus;
  f_mul := Rmult;
  f_div := div;
  f_pow := pow;
  f_lt := ltb;
  f_le := leb;
  m_sqrt := msqrt;
  m_cos := fun x => Ok (cos x);
  m_acos := macos;
  m_fsum := fsum;
  format_e := format
}.

End RealArith.

(** ** The formulas as real functions *)

(** What the two formulas compute in exact arithmetic, as functions of
    the clamped spin, and the vocabulary of the statements about
    them. *)
Module RealFormulas.

Import RealArith.

Local Open Scope R_scope.

Definition cbrt (x : R) : R := Rpower x (1 / 3).

Definition z1 (a : R) : R :=
  1 + cbrt (1 - a * a) * (cbrt (1 + a) + cbrt (1 - a)).

Definition z2 (a : R) : R := sqrt (3 * a * a + z1 a * z1 a).

(** The argument of the outer square root. *)
Definition radicand (a : R) : R := (3 - z1 a) * (3 + z1 a + 2 * z2 a).

Definition isco_value (a : R) : R :=
  3 + z2 a - IZR (if leb 0 a then 1 else -1) * sqrt (radicand a).

Definition photon_value (a : R) : R :=
  2 * (1 + cos (2 / 3 * acos (- a))).

(** The cosine of a third of the angle whose cosine is [- a]. *)
Definition cos_third (a : R) : R := cos (acos (- a) / 3).

Definition rel_error (value expected : R) : R :=
  Rabs (value - expected) / expected.

Definition isco_entry (row : R * R) : entry :=
  ("isco"%string, fst row, rel_error (isco_value (isco_clamp (fst row))) (snd row)).

Definition photon_entry (row : R * R) : entry :=
  ("photon"%string, fst row,
   rel_error (photon_value (photon_clamp (fst row))) (snd row)).

(** A table row is met within the tolerance when the formula returns
    and its relative error against the row is below [8e-3]. *)
Definition within_tolerance (fn : R -> result R) (row : R * R) : Prop :=
  exists value,
    fn (fst row) = Ok value
    /\ Rabs (value - snd row) / snd row < 8 / 1000.

(** The default run, in exact arithmetic. *)
Definition default_mass : R := mass default_args.
Definition default_out : string := out default_args.

(** The literals of the script, read as real numbers. *)
Ltac norm_lits :=
  repeat match goal with
  | |- context [decimal ?m ?k] =>
      let e := eval cbv in (10 ^ (- k))%Z in
      change (decimal m k) with (IZR m / IZR e)
  end.

End RealFormulas.

(** ** Real arithmetic with rounding *)

(** Between the exact reals and the doubles: every operation yields a
    real number close to the exact result, as a floating-point unit
    and a C library do. [rnd] rounds the exact result of an operation
    or a literal; the three library functions answer on their own. *)
Module RoundedArith.

Local Open Scope R_scope.

Record Machine : Type := mkMachine {
  rnd : R -> R;
  libm_pow : R -> R -> R;
  libm_cos : R -> R;
  libm_acos : R -> R
}.

Section Operations.

Variable M : Machine.

Definition div (x y : R) : result R :=
  if Req_dec_T y 0 then Raise ZeroDivisionError else Ok (rnd M (x / y)).

(** [float_pow] asks the library only after its special cases: a zero
    exponent, a zero base, a negative base, and the base 1. *)
Definition pow (x y : R) : result R :=
  if Req_dec_T y 0 then Ok 1
  else if Req_dec_T x 0 then
    (if Rlt_dec y 0 then Raise ZeroDivisionError else Ok 0)
  else if Rlt_dec x 0 then
    (if Req_dec_T (IZR (Int_part y)) y
     then Ok (rnd M (powerRZ x (Int_part y)))
     else Raise TypeError)
  else if Req_dec_T x 1 then Ok 1
  else Ok (libm_pow M x y).

Definition msqrt (x : R) : result R :=
  if Rlt_dec x 0 then Raise ValueError else Ok (rnd M (sqrt x)).

Definition macos (x : R) : result R :=
  if Rle_dec (-1) x then
    if Rle_dec x 1 then Ok (libm_acos M x) else Raise ValueError
  else Raise ValueError.

Definition fsum (xs : list R) : result R :=
  Ok (rnd M (fold_right Rplus 0 xs)).

#[local] Instance arith : PyFloat R := {
  of_int := fun z => rnd M (IZR z);
  of_decimal := fun m k => rnd M (RealArith.decimal m k);
  f_neg := Ropp;
  f_abs := Rabs;
  f_add := fun x y => rnd M (x + y);
  f_sub := fun x y => rnd M (x - y);
  f_mul := fun x y => rnd M (x * y);
  f_div := div;
  f_pow := pow;
  f_lt := RealArith.ltb;
  f_le := RealArith.leb;
  m_sqrt := msqrt;
  m_cos := fun x => Ok (libm_cos M x);
  m_acos := macos;
  m_fsum := fsum;
  format_e := RealArith.format
}.

End Operations.

(** The error allowed to one operation, relative to the larger of 1
    and the exact result. A double operation rounds within [2^-53]
    of the result, far inside this. *)
Definition delta : R := 1 / 10000000000.

(** What is asked of a machine: rounding is close and leaves the
    integers up to [2^53] alone, and the library functions are close
    to the mathematical ones where the script calls them. *)
Record accurate (M : Machine) : Prop := mkAccurate {
  rnd_close : forall x, Rabs (rnd M x - x) <= delta * Rmax 1 (Rabs x);
  rnd_int : forall z, (Z.abs z <= 2 ^ 53)%Z -> rnd M (IZR z) = IZR z;
  pow_close : forall x y,
      0 < x <= 3 -> 0 < y <= 1 ->
      Rabs (libm_pow M x y - Rpower x y) <= delta;
  acos_close : forall x,
      -1 <= x <= 1 -> Rabs (libm_acos M x - acos x) <= delta;
  cos_close : forall x, Rabs (libm_cos M x - cos x) <= delta
}.

(** The machine that does not round. *)
Definition exact : Machine := mkMachine (fun x => x) Rpower cos acos.

(** A machine that rounds: every result is moved to the nearest
    multiple of [10^-12], upwards at a tie. *)
Definition to_grid (x : R) : R :=
  IZR (Int_part (x * 1000000000000 + 1 / 2)) / 1000000000000.

Definition grid : Machine :=
  mkMachine to_grid (fun x y => to_grid (Rpower x y))
            (fun x => to_grid (cos x)) (fun x => to_grid (acos x)).

(** The slack of one rounding of a number up to 100, and the slack
    granted to one stage of a computation. *)
Definition slack : R := 1 / 100000000.
Definition stage : R := 1 / 100000.

Definition small (r : R) : Prop := r < 79 / 10000.

(** What a row of a table has to yield on a machine: a value within
    the tolerance of the row, and an entry whose computed error is
    small. *)
Definition row_passes (M : Machine) (fn : R -> result R) (label : string)
    (row : R * R) : Prop :=
  exists v r,
    fn (fst row) = Ok v
    /\ Rabs (v - snd row) / snd row < 8 / 1000
    /\ check_row (H := arith M) fn label row = Ok (label, fst row, r)
    /\ small r.

End RoundedArith.

(** ** IEEE 754 binary64, as CPython computes with it *)

Module Binary64.

Import PrimFloat SpecFloat FloatOps.

Local Open Scope float_scope.
Local Set Warnings "-inexact-float".

(** The C library behind [**], [math.cos], [math.acos] and
    [math.fsum]: its results are not fixed by IEEE 754, so they are
    parameters of the arithmetic. *)
Record Libm : Type := mkLibm {
  c_pow : float -> float -> float;
  c_cos : float -> float;
  c_acos : float -> float;
  c_fsum : list float -> result float
}.

(** [m * 2^e], rounded to the nearest double, ties to even. *)
Definition round_Z (m e : Z) : float :=
  SF2Prim (SpecFloat.binary_normalize prec emax m e false).

Definition of_int (z : Z) : float := round_Z z 0.

(** The decimal [m * 10^k], correctly rounded. For [k < 0] the quotient
    is computed with more than 60 bits and a sticky bit, which rounds as
    the exact quotient does. *)
Definition decimal (m k : Z) : float :=
  if (0 <=? k)%Z then round_Z (m * 10 ^ k) 0
  else
    let d := (10 ^ (- k))%Z in
    let s := (Z.log2 d + 64)%Z in
    let n := (Z.abs m * 2 ^ s)%Z in
    let sticky := if (n mod d =? 0)%Z then 0%Z else 1%Z in
    round_Z (Z.sgn m * (2 * (n / d) + sticky)) (- s - 1).

Definition div (x y : float) : result float :=
  if y =? 0 then Raise ZeroDivisionError else Ok (x / y).

Definition is_integer (x : float) : bool :=
  match Prim2SF x with
  | S754_zero _ => true
  | S754_infinity _ => true
  | S754_nan => false
  | S754_finite _ m e =>
      if (0 <=? e)%Z then true else (Zpos m mod 2 ^ (- e) =? 0)%Z
  end.

(** [fmod(fabs(x), 2.0) == 1.0] *)
Definition is_odd_integer (x : float) : bool :=
  match Prim2SF x with
  | S754_finite _ m e =>
      if (0 <? e)%Z then false
      else (Zpos m mod 2 ^ (- e) =? 0)%Z && Z.odd (Zpos m / 2 ^ (- e))
  | _ => false
  end.

Definition copysign (x y : float) : float :=
  if get_sign y then - abs x else abs x.

(** [float_pow] of CPython's floatobject.c: the special cases are
    settled before the C library is asked. *)
Definition pow (L : Libm) (iv iw : float) : result float :=
  if iw =? 0 then Ok 1
  else if is_nan iv then Ok iv
  else if is_nan iw then Ok (if iv =? 1 then 1 else iw)
  else if is_infinity iw then
    let av := abs iv in
    if av =? 1 then Ok 1
    else if Bool.eqb (0 <? iw) (1 <? av) then Ok (abs iw)
    else Ok 0
  else if is_infinity iv then
    let odd := is_odd_integer iw in
    if 0 <? iw then Ok (if odd then iv else abs iv)
    else Ok (if odd then copysign 0 iv else 0)
  else if iv =? 0 then
    if iw <? 0 then Raise ZeroDivisionError
    else Ok (if is_odd_integer iw then iv else 0)
  else if (iv <? 0) && negb (is_integer iw) then Raise TypeError
  else
    let negate := (iv <? 0) && is_odd_integer iw in
    let av := if iv <? 0 then - iv else iv in
    if av =? 1 then Ok (if negate then -1 else 1)
    else
      let ix := c_pow L av iw in
      if is_infinity ix then Raise OverflowError
      else Ok (if negate then - ix else ix).

(** [math_1] of CPython's mathmodule.c, which wraps [sqrt], [cos] and
    [acos]: a NaN from a non-NaN argument, or an infinity from a finite
    one, is a domain error. *)
Definition math_1 (func : float -> float) (x : float) : result float :=
  let r := func x in
  if is_nan r && negb (is_nan x) then Raise ValueError
  else if is_infinity r && is_finite x then Raise ValueError
  else Ok r.

(** The decimal exponent of [num / den > 0]: the [e] with
    [10^e <= num / den < 10^(e+1)], searched upwards from an estimate
    that is at most 3 too low. *)
Definition pow10_le (e num den : Z) : bool :=
  if (0 <=? e)%Z then (10 ^ e * den <=? num)%Z
  else (den <=? num * 10 ^ (- e))%Z.

Fixpoint exponent_from (fuel : nat) (e num den : Z) : Z :=
  match fuel with
  | O => e
  | S fuel' =>
      if pow10_le (e + 1) num den then exponent_from fuel' (e + 1) num den
      else e
  end.

Definition exponent10 (num den : Z) : Z :=
  let l := (Z.log2 num - Z.log2 den)%Z in
  exponent_from 6 ((l - 1) * 30103 / 100000 - 1) num den.

Definition div_half_even (n d : Z) : Z :=
  let q := (n / d)%Z in
  let r := (n mod d)%Z in
  match (2 * r ?= d)%Z with
  | Lt => q
  | Gt => (q + 1)%Z
  | Eq => if Z.even q then q else (q + 1)%Z
  end.

Definition decompose (p : nat) (m e : Z) : Z * Z :=
  let num := if (0 <=? e)%Z then (m * 2 ^ e)%Z else m in
  let den := if (0 <=? e)%Z then 1%Z else (2 ^ (- e))%Z in
  let e10 := exponent10 num den in
  let k := (Z.of_nat p - e10)%Z in
  let n := if (0 <=? k)%Z then div_half_even (num * 10 ^ k) den
           else div_half_even num (den * 10 ^ (- k)) in
  renormalize p (n, e10).

(** [format(x, ".<p>e")]: the exact binary value, rounded half-even to
    [p + 1] significant decimal digits. *)
Definition format (p : nat) (x : float) : string :=
  match Prim2SF x with
  | S754_nan => "nan"
  | S754_infinity s => if s then "-inf" else "inf"
  | S754_zero s => render_e p s 0 0
  | S754_finite s m e =>
      let '(n, e10) := decompose p (Zpos m) e in
      render_e p s n e10
  end.

#[export] Instance arith (L : Libm) : PyFloat float := {
  of_int := of_int;
  of_decimal := decimal;
  f_neg := opp;
  f_abs := abs;
  f_add := add;
  f_sub := sub;
  f_mul := mul;
  f_div := div;
  f_pow := pow L;
  f_lt := ltb;
  f_le := leb;
  m_sqrt := math_1 sqrt;
  m_cos := math_1 (c_cos L);
  m_acos := math_1 (c_acos L);
  m_fsum := c_fsum L;
  format_e := format
}.

(** *** The order of the doubles *)

(** A double that is not NaN is placed by a key: its class (infinite,
    finite or zero, with the sign), then exponent and significand,
    each negated for a negative number. The comparison of two doubles
    is the lexicographic comparison of the keys. *)
Local Open Scope Z_scope.

Definition key (x : spec_float) : Z * Z * Z :=
  match x with
  | S754_nan => (0, 0, 0)
  | S754_infinity s => (if s then -2 else 2, 0, 0)
  | S754_zero _ => (0, 0, 0)
  | S754_finite s m e =>
      if s then (-1, - e, Zneg m) else (1, e, Zpos m)
  end.

Definition lex (k k' : Z * Z * Z) : comparison :=
  let '(a, b, c) := k in
  let '(a', b', c') := k' in
  match a ?= a' with
  | Eq => match b ?= b' with Eq => c ?= c' | r => r end
  | r => r
  end.

Definition lex_le (k k' : Z * Z * Z) : Prop :=
  let '(a, b, c) := k in
  let '(a', b', c') := k' in
  a < a' \/ (a = a' /\ (b < b' \/ (b = b' /\ c <= c'))).

Definition lex_lt (k k' : Z * Z * Z) : Prop :=
  let '(a, b, c) := k in
  let '(a', b', c') := k' in
  a < a' \/ (a = a' /\ (b < b' \/ (b = b' /\ c < c'))).

End Binary64.

(** ** A correctly rounding C library, where the run asks *)

(** The run calls the C library seventeen times: nine powers with the
    exponent [1/3] (the three of spin 0.0 have base [1.0] and are
    answered by [float_pow] itself), four arc cosines and four
    cosines. The answers listed are the correctly rounded ones. *)
Module CorrectlyRounded.

Import PrimFloat SpecFloat FloatOps Binary64.

Local Open Scope float_scope.
Local Set Warnings "-inexact-float".

(** [1 / 3] as a double. *)
Definition third : float := 0x1.5555555555555p-2.

Definition pow_calls : list (float * float * float) :=
  [ (0x1.8p-1, third, 0x1.d12ed0af1a27fp-1);
    (0x1.8p+0, third, 0x1.250bfe1b082f5p+0);
    (0x1p-1, third, 0x1.965fea53d6e3dp-1);
    (0x1.851eb851eb850p-3, third, 0x1.2657f19c6d76ep-1);
    (0x1.e666666666666p+0, third, 0x1.3d126bbbd1b43p+0);
    (0x1.9999999999998p-4, third, 0x1.db4c7760bcff2p-2);
    (0x1.05e1c15097c80p-8, third, 0x1.44fdc7fb35df0p-3);
    (0x1.ff7ced916872bp+0, third, 0x1.426ea7420375ep+0);
    (0x1.0624dd2f1aa00p-9, third, 0x1.02082613df53ep-3) ].

Definition acos_calls : list (float * float) :=
  [ (-0x1.0c6f7a0b5ed8dp-20, 0x1.921fc60b3a724p+0);
    (-0x1p-1, 0x1.0c152382d7366p+1);
    (-0x1.ccccccccccccdp-1, 0x1.586476251e745p+1);
    (-0x1.fef9db22d0e56p-1, 0x1.8a06eea64a559p+1) ].

Definition cos_calls : list (float * float) :=
  [ (0x1.0c152eb226f6dp+0, 0x1.ffffd941322cap-2);
    (0x1.657184ae74488p+0, 0x1.63a1a7e0b7385p-3);
    (0x1.cb309d86d345cp+0, -0x1.c4c1c1ad2d5e8p-3);
    (0x1.06af49c4318e6p+1, -0x1.da2890d6c9338p-2) ].

(** The eight relative errors these answers lead to, in the order of
    the entries. *)
Definition errors : list float :=
  [ 0; 0x1.40d1f2ab6c31ap-21; 0x1.8f1c4ad0dfee6p-12; 0x1.8dffaea5112d5p-16;
    0x1.9d48937aaaaabp-22; 0x1.fb8b9cbff886cp-37; 0x1.080d73274c182p-36;
    0x1.486c01405c715p-36 ].

(** The report these errors make, for a mass and its gravitational
    radius. *)
Definition report_of (m g : float) : Report :=
  mkReport m g 0x1.8f1c4ad0dfee6p-12 0x1.a9040427a4a4cp-15 true
    (map (fun e => mkEntry (fst (fst e)) (snd (fst e)) (snd e))
       (combine (combine (repeat "isco"%string 4 ++ repeat "photon"%string 4)
                         [0; 0.5; 0.9; 0.998; 0; 0.5; 0.9; 0.998])
                errors)).

(** [math.fsum] of finite doubles: the exact sum, rounded once. Every
    finite double is a multiple of [2^-1074]. *)
Definition exact_Z (x : float) : Z :=
  match Prim2SF x with
  | S754_finite s m e => ((if s then Z.neg m else Z.pos m) * 2 ^ (e + 1074))%Z
  | _ => 0%Z
  end.

Definition exact_sum (xs : list float) : float :=
  round_Z (fold_right Z.add 0%Z (map exact_Z xs)) (-1074).

(** A library gives these answers. *)
Definition answers (L : Libm) : Prop :=
  fold_right (fun c P => c_pow L (fst (fst c)) (snd (fst c)) = snd c /\ P)
             True pow_calls
  /\ fold_right (fun c P => c_acos L (fst c) = snd c /\ P) True acos_calls
  /\ fold_right (fun c P => c_cos L (fst c) = snd c /\ P) True cos_calls
  /\ c_fsum L errors = Ok (exact_sum errors).

(** The library that knows these answers and no others. *)
Fixpoint lookup (calls : list (float * float)) (x : float) : float :=
  match calls with
  | [] => nan
  | (a, r) :: rest => if a =? x then r else lookup rest x
  end.

Fixpoint lookup2 (calls : list (float * float * float)) (x y : float)
  : float :=
  match calls with
  | [] => nan
  | (a, b, r) :: rest =>
      if (a =? x) && (b =? y) then r else lookup2 rest x y
  end.

Definition libm : Libm :=
  mkLibm (lookup2 pow_calls) (lookup cos_calls) (lookup acos_calls)
         (fun xs => Ok (exact_sum xs)).

End CorrectlyRounded.

(** ** The report as text *)

(** [repr] of a double, as [json.dumps] writes a number: the shortest
    decimal that reads back as the same double (the nearest to it
    among the shortest), in positional notation from [1e-4] up to
    [1e16] and in exponent notation elsewhere. *)
Module Repr.

Import PrimFloat SpecFloat FloatOps Binary64.

Local Open Scope Z_scope.

(** The candidates with [p] digits: the decimals [lo * 10^k10] and
    [(lo + 1) * 10^k10] next below and next above the value
    [num / den], whose decimal exponent is [e10]. One that reads back
    as [ax] is kept; of two, the nearer to the value, the even one at
    a tie. *)
Definition candidate (ax : float) (p : nat) (e10 num den : Z)
  : option (Z * Z) :=
  let k := Z.of_nat p - 1 - e10 in
  let N := if 0 <=? k then num * 10 ^ k else num in
  let D := if 0 <=? k then den else den * 10 ^ (- k) in
  let lo := N / D in
  let r := N mod D in
  let k10 := - k in
  let ok_lo := (decimal lo k10 =? ax)%float in
  let ok_hi := (decimal (lo + 1) k10 =? ax)%float in
  if r =? 0 then Some (lo, k10)
  else
    match ok_lo, ok_hi with
    | true, true =>
        Some (match 2 * r ?= D with
              | Lt => lo
              | Gt => lo + 1
              | Eq => if Z.even lo then lo else lo + 1
              end, k10)
    | true, false => Some (lo, k10)
    | false, true => Some (lo + 1, k10)
    | false, false => None
    end.

(** The first number of digits, from [p] on, with such a candidate;
    seventeen digits always distinguish a double. *)
Fixpoint shortest_from (fuel : nat) (ax : float) (p : nat) (e10 num den : Z)
  : Z * Z :=
  match fuel with
  | O => (0, 0)
  | S fuel' =>
      match candidate ax p e10 num den with
      | Some c => c
      | None => shortest_from fuel' ax (S p) e10 num den
      end
  end.

Fixpoint strip_zeros (fuel : nat) (n k : Z) : Z * Z :=
  match fuel with
  | O => (n, k)
  | S fuel' =>
      if (0 <? n) && (n mod 10 =? 0) then strip_zeros fuel' (n / 10) (k + 1)
      else (n, k)
  end.

(** The shortest digits of the positive double [m * 2^e]: [(n, k)]
    stands for [n * 10^k], and [n] does not end in a zero. *)
Definition shortest (m e : Z) : Z * Z :=
  let num := if 0 <=? e then m * 2 ^ e else m in
  let den := if 0 <=? e then 1 else 2 ^ (- e) in
  let e10 := exponent10 num den in
  let '(n, k) := shortest_from 17 (round_Z m e) 1 e10 num den in
  strip_zeros 17 n k.

Fixpoint zeros (n : nat) : string :=
  match n with
  | O => EmptyString
  | S n' => String "0"%char (zeros n')
  end.

(** The digits [n] with the decimal point after the first [decpt] of
    them: exponent notation when [decpt <= -4] or [decpt > 16]. *)
Definition place (neg : bool) (n k : Z) : string :=
  let ds := digits n in
  let nd := Z.of_nat (String.length ds) in
  let decpt := nd + k in
  let body :=
    if (decpt <=? -4) || (16 <? decpt) then
      (substring 0 1 ds
       ++ (if (nd =? 1)%Z then EmptyString
           else "." ++ substring 1 (Z.to_nat nd - 1) ds)
       ++ "e" ++ render_exponent (decpt - 1))%string
    else if decpt <=? 0 then
      ("0." ++ zeros (Z.to_nat (- decpt)) ++ ds)%string
    else if nd <=? decpt then
      (ds ++ zeros (Z.to_nat (decpt - nd)) ++ ".0")%string
    else
      (substring 0 (Z.to_nat decpt) ds
       ++ "." ++ substring (Z.to_nat decpt) (Z.to_nat (nd - decpt)) ds)%string
  in
  ((if neg then "-" else EmptyString) ++ body)%string.

Definition repr (x : float) : string :=
  match Prim2SF x with
  | S754_nan => "nan"%string
  | S754_infinity s => (if s then "-inf" else "inf")%string
  | S754_zero s => (if s then "-0.0" else "0.0")%string
  | S754_finite s m e =>
      let '(n, k) := shortest (Zpos m) e in place s n k
  end.

(** A number in the text of [json.dumps], which allows NaN and the
    infinities and writes them as JavaScript does. *)
Definition floatstr (x : float) : string :=
  match Prim2SF x with
  | S754_nan => "NaN"%string
  | S754_infinity s => (if s then "-Infinity" else "Infinity")%string
  | _ => repr x
  end.

End Repr.

(** [json.dumps(report, indent=2)]: one member per line, nested
    objects and arrays indented by two blanks per level, the members
    in the order of the dict display. The numbers are written by
    [number]; the labels of the script hold nothing to escape. *)
Module Json.

Section Dumps.

Context {F : Type} `{PyFloat F}.

Variable number : F -> string.

Local Open Scope string_scope.

Definition newline : string := String (ascii_of_nat 10) EmptyString.

Definition quoted (s : string) : string :=
  String (ascii_of_nat 34) (s ++ String (ascii_of_nat 34) EmptyString).

(** One member, [indent "key": value]. *)
Definition member (indent key value : string) : string :=
  indent ++ quoted key ++ ": " ++ value.

(** The lines of one entry; [last] tells whether a comma follows. *)
Definition entry_lines (e : Entry) (last : bool) : list string :=
  [ "    {";
    member "      " "quantity" (quoted (quantity e) ++ ",");
    member "      " "spin" (number (spin e) ++ ",");
    member "      " "relative_error" (number (relative_error e));
    if last then "    }" else "    }," ].

Fixpoint entries_lines (es : list Entry) : list string :=
  match es with
  | [] => []
  | [e] => entry_lines e true
  | e :: rest => (entry_lines e false ++ entries_lines rest)%list
  end.

Definition report_lines (r : Report) : list string :=
  ([ "{";
     member "  " "mass_solar" (number (mass_solar r) ++ ",");
     member "  " "grav_radius_m" (number (grav_radius_m r) ++ ",");
     member "  " "max_rel_error" (number (max_rel_error r) ++ ",");
     member "  " "mean_rel_error" (number (mean_rel_error r) ++ ",");
     member "  " "ok" ((if ok r then "true" else "false") ++ ",") ]
   ++ match entries r with
      | [] => [ member "  " "entries" "[]" ]
      | es => (member "  " "entries" "[" :: entries_lines es ++ [ "  ]" ])
      end
   ++ [ "}" ])%list.

Definition dumps (r : Report) : string :=
  String.concat newline (report_lines r).

End Dumps.

End Json.

(** * Properties *)

(** ** The monad *)

Lemma bind_Ok {A B : Type} (a : A) (k : A -> result B) :
  bind (Ok a) k = k a.
Proof. reflexivity. Qed.

Lemma bind_inv {A B : Type} (m : result A) (k : A -> result B) (b : B) :
  bind m k = Ok b -> exists a, m = Ok a /\ k a = Ok b.
Proof.
  destruct m as [a|e]; simpl; intro Hk.
  - exists a. split; [reflexivity | exact Hk].
  - discriminate Hk.
Qed.

Lemma mapM_length {A B : Type} (f : A -> result B) (l : list A) (r : list B) :
  mapM f l = Ok r -> List.length r = List.length l.
Proof.
  revert r. induction l as [|x xs IH]; simpl; intros r Hr.
  - injection Hr as <-. reflexivity.
  - apply bind_inv in Hr. destruct Hr as (y & _ & Hr).
    apply bind_inv in Hr. destruct Hr as (ys & Hys & Hr).
    injection Hr as <-. simpl. f_equal. apply IH. exact Hys.
Qed.

Lemma mapM_Forall2 {A B : Type} (f : A -> result B) (l : list A) (r : list B) :
  mapM f l = Ok r -> Forall2 (fun x y => f x = Ok y) l r.
Proof.
  revert r. induction l as [|x xs IH]; simpl; intros r Hr.
  - injection Hr as <-. constructor.
  - apply bind_inv in Hr. destruct Hr as (y & Hy & Hr).
    apply bind_inv in Hr. destruct Hr as (ys & Hys & Hr).
    injection Hr as <-. constructor; [exact Hy | apply IH; exact Hys].
Qed.

Lemma mapM_total {A B : Type} (f : A -> result B) (g : A -> B) (l : list A) :
  Forall (fun x => f x = Ok (g x)) l -> mapM f l = Ok (map g l).
Proof.
  induction 1 as [|x xs Hx _ IH]; simpl.
  - reflexivity.
  - rewrite Hx, IH. reflexivity.
Qed.

(** ** The shape of a run, in any arithmetic *)

Section Shape.

Context {F : Type} `{PyFloat F}.

Lemma check_row_key (fn : F -> result F) (label : string) (row : F * F)
    (e : entry) :
  check_row fn label row = Ok e ->
  (quantity (to_Entry e), spin (to_Entry e)) = (label, fst row).
Proof.
  destruct row as [s expected]. unfold check_row. intro He.
  apply bind_inv in He. destruct He as (value & _ & He).
  apply bind_inv in He. destruct He as (rel_err & _ & He).
  injection He as <-. reflexivity.
Qed.

Lemma check_series_keys (reference : list (F * F)) (fn : F -> result F)
    (label : string) (es : list entry) :
  check_series reference fn label = Ok es ->
  keys (map to_Entry es) = labelled label reference.
Proof.
  unfold check_series. intro Hes. apply mapM_Forall2 in Hes.
  induction Hes as [|row e rows es' Hrow _ IH]; simpl.
  - reflexivity.
  - f_equal; [ | exact IH].
    apply (check_row_key _ _ _ Hrow).
Qed.

(** What a successful [run_checks] went through. *)
Lemma run_checks_inv (m : F) (output : string) (report : Report)
    (trace : list event) :
  run_checks m output = Ok (report, trace) ->
  exists g isco photon summary,
    gravitational_radius m = Ok g /\
    check_series REFERENCE_ISCO isco_radius "isco" = Ok isco /\
    check_series REFERENCE_PHOTON photon_radius "photon" = Ok photon /\
    summarize (isco ++ photon) = Ok summary /\
    report = mkReport m g (summary_max_rel_error summary)
               (summary_mean_rel_error summary)
               (f_lt (summary_max_rel_error summary) threshold)
               (map to_Entry (isco ++ photon)) /\
    trace = [WriteText output report].
Proof.
  unfold run_checks. intro Hrun.
  apply bind_inv in Hrun. destruct Hrun as (g & Hg & Hrun).
  apply bind_inv in Hrun. destruct Hrun as (isco & Hisco & Hrun).
  apply bind_inv in Hrun. destruct Hrun as (photon & Hphoton & Hrun).
  apply bind_inv in Hrun. destruct Hrun as (summary & Hsummary & Hrun).
  exists g, isco, photon, summary.
  injection Hrun as <- <-. repeat split; assumption.
Qed.

Lemma run_checks_keys (m : F) (output : string) (report : Report)
    (trace : list event) :
  run_checks m output = Ok (report, trace) ->
  keys (entries report)
  = labelled "isco" REFERENCE_ISCO ++ labelled "photon" REFERENCE_PHOTON.
Proof.
  intro Hrun. apply run_checks_inv in Hrun.
  destruct Hrun as (g & isco & photon & summary & _ & Hisco & Hphoton & _ & -> & _).
  cbn [entries]. unfold keys. rewrite !map_app. f_equal.
  - apply (check_series_keys _ _ _ Hisco).
  - apply (check_series_keys _ _ _ Hphoton).
Qed.

Lemma run_checks_ok (m : F) (output : string) (report : Report)
    (trace : list event) :
  run_checks m output = Ok (report, trace) ->
  ok report = f_lt (max_rel_error report) threshold.
Proof.
  intro Hrun. apply run_checks_inv in Hrun.
  destruct Hrun as (g & isco & photon & summary & _ & _ & _ & _ & -> & _).
  reflexivity.
Qed.

Lemma main_inv (args : Namespace) (code : Z) (trace : list event) :
  main args = Ok (code, trace) ->
  exists report,
    run_checks (mass args) (out args) = Ok (report, [WriteText (out args) report]) /\
    code = exit_status report /\
    trace = [WriteText (out args) report; Print (verdict_line report)].
Proof.
  unfold main. intro Hmain.
  apply bind_inv in Hmain. destruct Hmain as ([report tr] & Hrun & Hmain).
  injection Hmain as <- <-.
  pose proof (run_checks_inv _ _ Hrun) as Hinv.
  destruct Hinv as (g & isco & photon & summary & _ & _ & _ & _ & _ & ->).
  exists report. repeat split. exact Hrun.
Qed.

Lemma main_of_run (args : Namespace) (report : Report) (trace : list event) :
  run_checks (mass args) (out args) = Ok (report, trace) ->
  main args = Ok (exit_status report, trace ++ [Print (verdict_line report)]).
Proof. unfold main. intros ->. reflexivity. Qed.

End Shape.

(** ** The loop of [check_series] and the fields of the report *)

Section Loop.

Context {F : Type} `{PyFloat F}.

Lemma mapM_app_raise {A B : Type} (f : A -> result B) (pre post : list A)
    (x : A) (ex : exn) :
  Forall (fun a => exists b, f a = Ok b) pre -> f x = Raise ex ->
  mapM f (pre ++ x :: post) = Raise ex.
Proof.
  intros Hpre Hx. induction Hpre as [|a pre (b & Hb) _ IH]; cbn [app mapM].
  - rewrite Hx. reflexivity.
  - rewrite Hb, bind_Ok, IH. reflexivity.
Qed.

Lemma mapM_of_Forall2 {A B : Type} (f : A -> result B) (l : list A)
    (r : list B) :
  Forall2 (fun x y => f x = Ok y) l r -> mapM f l = Ok r.
Proof.
  induction 1 as [|x y l r Hxy _ IH]; cbn [mapM].
  - reflexivity.
  - rewrite Hxy, bind_Ok, IH. reflexivity.
Qed.

Lemma check_series_raises (pre post : list (F * F)) (row : F * F)
    (fn : F -> result F) (label : string) (ex : exn) :
  Forall (fun r => exists en, check_row fn label r = Ok en) pre ->
  check_row fn label row = Raise ex ->
  check_series (pre ++ row :: post) fn label = Raise ex.
Proof. unfold check_series. apply mapM_app_raise. Qed.

Lemma relative_error_of_entry (e : string * F * F) :
  relative_error (to_Entry e) = snd e.
Proof. destruct e as [[label s] err]. reflexivity. Qed.

End Loop.

(** ** The formulas in exact real arithmetic *)

Module RealModel.

Import RealArith RealFormulas.

Local Open Scope R_scope.

(** *** The operations where they are defined *)

Lemma div_ok (x y : R) : y <> 0 -> div x y = Ok (x / y).
Proof. intro Hy. unfold div. destruct (Req_dec_T y 0); [contradiction | reflexivity]. Qed.

Lemma pow_pos (x y : R) : 0 < x -> y <> 0 -> pow x y = Ok (Rpower x y).
Proof.
  intros Hx Hy. unfold pow.
  destruct (Req_dec_T y 0); [contradiction | ].
  destruct (Rlt_dec 0 x); [reflexivity | contradiction].
Qed.

Lemma msqrt_ok (x : R) : 0 <= x -> msqrt x = Ok (sqrt x).
Proof. intro Hx. unfold msqrt. destruct (Rlt_dec x 0); [lra | reflexivity]. Qed.

Lemma msqrt_neg (x : R) : x < 0 -> msqrt x = Raise ValueError.
Proof. intro Hx. unfold msqrt. destruct (Rlt_dec x 0); [reflexivity | lra]. Qed.

Lemma macos_ok (x : R) : -1 <= x <= 1 -> macos x = Ok (acos x).
Proof.
  intros [Hlo Hhi]. unfold macos.
  destruct (Rle_dec (-1) x); [ | contradiction].
  destruct (Rle_dec x 1); [reflexivity | contradiction].
Qed.

Lemma ltb_true (x y : R) : ltb x y = true <-> x < y.
Proof. unfold ltb. destruct (Rlt_dec x y); split; intros; try easy. Qed.

Lemma ltb_false (x y : R) : ltb x y = false <-> y <= x.
Proof. unfold ltb. destruct (Rlt_dec x y); split; intros; try easy; lra. Qed.

Lemma leb_true (x y : R) : leb x y = true <-> x <= y.
Proof. unfold leb. destruct (Rle_dec x y); split; intros; try easy. Qed.

(** *** Clamping *)

Lemma py_min_real (x y : R) : py_min x y = Rmin x y.
Proof.
  unfold py_min. cbn. unfold ltb, Rmin.
  destruct (Rlt_dec y x), (Rle_dec x y); try reflexivity; lra.
Qed.

Lemma py_max_real (x y : R) : py_max x y = Rmax x y.
Proof.
  unfold py_max, f_gt. cbn. unfold ltb, Rmax.
  destruct (Rlt_dec x y), (Rle_dec x y); try reflexivity; lra.
Qed.

Lemma isco_clamp_real (s : R) :
  isco_clamp s = Rmax (Rmin s (998 / 1000)) (- (998 / 1000)).
Proof. unfold isco_clamp. rewrite py_max_real, py_min_real. reflexivity. Qed.

Lemma photon_clamp_real (s : R) :
  photon_clamp s = Rmax (Rmin (Rabs s) (999 / 1000)) (1 / 1000000).
Proof. unfold photon_clamp. rewrite py_max_real, py_min_real. reflexivity. Qed.

Lemma isco_clamp_range (s : R) :
  - (998 / 1000) <= isco_clamp s <= 998 / 1000.
Proof.
  rewrite isco_clamp_real. unfold Rmax, Rmin.
  destruct (Rle_dec s (998 / 1000)); destruct (Rle_dec _ _); lra.
Qed.

Lemma isco_clamp_inside (s : R) :
  - (998 / 1000) <= s <= 998 / 1000 -> isco_clamp s = s.
Proof.
  intro Hs. rewrite isco_clamp_real. unfold Rmax, Rmin.
  destruct (Rle_dec s (998 / 1000)); destruct (Rle_dec _ _); lra.
Qed.

Lemma isco_clamp_above (s : R) :
  998 / 1000 <= s -> isco_clamp s = 998 / 1000.
Proof.
  intro Hs. rewrite isco_clamp_real. unfold Rmax, Rmin.
  destruct (Rle_dec s (998 / 1000)); destruct (Rle_dec _ _); lra.
Qed.

Lemma photon_clamp_range (s : R) :
  1 / 1000000 <= photon_clamp s <= 999 / 1000.
Proof.
  rewrite photon_clamp_real. unfold Rmax, Rmin.
  destruct (Rle_dec (Rabs s) (999 / 1000)); destruct (Rle_dec _ _); lra.
Qed.

Lemma photon_clamp_inside (s : R) :
  1 / 1000000 <= s <= 999 / 1000 -> photon_clamp s = s.
Proof.
  intro Hs. rewrite photon_clamp_real.
  rewrite (Rabs_pos_eq s) by lra. unfold Rmax, Rmin.
  destruct (Rle_dec s (999 / 1000)); destruct (Rle_dec _ _); lra.
Qed.

(** *** Cube roots *)

Lemma cbrt_pos (x : R) : 0 < cbrt x.
Proof. apply exp_pos. Qed.

Lemma cbrt_cube (x : R) : 0 < x -> cbrt x * cbrt x * cbrt x = x.
Proof.
  intro Hx.
  assert (Hpow : Rpower (cbrt x) (INR 3) = x).
  { unfold cbrt. rewrite Rpower_mult.
    replace (1 / 3 * INR 3) with 1 by (simpl; lra).
    apply Rpower_1. exact Hx. }
  rewrite Rpower_pow in Hpow by apply cbrt_pos.
  rewrite <- Hpow at 4. ring.
Qed.

Lemma cbrt_1 : cbrt 1 = 1.
Proof. unfold cbrt, Rpower. rewrite ln_1, Rmult_0_r. apply exp_0. Qed.

Lemma cube_lt (x y : R) : 0 <= x -> x < y -> x * x * x < y * y * y.
Proof.
  intros Hx Hxy.
  assert (Hq : 0 < y * y + x * y + x * x) by nra.
  assert (Hprod : 0 < (y - x) * (y * y + x * y + x * x))
    by (apply Rmult_lt_0_compat; lra).
  replace (y * y * y) with (x * x * x + (y - x) * (y * y + x * y + x * x)) by ring.
  lra.
Qed.

(** A cube root lies between two numbers whose cubes enclose the
    argument. *)
Lemma cbrt_bounds (x lo hi : R) :
  0 < lo -> lo * lo * lo <= x <= hi * hi * hi -> lo <= cbrt x <= hi.
Proof.
  intros Hlo [Hl Hh].
  assert (Hlo3 : 0 * 0 * 0 < lo * lo * lo) by (apply cube_lt; lra).
  assert (Hx : 0 < x) by lra.
  pose proof (cbrt_pos x) as Hc. pose proof (cbrt_cube Hx) as Hcube.
  split.
  - destruct (Rle_lt_dec lo (cbrt x)) as [|Hlt]; [assumption | ].
    pose proof (cube_lt (Rlt_le _ _ Hc) Hlt). lra.
  - destruct (Rle_lt_dec (cbrt x) hi) as [|Hlt]; [assumption | ].
    assert (0 <= hi \/ hi < 0) as [Hhi | Hhi] by lra.
    + pose proof (cube_lt Hhi Hlt). lra.
    + assert (Hneg : 0 * 0 * 0 < - hi * - hi * - hi) by (apply cube_lt; lra).
      replace (- hi * - hi * - hi) with (- (hi * hi * hi)) in Hneg by ring.
      lra.
Qed.

Lemma cbrt_le_1 (x : R) : 0 < x <= 1 -> cbrt x <= 1.
Proof.
  intros [Hx Hx1]. pose proof (cbrt_pos x) as Hc.
  pose proof (cbrt_cube Hx) as Hcube.
  destruct (Rle_lt_dec (cbrt x) 1) as [|Hlt]; [assumption | ].
  assert (1 * 1 * 1 < cbrt x * cbrt x * cbrt x) by (apply cube_lt; lra).
  lra.
Qed.

Lemma cbrt_lt_1 (x : R) : 0 < x < 1 -> cbrt x < 1.
Proof.
  intros [Hx Hx1]. pose proof (cbrt_pos x) as Hc.
  pose proof (cbrt_cube Hx) as Hcube.
  destruct (Rlt_le_dec (cbrt x) 1) as [|Hle]; [assumption | ].
  destruct Hle as [Hlt | Heq].
  - assert (1 * 1 * 1 < cbrt x * cbrt x * cbrt x) by (apply cube_lt; lra).
    lra.
  - rewrite <- Heq in Hcube. lra.
Qed.

(** Two positive numbers whose cubes add up to 2 add up to at most 2
    (the power-mean inequality). *)
Lemma sum_of_cube_roots (p q : R) :
  0 < p -> 0 < q -> p * p * p + q * q * q = 2 -> p + q <= 2.
Proof.
  intros Hp Hq Hsum.
  destruct (Rle_lt_dec (p + q) 2) as [|Hlt]; [assumption | exfalso].
  assert (Hid : 4 * (p * p * p + q * q * q)
                = (p + q) * (p + q) * (p + q) + 3 * (p + q) * ((p - q) * (p - q)))
    by ring.
  assert (0 <= 3 * (p + q) * ((p - q) * (p - q))).
  { apply Rmult_le_pos; [lra | ]. apply Rle_0_sqr. }
  assert (2 * 2 * 2 < (p + q) * (p + q) * (p + q)) by (apply cube_lt; lra).
  lra.
Qed.

(** *** The ISCO radius *)

Lemma sq_bound (a c : R) : - c <= a <= c -> a * a <= c * c.
Proof.
  intros [Hlo Hhi].
  assert (Hprod : 0 <= (c - a) * (c + a)) by (apply Rmult_le_pos; lra).
  replace ((c - a) * (c + a)) with (c * c - a * a) in Hprod by ring.
  lra.
Qed.

Section Isco.

Variable a : R.
Hypothesis a_range : - (998 / 1000) <= a <= 998 / 1000.

Lemma one_minus_sq_pos : 0 < 1 - a * a <= 1.
Proof.
  pose proof (sq_bound a_range) as Hsq.
  pose proof (Rle_0_sqr a) as Hpos. unfold Rsqr in Hpos. lra.
Qed.

Lemma z1_range : 1 < z1 a <= 3.
Proof.
  unfold z1.
  pose proof one_minus_sq_pos as Hbase.
  pose proof (cbrt_pos (1 - a * a)) as Ht.
  pose proof (cbrt_le_1 Hbase) as Ht1.
  pose proof (cbrt_pos (1 + a)) as Hp.
  pose proof (cbrt_pos (1 - a)) as Hq.
  assert (Hsum : cbrt (1 + a) + cbrt (1 - a) <= 2).
  { apply sum_of_cube_roots; try assumption.
    rewrite !cbrt_cube by lra. ring. }
  assert (Hpq : 0 < cbrt (1 + a) + cbrt (1 - a)) by lra.
  set (t := cbrt (1 - a * a)) in *.
  set (pq := cbrt (1 + a) + cbrt (1 - a)) in *.
  assert (Hpos : 0 < t * pq) by (apply Rmult_lt_0_compat; lra).
  assert (Hle : t * pq <= 1 * 2) by (apply Rmult_le_compat; lra).
  lra.
Qed.

Lemma z1_lt_3 : a <> 0 -> z1 a < 3.
Proof.
  intro Ha. unfold z1.
  pose proof one_minus_sq_pos as Hbase.
  assert (Hsq : 0 < a * a).
  { pose proof (Rsqr_pos_lt a Ha) as Hpos. unfold Rsqr in Hpos. exact Hpos. }
  pose proof (cbrt_pos (1 - a * a)) as Ht.
  assert (Ht1 : cbrt (1 - a * a) < 1) by (apply cbrt_lt_1; lra).
  pose proof (cbrt_pos (1 + a)) as Hp.
  pose proof (cbrt_pos (1 - a)) as Hq.
  assert (Hsum : cbrt (1 + a) + cbrt (1 - a) <= 2).
  { apply sum_of_cube_roots; try assumption.
    rewrite !cbrt_cube by lra. ring. }
  assert (Hpq : 0 < cbrt (1 + a) + cbrt (1 - a)) by lra.
  set (t := cbrt (1 - a * a)) in *.
  set (pq := cbrt (1 + a) + cbrt (1 - a)) in *.
  assert (Hlt : t * pq < 1 * pq) by (apply Rmult_lt_compat_r; lra).
  lra.
Qed.

Lemma z2_arg_nonneg : 0 <= 3 * a * a + z1 a * z1 a.
Proof.
  pose proof (Rle_0_sqr a) as Ha. pose proof (Rle_0_sqr (z1 a)) as Hz.
  unfold Rsqr in *. lra.
Qed.

Lemma z2_nonneg : 0 <= z2 a.
Proof. apply sqrt_pos. Qed.

Lemma radicand_nonneg : 0 <= radicand a.
Proof.
  unfold radicand. pose proof z1_range. pose proof z2_nonneg.
  apply Rmult_le_pos; lra.
Qed.

Lemma radicand_pos : a <> 0 -> 0 < radicand a.
Proof.
  intro Ha. unfold radicand.
  pose proof (z1_lt_3 Ha). pose proof z1_range. pose proof z2_nonneg.
  apply Rmult_lt_0_compat; lra.
Qed.

(** With the clamped spin in range, every operation of [isco_radius]
    is defined and the result is [isco_value]. *)
Lemma isco_steps :
  (third <- div 1 3 ;;
   term <- pow (1 - a * a) third ;;
   p <- pow (1 + a) third ;;
   q <- pow (1 - a) third ;;
   z <- msqrt (3 * a * a + (1 + term * (p + q)) * (1 + term * (p + q))) ;;
   s <- msqrt ((3 - (1 + term * (p + q))) * (3 + (1 + term * (p + q)) + 2 * z)) ;;
   Ok (3 + z - IZR (if leb 0 a then 1 else -1) * s))%py
  = Ok (isco_value a).
Proof.
  rewrite div_ok by lra. rewrite bind_Ok.
  pose proof one_minus_sq_pos as Hbase.
  rewrite pow_pos by lra. rewrite bind_Ok.
  rewrite pow_pos by lra. rewrite bind_Ok.
  rewrite pow_pos by lra. rewrite bind_Ok.
  fold (cbrt (1 - a * a)) (cbrt (1 + a)) (cbrt (1 - a)). fold (z1 a).
  rewrite msqrt_ok by apply z2_arg_nonneg. rewrite bind_Ok.
  fold (z2 a). fold (radicand a).
  rewrite msqrt_ok by apply radicand_nonneg. rewrite bind_Ok.
  reflexivity.
Qed.

End Isco.

Lemma isco_radius_unfold (s : R) :
  isco_radius s = Ok (isco_value (isco_clamp s)).
Proof.
  unfold isco_radius.
  cbn [f_div f_pow f_sub f_add f_mul of_int m_sqrt f_le arith].
  apply isco_steps. apply isco_clamp_range.
Qed.

(** *** Enclosures of the ISCO radius *)

Lemma sqrt_bounds (x lo hi : R) :
  0 <= lo -> 0 <= hi -> lo * lo <= x <= hi * hi -> lo <= sqrt x <= hi.
Proof.
  intros Hlo Hhi [Hl Hh]. split.
  - rewrite <- (sqrt_square lo Hlo). apply sqrt_le_1_alt. exact Hl.
  - rewrite <- (sqrt_square hi Hhi). apply sqrt_le_1_alt. exact Hh.
Qed.

Lemma mult_bounds (x y xl xh yl yh : R) :
  0 <= xl -> 0 <= yl -> xl <= x <= xh -> yl <= y <= yh ->
  xl * yl <= x * y <= xh * yh.
Proof.
  intros Hxl Hyl [Hx1 Hx2] [Hy1 Hy2].
  split; apply Rmult_le_compat; lra.
Qed.

(** An enclosure of [isco_value a] for a prograde spin, from
    enclosures of the three cube roots and the two square roots. Every
    side condition is an inequality between rational numbers. *)
Lemma isco_enclosure (a tl th pl ph ql qh z1l z1h z2l z2h sl sh : R) :
  0 <= a <= 998 / 1000 ->
  0 < tl -> tl * tl * tl <= 1 - a * a <= th * th * th ->
  0 < pl -> pl * pl * pl <= 1 + a <= ph * ph * ph ->
  0 < ql -> ql * ql * ql <= 1 - a <= qh * qh * qh ->
  0 <= z1l <= 1 + tl * (pl + ql) -> 1 + th * (ph + qh) <= z1h <= 3 ->
  0 <= z2l -> z2l * z2l <= 3 * a * a + z1l * z1l ->
  0 <= z2h -> 3 * a * a + z1h * z1h <= z2h * z2h ->
  0 <= sl -> sl * sl <= (3 - z1h) * (3 + z1l + 2 * z2l) ->
  0 <= sh -> (3 - z1l) * (3 + z1h + 2 * z2h) <= sh * sh ->
  3 + z2l - sh <= isco_value a <= 3 + z2h - sl.
Proof.
  intros Ha Htl Ht Hpl Hp Hql Hq Hz1l Hz1h Hz2l Hz2l' Hz2h Hz2h' Hsl Hsl' Hsh Hsh'.
  pose proof (cbrt_bounds Htl Ht) as Bt.
  pose proof (cbrt_bounds Hpl Hp) as Bp.
  pose proof (cbrt_bounds Hql Hq) as Bq.
  assert (Bpq : pl + ql <= cbrt (1 + a) + cbrt (1 - a) <= ph + qh) by lra.
  assert (Bprod : tl * (pl + ql)
                  <= cbrt (1 - a * a) * (cbrt (1 + a) + cbrt (1 - a))
                  <= th * (ph + qh))
    by (apply mult_bounds; lra).
  assert (Bz1 : z1l <= z1 a <= z1h) by (unfold z1; lra).
  assert (Bz1sq : z1l * z1l <= z1 a * z1 a <= z1h * z1h)
    by (apply mult_bounds; lra).
  assert (Bz2 : z2l <= z2 a <= z2h)
    by (unfold z2; apply sqrt_bounds; lra).
  assert (Brad : (3 - z1h) * (3 + z1l + 2 * z2l) <= radicand a
                 <= (3 - z1l) * (3 + z1h + 2 * z2h))
    by (unfold radicand; apply mult_bounds; lra).
  assert (Bs : sl <= sqrt (radicand a) <= sh)
    by (apply sqrt_bounds; lra).
  unfold isco_value.
  assert (Hsign : leb 0 a = true) by (apply leb_true; lra).
  rewrite Hsign. lra.
Qed.

Lemma isco_value_0 : isco_value 0 = 6.
Proof.
  assert (Hz1 : z1 0 = 3).
  { unfold z1.
    replace (1 - 0 * 0) with 1 by ring.
    replace (1 + 0) with 1 by ring.
    replace (1 - 0) with 1 by ring.
    rewrite cbrt_1. ring. }
  assert (Hz2 : z2 0 = 3).
  { unfold z2. rewrite Hz1.
    replace (3 * 0 * 0 + 3 * 3) with (3 * 3) by ring.
    apply sqrt_square. lra. }
  unfold isco_value, radicand. rewrite Hz1, Hz2.
  replace ((3 - 3) * (3 + 3 + 2 * 3)) with 0 by ring.
  rewrite sqrt_0. ring.
Qed.

Lemma isco_value_05 : 4.232952 <= isco_value (5 / 10) <= 4.233056.
Proof.
  assert (Henc := @isco_enclosure (5 / 10)
    0.908558 0.908563 1.144712 1.144717 0.793698 0.793703
    2.761157 2.761177 2.893782 2.893806 1.660750 1.660830).
  lapply Henc; [clear Henc; intro Henc | lra].
  repeat (lapply Henc; [clear Henc; intro Henc | lra]).
  lra.
Qed.

Lemma isco_value_09 : 2.320856 <= isco_value (9 / 10) <= 2.320909.
Proof.
  assert (Henc := @isco_enclosure (9 / 10)
    0.574887 0.574892 1.238560 1.238565 0.464156 0.464161
    1.978869 1.978884 2.519109 2.519126 3.198217 3.198253).
  repeat (lapply Henc; [clear Henc; intro Henc | lra]).
  lra.
Qed.

Lemma isco_value_0998 : 1.236956 <= isco_value (998 / 1000) <= 1.236987.
Proof.
  assert (Henc := @isco_enclosure (998 / 1000)
    0.158685 0.158690 1.259498 1.259503 0.125990 0.125995
    1.219856 1.219865 2.115668 2.115678 3.878691 3.878712).
  repeat (lapply Henc; [clear Henc; intro Henc | lra]).
  lra.
Qed.

(** *** The photon-ring radius *)

Lemma photon_radius_unfold (s : R) :
  photon_radius s = Ok (photon_value (photon_clamp s)).
Proof.
  unfold photon_radius.
  cbn [f_div f_neg f_mul f_add of_int m_acos m_cos of_decimal arith].
  pose proof (photon_clamp_range s) as Ha.
  change (decimal 20 (-1)) with (20 / 10).
  change (decimal 30 (-1)) with (30 / 10).
  rewrite div_ok by lra. rewrite bind_Ok.
  rewrite macos_ok by lra. rewrite bind_Ok.
  cbn [bind]. unfold photon_value.
  replace (20 / 10 / (30 / 10)) with (2 / 3) by lra.
  reflexivity.
Qed.

Lemma cos_triple (x : R) :
  cos (3 * x) = 4 * (cos x * cos x * cos x) - 3 * cos x.
Proof.
  replace (3 * x) with (2 * x + x) by ring.
  rewrite cos_plus, cos_2a_cos, sin_2a.
  pose proof (sin2 x) as Hsin. unfold Rsqr in Hsin.
  replace (2 * sin x * cos x * sin x) with (2 * cos x * (sin x * sin x)) by ring.
  rewrite Hsin. ring.
Qed.

Lemma cos_PI3_half : cos (PI / 3) = 1 / 2.
Proof. rewrite sin_PI6_cos_PI3. apply sin_PI6. Qed.

(** The cubic [4 c^3 - 3 c] is increasing from [1/2] on. *)
Lemma cubic_increasing (x y : R) :
  1 / 2 <= x -> x < y ->
  4 * (x * x * x) - 3 * x < 4 * (y * y * y) - 3 * y.
Proof.
  intros Hx Hxy.
  assert (Hxx : 1 / 2 * (1 / 2) <= x * x) by (apply Rmult_le_compat; lra).
  assert (Hxy' : 1 / 2 * (1 / 2) < x * y).
  { apply Rle_lt_trans with (x * (1 / 2)).
    - apply Rmult_le_compat_r; lra.
    - apply Rmult_lt_compat_l; lra. }
  assert (Hyy : 1 / 2 * (1 / 2) < y * y).
  { apply Rle_lt_trans with (y * (1 / 2)).
    - apply Rmult_le_compat_r; lra.
    - apply Rmult_lt_compat_l; lra. }
  assert (Hprod : 0 < (y - x) * (4 * (y * y + x * y + x * x) - 3))
    by (apply Rmult_lt_0_compat; lra).
  replace (4 * (y * y * y) - 3 * y)
    with (4 * (x * x * x) - 3 * x + (y - x) * (4 * (y * y + x * y + x * x) - 3))
    by ring.
  lra.
Qed.

Section Photon.

Variable a : R.
Hypothesis a_range : -1 <= - a <= 0.

Lemma cos_third_range : 1 / 2 <= cos_third a <= 1.
Proof.
  unfold cos_third. pose proof (acos_bound (- a)) as [Hlo Hhi].
  pose proof PI_RGT_0 as Hpi. split.
  - rewrite <- cos_PI3_half. apply cos_decr_1; lra.
  - apply COS_bound.
Qed.

Lemma cos_third_cubic :
  4 * (cos_third a * cos_third a * cos_third a) - 3 * cos_third a = - a.
Proof.
  unfold cos_third. rewrite <- cos_triple.
  replace (3 * (acos (- a) / 3)) with (acos (- a)) by lra.
  apply cos_acos. lra.
Qed.

Lemma photon_value_square : photon_value a = 4 * (cos_third a * cos_third a).
Proof.
  unfold photon_value, cos_third.
  replace (2 / 3 * acos (- a)) with (2 * (acos (- a) / 3)) by lra.
  rewrite cos_2a_cos. ring.
Qed.

(** An enclosure of [photon_value a] from two points where the cubic
    lies on either side of [- a]. *)
Lemma photon_enclosure (lo hi : R) :
  1 / 2 <= lo -> 1 / 2 <= hi ->
  4 * (lo * lo * lo) - 3 * lo <= - a <= 4 * (hi * hi * hi) - 3 * hi ->
  4 * (lo * lo) <= photon_value a <= 4 * (hi * hi).
Proof.
  intros Hlo Hhi [Hl Hh].
  pose proof cos_third_range as [Hc Hc1]. pose proof cos_third_cubic as Hcubic.
  assert (Blo : lo <= cos_third a).
  { destruct (Rle_lt_dec lo (cos_third a)) as [|Hlt]; [assumption | ].
    pose proof (cubic_increasing Hc Hlt). lra. }
  assert (Bhi : cos_third a <= hi).
  { destruct (Rle_lt_dec (cos_third a) hi) as [|Hlt]; [assumption | ].
    pose proof (cubic_increasing Hhi Hlt). lra. }
  rewrite photon_value_square.
  assert (lo * lo <= cos_third a * cos_third a <= hi * hi)
    by (apply mult_bounds; lra).
  lra.
Qed.

End Photon.

Lemma photon_value_0 :
  2.999997 <= photon_value (1 / 1000000) <= 3.
Proof.
  assert (Henc := @photon_enclosure (1 / 1000000) ltac:(lra) 0.866025 0.8660254).
  repeat (lapply Henc; [clear Henc; intro Henc | lra]).
  lra.
Qed.

Lemma photon_value_05 :
  2.347295 <= photon_value (5 / 10) <= 2.347298.
Proof.
  assert (Henc := @photon_enclosure (5 / 10) ltac:(lra) 0.7660443 0.7660446).
  repeat (lapply Henc; [clear Henc; intro Henc | lra]).
  lra.
Qed.

Lemma photon_value_09 :
  1.557853 <= photon_value (9 / 10) <= 1.557856.
Proof.
  assert (Henc := @photon_enclosure (9 / 10) ltac:(lra) 0.6240701 0.6240704).
  repeat (lapply Henc; [clear Henc; intro Henc | lra]).
  lra.
Qed.

Lemma photon_value_0998 :
  1.073908 <= photon_value (998 / 1000) <= 1.073910.
Proof.
  assert (Henc := @photon_enclosure (998 / 1000) ltac:(lra) 0.5181478 0.5181481).
  repeat (lapply Henc; [clear Henc; intro Henc | lra]).
  lra.
Qed.

(** *** The comparison with the tables *)

Lemma photon_clamp_0 : photon_clamp (0 / 10) = 1 / 1000000.
Proof.
  rewrite photon_clamp_real.
  replace (0 / 10) with 0 by lra. rewrite Rabs_R0.
  unfold Rmax, Rmin.
  destruct (Rle_dec 0 (999 / 1000)); destruct (Rle_dec _ _); lra.
Qed.

Lemma check_row_real (fn : R -> result R) (label : string) (s expected v : R) :
  fn s = Ok v -> expected <> 0 ->
  check_row fn label (s, expected) = Ok (label, s, rel_error v expected).
Proof.
  intros Hv He. unfold check_row. rewrite Hv, bind_Ok.
  cbn [f_div f_abs f_sub arith]. rewrite div_ok by exact He.
  reflexivity.
Qed.

Lemma check_series_isco :
  check_series REFERENCE_ISCO isco_radius "isco"
  = Ok (map isco_entry REFERENCE_ISCO).
Proof.
  apply mapM_total. unfold REFERENCE_ISCO.
  cbn [of_decimal arith]. norm_lits.
  repeat apply Forall_cons; try apply Forall_nil;
    unfold isco_entry; cbn [fst snd];
    (apply check_row_real; [apply isco_radius_unfold | lra]).
Qed.

Lemma check_series_photon :
  check_series REFERENCE_PHOTON photon_radius "photon"
  = Ok (map photon_entry REFERENCE_PHOTON).
Proof.
  apply mapM_total. unfold REFERENCE_PHOTON.
  cbn [of_decimal arith]. norm_lits.
  repeat apply Forall_cons; try apply Forall_nil;
    unfold photon_entry; cbn [fst snd];
    (apply check_row_real; [apply photon_radius_unfold | lra]).
Qed.

Lemma rel_error_lt (v e lo hi : R) :
  lo <= v <= hi -> 0 < e ->
  e - 8 / 1000 * e < lo -> hi < e + 8 / 1000 * e ->
  rel_error v e < 8 / 1000.
Proof.
  intros Hv He Hlo Hhi. unfold rel_error.
  apply Rmult_lt_reg_r with e; [exact He | ].
  unfold Rdiv at 1. rewrite Rmult_assoc, Rinv_l, Rmult_1_r by lra.
  apply Rabs_def1; lra.
Qed.

(** The eight relative errors are below the tolerance. *)
Lemma isco_errors_small :
  Forall (fun e : entry => snd e < 8 / 1000) (map isco_entry REFERENCE_ISCO).
Proof.
  unfold REFERENCE_ISCO. cbn [of_decimal arith map]. norm_lits.
  unfold isco_entry. cbn [fst snd].
  repeat apply Forall_cons; try apply Forall_nil; cbn [snd].
  - rewrite isco_clamp_inside by lra.
    replace (0 / 10) with 0 by lra. rewrite isco_value_0.
    apply rel_error_lt with 6 6; lra.
  - rewrite isco_clamp_inside by lra.
    pose proof isco_value_05.
    apply rel_error_lt with 4.232952 4.233056; lra.
  - rewrite isco_clamp_inside by lra.
    pose proof isco_value_09.
    apply rel_error_lt with 2.320856 2.320909; lra.
  - rewrite isco_clamp_inside by lra.
    pose proof isco_value_0998.
    apply rel_error_lt with 1.236956 1.236987; lra.
Qed.

Lemma photon_errors_small :
  Forall (fun e : entry => snd e < 8 / 1000) (map photon_entry REFERENCE_PHOTON).
Proof.
  unfold REFERENCE_PHOTON. cbn [of_decimal arith map]. norm_lits.
  unfold photon_entry. cbn [fst snd].
  repeat apply Forall_cons; try apply Forall_nil; cbn [snd].
  - rewrite photon_clamp_0.
    pose proof photon_value_0.
    apply rel_error_lt with 2.999997 3; lra.
  - rewrite photon_clamp_inside by lra.
    pose proof photon_value_05.
    apply rel_error_lt with 2.347295 2.347298; lra.
  - rewrite photon_clamp_inside by lra.
    pose proof photon_value_09.
    apply rel_error_lt with 1.557853 1.557856; lra.
  - rewrite photon_clamp_inside by lra.
    pose proof photon_value_0998.
    apply rel_error_lt with 1.073908 1.073910; lra.
Qed.

(** *** Aggregation *)

Lemma fold_max_lt (rest : list R) (x t : R) :
  fold_left py_max rest x < t <-> x < t /\ Forall (fun y => y < t) rest.
Proof.
  revert x. induction rest as [|y rest IH]; intro x; cbn [fold_left].
  - split; [intro Hx; split; [exact Hx | constructor] | intros [Hx _]; exact Hx].
  - rewrite IH, py_max_real. split.
    + intros [Hmax Hrest].
      pose proof (Rmax_l x y). pose proof (Rmax_r x y).
      split; [lra | constructor; [lra | exact Hrest]].
    + intros [Hx Hall]. inversion Hall as [|? ? Hy Hrest]; subst.
      split; [apply Rmax_lub_lt; assumption | exact Hrest].
Qed.

(** The maximum is below a bound exactly when every item is. *)
Lemma max_list_lt (xs : list R) (m t : R) :
  max_list xs = Ok m -> (m < t <-> Forall (fun x => x < t) xs).
Proof.
  destruct xs as [|x rest]; cbn [max_list]; intro Hm; [discriminate | ].
  injection Hm as <-. rewrite fold_max_lt. split.
  - intros [Hx Hrest]. constructor; assumption.
  - intro Hall. inversion Hall; subst. split; assumption.
Qed.

Lemma summarize_total (e : entry) (es : list entry) :
  exists summary, summarize (e :: es) = Ok summary.
Proof.
  unfold summarize, fmean. cbn [map max_list bind].
  cbn [m_fsum f_div of_int arith]. unfold fsum. cbn [bind].
  rewrite div_ok.
  - eexists. reflexivity.
  - apply not_0_IZR. cbn [List.length]. lia.
Qed.

Lemma gravitational_radius_total (m : R) :
  exists g, gravitational_radius m = Ok g.
Proof.
  unfold gravitational_radius. cbn [f_div arith].
  rewrite div_ok; [eexists; reflexivity | ].
  cbn [of_int arith]. apply not_0_IZR. discriminate.
Qed.

(** In exact arithmetic [run_checks] always produces a report. *)
Lemma run_checks_total (m : R) (output : string) :
  exists report, run_checks m output = Ok (report, [WriteText output report]).
Proof.
  unfold run_checks.
  destruct (gravitational_radius_total m) as (g & ->). rewrite bind_Ok.
  rewrite check_series_isco, bind_Ok.
  rewrite check_series_photon, bind_Ok.
  destruct (summarize_total (isco_entry (List.hd (0, 0) REFERENCE_ISCO))
              (map isco_entry (List.tl REFERENCE_ISCO)
               ++ map photon_entry REFERENCE_PHOTON)) as (summary & Hsum).
  change (summarize (map isco_entry REFERENCE_ISCO
                     ++ map photon_entry REFERENCE_PHOTON) = Ok summary) in Hsum.
  rewrite Hsum, bind_Ok.
  eexists. reflexivity.
Qed.

(** The entries of any report are the eight entries of the tables. *)
Lemma run_checks_entries (m : R) (output : string) (report : Report)
    (trace : list event) :
  run_checks m output = Ok (report, trace) ->
  entries report
  = map to_Entry (map isco_entry REFERENCE_ISCO
                  ++ map photon_entry REFERENCE_PHOTON).
Proof.
  intro Hrun. apply run_checks_inv in Hrun.
  destruct Hrun as (g & isco & photon & summary & _ & Hisco & Hphoton & _ & -> & _).
  rewrite check_series_isco in Hisco. rewrite check_series_photon in Hphoton.
  assert (Hi : isco = map isco_entry REFERENCE_ISCO) by congruence.
  assert (Hp : photon = map photon_entry REFERENCE_PHOTON) by congruence.
  rewrite Hi, Hp. reflexivity.
Qed.

Lemma relative_error_to_Entry (e : entry (F := R)) :
  relative_error (to_Entry e) = snd e.
Proof. destruct e as [[label s] err]. reflexivity. Qed.

(** [ok] says that every entry is below the tolerance. *)
Lemma ok_iff_all_small (m : R) (output : string) (report : Report)
    (trace : list event) :
  run_checks m output = Ok (report, trace) ->
  ok report = true
  <-> Forall (fun e => relative_error e < threshold) (entries report).
Proof.
  intro Hrun. apply run_checks_inv in Hrun.
  destruct Hrun as (g & isco & photon & summary & _ & _ & _ & Hsum & -> & _).
  cbn [ok entries]. unfold summarize in Hsum.
  apply bind_inv in Hsum. destruct Hsum as (mx & Hmx & Hsum).
  apply bind_inv in Hsum. destruct Hsum as (mean & _ & Hsum).
  injection Hsum as <-. cbn [summary_max_rel_error].
  cbn [f_lt arith]. rewrite ltb_true.
  rewrite (@max_list_lt _ _ _ Hmx). rewrite !Forall_map.
  split; apply Forall_impl; intro e; rewrite relative_error_to_Entry;
    exact (fun Hlt => Hlt).
Qed.

Lemma all_small (m : R) (output : string) (report : Report)
    (trace : list event) :
  run_checks m output = Ok (report, trace) ->
  Forall (fun e => relative_error e < threshold) (entries report).
Proof.
  intro Hrun. apply run_checks_entries in Hrun. rewrite Hrun.
  rewrite Forall_map, Forall_app. split.
  - pose proof isco_errors_small as Hsmall. rewrite Forall_map in *.
    revert Hsmall. apply Forall_impl. intro row.
    rewrite relative_error_to_Entry. exact (fun H => H).
  - pose proof photon_errors_small as Hsmall. rewrite Forall_map in *.
    revert Hsmall. apply Forall_impl. intro row.
    rewrite relative_error_to_Entry. exact (fun H => H).
Qed.

Lemma run_checks_passes (m : R) (output : string) (report : Report)
    (trace : list event) :
  run_checks m output = Ok (report, trace) -> ok report = true.
Proof.
  intro Hrun. pose proof Hrun as Hall. apply all_small in Hall.
  apply ok_iff_all_small in Hrun. apply Hrun. exact Hall.
Qed.

(** *** Prograde and retrograde orbits *)

Lemma z1_even (a : R) : z1 (- a) = z1 a.
Proof.
  unfold z1.
  replace (1 - - a * - a) with (1 - a * a) by ring.
  replace (1 + - a) with (1 - a) by ring.
  replace (1 - - a) with (1 + a) by ring.
  ring.
Qed.

Lemma z2_even (a : R) : z2 (- a) = z2 a.
Proof.
  unfold z2. rewrite z1_even.
  replace (3 * - a * - a) with (3 * a * a) by ring. reflexivity.
Qed.

Lemma radicand_even (a : R) : radicand (- a) = radicand a.
Proof. unfold radicand. rewrite z1_even, z2_even. reflexivity. Qed.

Lemma isco_value_prograde (a : R) :
  0 <= a -> isco_value a = 3 + z2 a - sqrt (radicand a).
Proof.
  intro Ha. unfold isco_value.
  assert (Hsign : leb 0 a = true) by (apply leb_true; exact Ha).
  rewrite Hsign. ring.
Qed.

Lemma isco_value_retrograde (a : R) :
  0 < a -> isco_value (- a) = 3 + z2 a + sqrt (radicand a).
Proof.
  intro Ha. unfold isco_value.
  assert (Hsign : leb 0 (- a) = false).
  { unfold leb. destruct (Rle_dec 0 (- a)); [lra | reflexivity]. }
  rewrite Hsign, z2_even, radicand_even. ring.
Qed.

Lemma isco_value_gap (a : R) :
  0 < a <= 998 / 1000 -> isco_value a < isco_value (- a).
Proof.
  intros [Hpos Hle].
  rewrite isco_value_prograde by lra. rewrite isco_value_retrograde by exact Hpos.
  assert (Hrad : 0 < radicand a) by (apply radicand_pos; lra).
  pose proof (sqrt_lt_R0 _ Hrad). lra.
Qed.

End RealModel.

(** ** The formulas under rounding *)

Module RoundedModel.

Import RealArith RealFormulas RealModel RoundedArith.

Local Open Scope R_scope.

Lemma Rabs_le_inv (x b : R) : Rabs x <= b -> - b <= x <= b.
Proof.
  intro Hx. pose proof (Rle_abs x) as H1. pose proof (Rle_abs (- x)) as H2.
  rewrite Rabs_Ropp in H2. lra.
Qed.

(** *** Logarithms and powers near one third *)

Lemma ln_le_minus_1 (x : R) : 0 < x -> ln x <= x - 1.
Proof.
  intro Hx. pose proof (exp_ineq1_le (ln x)) as Hexp.
  rewrite exp_ln in Hexp by exact Hx. lra.
Qed.

Lemma ln_ge_1_minus_inv (x : R) : 0 < x -> 1 - / x <= ln x.
Proof.
  intro Hx. assert (Hinv : 0 < / x) by (apply Rinv_0_lt_compat; exact Hx).
  pose proof (ln_le_minus_1 Hinv) as Hln. rewrite ln_Rinv in Hln by exact Hx.
  lra.
Qed.

Lemma ln_bounded (x : R) : 1 / 1000 <= x <= 3 -> -1000 <= ln x <= 2.
Proof.
  intros [Hlo Hhi]. assert (Hx : 0 < x) by lra. split.
  - pose proof (ln_ge_1_minus_inv Hx) as Hln.
    assert (Hinv : / x <= 1000).
    { replace 1000 with (/ (1 / 1000)) by field.
      apply Rinv_le_contravar; lra. }
    lra.
  - pose proof (ln_le_minus_1 Hx). lra.
Qed.

Lemma exp_small (u : R) : Rabs u <= 1 / 2 -> 1 + u <= exp u <= 1 + u + 2 * Rabs u.
Proof.
  intro Hu. split; [apply exp_ineq1_le | ].
  assert (Hneg : 1 - u <= exp (- u)).
  { pose proof (exp_ineq1_le (- u)). lra. }
  pose proof (@Rabs_le_inv _ _ Hu) as Hbound.
  assert (Hpos : 0 < 1 - u) by lra.
  assert (Hinv : exp u <= / (1 - u)).
  { rewrite <- (Ropp_involutive u) at 1. rewrite exp_Ropp.
    apply Rinv_le_contravar; assumption. }
  assert (Hfrac : / (1 - u) <= 1 + u + 2 * Rabs u).
  { apply Rmult_le_reg_r with (1 - u); [exact Hpos | ].
    rewrite Rinv_l by lra.
    destruct (Rle_dec 0 u) as [Hge | Hlt].
    - rewrite (Rabs_pos_eq u Hge). nra.
    - rewrite (Rabs_left u) by lra. nra. }
  lra.
Qed.

(** A power with an exponent within [delta] of one third is within a
    few millionths of the cube root. *)
Lemma Rpower_near_third (x y lo hi : R) :
  1 / 1000 <= x <= 3 -> Rabs (y - 1 / 3) <= delta ->
  0 < lo -> lo * lo * lo <= x <= hi * hi * hi -> hi <= 2 ->
  lo - 7 / 1000000 <= Rpower x y <= hi + 7 / 1000000.
Proof.
  intros Hx Hy Hlo Hcube Hhi.
  pose proof (cbrt_bounds Hlo Hcube) as Hc.
  pose proof (ln_bounded Hx) as Hln.
  set (u := (y - 1 / 3) * ln x).
  assert (Hu : Rabs u <= 1 / 1000000).
  { unfold u. rewrite Rabs_mult.
    apply Rle_trans with (delta * 1000).
    - apply Rmult_le_compat; try apply Rabs_pos; [exact Hy | ].
      apply Rabs_le. lra.
    - unfold delta. lra. }
  assert (Hsplit : Rpower x y = cbrt x * exp u).
  { unfold Rpower, cbrt, u, Rpower. rewrite <- exp_plus. f_equal. lra. }
  assert (Hexp : 1 + u <= exp u <= 1 + u + 2 * Rabs u) by (apply exp_small; lra).
  pose proof (@Rabs_le_inv _ _ Hu) as Hu'.
  rewrite Hsplit.
  assert (Hcpos : 0 < cbrt x) by apply cbrt_pos.
  assert (Hlow : cbrt x * (1 - 1 / 1000000) <= cbrt x * exp u)
    by (apply Rmult_le_compat_l; lra).
  assert (Hupp : cbrt x * exp u <= cbrt x * (1 + 3 / 1000000))
    by (apply Rmult_le_compat_l; lra).
  set (c := cbrt x) in *. set (v := c * exp u) in *. clearbody v c.
  lra.
Qed.

(** *** One operation of an accurate machine *)

Section Machine.

Variable M : Machine.
Hypothesis acc : accurate M.

Lemma rnd_bounds (x lo hi : R) :
  lo <= x <= hi -> -100 <= lo -> hi <= 100 ->
  lo - slack <= rnd M x <= hi + slack.
Proof.
  intros Hx Hlo Hhi. pose proof (rnd_close acc x) as Hclose.
  assert (Hmax : Rmax 1 (Rabs x) <= 100).
  { apply Rmax_lub; [lra | apply Rabs_le; lra]. }
  assert (Hd : delta * Rmax 1 (Rabs x) <= slack).
  { unfold delta, slack in *. lra. }
  pose proof (@Rabs_le_inv _ _ Hclose). lra.
Qed.

Lemma rnd_IZR (z : Z) : (Z.abs z <= 2 ^ 53)%Z -> rnd M (IZR z) = IZR z.
Proof. apply (rnd_int acc). Qed.

Lemma rnd_large (x : R) : 1 <= x -> x / 2 <= rnd M x.
Proof.
  intro Hx. pose proof (rnd_close acc x) as Hclose.
  rewrite (Rabs_pos_eq x) in Hclose by lra.
  rewrite (Rmax_right 1 x) in Hclose by lra.
  pose proof (@Rabs_le_inv _ _ Hclose). unfold delta in *. lra.
Qed.

Lemma div_rounded (x y lo hi : R) :
  y <> 0 -> lo <= x / y <= hi -> -100 <= lo -> hi <= 100 ->
  exists r, div M x y = Ok r /\ lo - slack <= r <= hi + slack.
Proof.
  intros Hy Hq Hlo Hhi. unfold div.
  destruct (Req_dec_T y 0); [contradiction | ].
  eexists. split; [reflexivity | ]. apply rnd_bounds; assumption.
Qed.

Lemma third_rounded :
  exists third,
    div M (rnd M 1) (rnd M 3) = Ok third /\ Rabs (third - 1 / 3) <= delta.
Proof.
  rewrite (rnd_IZR 1), (rnd_IZR 3) by (cbn; lia).
  unfold div. destruct (Req_dec_T 3 0); [lra | ].
  eexists. split; [reflexivity | ].
  pose proof (rnd_close acc (1 / 3)) as Hclose.
  rewrite (Rabs_pos_eq (1 / 3)) in Hclose by lra.
  rewrite (Rmax_left 1 (1 / 3)) in Hclose by lra. lra.
Qed.

Lemma pow_third (x third lo hi : R) :
  Rabs (third - 1 / 3) <= delta ->
  1 / 1000 <= x <= 3 ->
  0 < lo -> lo * lo * lo <= x <= hi * hi * hi -> hi <= 2 ->
  exists r, pow M x third = Ok r /\ lo - stage <= r <= hi + stage.
Proof.
  intros Hthird Hx Hlo Hcube Hhi.
  pose proof (@Rabs_le_inv _ _ Hthird) as Ht. unfold delta in Ht.
  unfold pow.
  destruct (Req_dec_T third 0); [lra | ].
  destruct (Req_dec_T x 0); [lra | ].
  destruct (Rlt_dec x 0); [lra | ].
  destruct (Req_dec_T x 1) as [Hone | Hne].
  - exists 1. split; [reflexivity | ].
    pose proof (cbrt_bounds Hlo Hcube) as Hc. rewrite Hone, cbrt_1 in Hc.
    unfold stage. lra.
  - eexists. split; [reflexivity | ].
    pose proof (@Rpower_near_third x third lo hi Hx Hthird Hlo Hcube Hhi) as Hp.
    assert (Hpow : Rabs (libm_pow M x third - Rpower x third) <= delta)
      by (apply (pow_close acc); lra).
    pose proof (@Rabs_le_inv _ _ Hpow) as Hpow'.
    unfold delta, stage in *. lra.
Qed.

Lemma msqrt_rounded (x lo hi : R) :
  0 <= lo -> lo * lo <= x <= hi * hi -> 0 <= hi <= 100 ->
  exists r, msqrt M x = Ok r /\ lo - slack <= r <= hi + slack.
Proof.
  intros Hlo Hx Hhi. unfold msqrt.
  assert (0 <= lo * lo) by (apply Rmult_le_pos; assumption).
  destruct (Rlt_dec x 0); [lra | ].
  eexists. split; [reflexivity | ].
  apply rnd_bounds; try lra.
  apply sqrt_bounds; try lra.
Qed.

(** *** The ISCO radius of an accurate machine *)

Section IscoRounded.

Variables a al ah tl th pl ph ql qh z1l z1h z2l z2h sl sh : R.

Hypothesis a_bounds : al <= a <= ah.
Hypothesis a_range : 1 / 10 <= al /\ ah <= 9981 / 10000.
Hypothesis t_low : 0 <= tl /\ (tl + stage) * (tl + stage) * (tl + stage)
                              <= 1 - ah * ah - stage.
Hypothesis t_high : 1 - al * al + stage
                    <= (th - stage) * (th - stage) * (th - stage) /\ th <= 2.
Hypothesis p_low : stage <= pl /\ (pl + stage) * (pl + stage) * (pl + stage)
                              <= 1 + al - stage.
Hypothesis p_high : 1 + ah + stage
                    <= (ph - stage) * (ph - stage) * (ph - stage) /\ ph <= 2.
Hypothesis q_low : 0 <= ql /\ (ql + stage) * (ql + stage) * (ql + stage)
                              <= 1 - ah - stage.
Hypothesis q_high : 1 - al + stage
                    <= (qh - stage) * (qh - stage) * (qh - stage) /\ qh <= 2.
Hypothesis z1_low : 0 <= z1l /\ z1l + stage <= 1 + tl * (pl + ql).
Hypothesis z1_high : 1 + th * (ph + qh) + stage <= z1h /\ z1h <= 3 - stage.
Hypothesis z2_low : 0 <= z2l /\ (z2l + stage) * (z2l + stage)
                               <= 3 * (al * al) + z1l * z1l - stage.
Hypothesis z2_high : 3 * (ah * ah) + z1h * z1h + stage
                     <= (z2h - stage) * (z2h - stage) /\ stage <= z2h <= 10.
Hypothesis s_low : 0 <= sl /\ (sl + stage) * (sl + stage)
                              <= (3 - z1h) * (3 + z1l + 2 * z2l) - stage.
Hypothesis s_high : (3 - z1l) * (3 + z1h + 2 * z2h) + stage
                    <= (sh - stage) * (sh - stage) /\ stage <= sh <= 10.

Lemma isco_rounded_enclosure (s : R) :
  isco_clamp (H := arith M) s = a ->
  exists v,
    isco_radius (H := arith M) s = Ok v
    /\ 3 + z2l - sh - stage <= v <= 3 + z2h - sl + stage.
Proof.
  intro Hclamp. unfold isco_radius. rewrite Hclamp.
  cbn [f_div f_pow f_sub f_add f_mul of_int m_sqrt f_le f_ge arith].
  destruct third_rounded as (third & -> & Hthird). rewrite bind_Ok.
  rewrite (rnd_IZR 0), (rnd_IZR 1), (rnd_IZR 2), (rnd_IZR 3) by (cbn; lia).
  destruct a_range as [Hal Hah]. destruct t_low as [Htl0 Htl].
  destruct t_high as [Hth Hth2]. destruct p_low as [Hpl0 Hpl].
  destruct p_high as [Hph Hph2]. destruct q_low as [Hql0 Hql].
  destruct q_high as [Hqh Hqh2]. destruct z1_low as [Hz1l0 Hz1l].
  destruct z1_high as [Hz1h Hz1h3]. destruct z2_low as [Hz2l0 Hz2l].
  destruct z2_high as [Hz2h Hz2h10]. destruct s_low as [Hsl0 Hsl].
  destruct s_high as [Hsh Hsh10].
  assert (Hstage : stage = 1 / 100000) by reflexivity.
  assert (Hslack : slack = 1 / 100000000) by reflexivity.
  (* the base of the first power *)
  assert (Baa : al * al <= a * a <= ah * ah) by (apply mult_bounds; lra).
  assert (Hahsq : ah * ah <= 9981 / 10000 * (9981 / 10000))
    by (apply Rmult_le_compat; lra).
  assert (Halsq : 0 <= al * al) by (apply Rmult_le_pos; lra).
  assert (Braa : al * al - slack <= rnd M (a * a) <= ah * ah + slack)
    by (apply rnd_bounds; lra).
  assert (Bbase : 1 - ah * ah - 2 * slack <= rnd M (1 - rnd M (a * a))
                  <= 1 - al * al + 2 * slack).
  { assert (1 - ah * ah - slack - slack <= rnd M (1 - rnd M (a * a))
            <= 1 - al * al + slack + slack) by (apply rnd_bounds; lra).
    lra. }
  destruct (@pow_third (rnd M (1 - rnd M (a * a))) third
              (tl + stage) (th - stage) Hthird)
    as (t & -> & Bt); try lra.
  rewrite bind_Ok.
  (* the two other powers *)
  assert (Bp0 : 1 + al - slack <= rnd M (1 + a) <= 1 + ah + slack)
    by (apply rnd_bounds; lra).
  destruct (@pow_third (rnd M (1 + a)) third (pl + stage) (ph - stage) Hthird)
    as (p & -> & Bp); try lra.
  rewrite bind_Ok.
  assert (Bq0 : 1 - ah - slack <= rnd M (1 - a) <= 1 - al + slack)
    by (apply rnd_bounds; lra).
  destruct (@pow_third (rnd M (1 - a)) third (ql + stage) (qh - stage) Hthird)
    as (q & -> & Bq); try lra.
  rewrite bind_Ok.
  (* z1 *)
  assert (Bpq : pl + ql - slack <= rnd M (p + q) <= ph + qh + slack)
    by (apply rnd_bounds; lra).
  assert (Bprod : tl * (pl + ql - slack) <= t * rnd M (p + q)
                  <= th * (ph + qh + slack))
    by (apply mult_bounds; lra).
  assert (Htlth : tl <= th) by lra.
  assert (Hlo1 : 0 <= tl * (pl + ql - slack)) by (apply Rmult_le_pos; lra).
  assert (Hhi1 : th * (ph + qh + slack) <= 2 * 5)
    by (apply Rmult_le_compat; lra).
  assert (Brprod : tl * (pl + ql - slack) - slack <= rnd M (t * rnd M (p + q))
                   <= th * (ph + qh + slack) + slack)
    by (apply rnd_bounds; lra).
  assert (Bz1 : z1l <= rnd M (1 + rnd M (t * rnd M (p + q))) <= z1h).
  { assert (Hin : 1 + (tl * (pl + ql - slack) - slack) - slack
            <= rnd M (1 + rnd M (t * rnd M (p + q)))
            <= 1 + (th * (ph + qh + slack) + slack) + slack)
      by (apply rnd_bounds; lra).
    clear - Hin Hz1l Hz1h Htlth Hth2 Htl0. unfold slack, stage in *. lra. }
  set (z1' := rnd M (1 + rnd M (t * rnd M (p + q)))) in *.
  clearbody z1'.
  (* z2 *)
  assert (B3a : 3 * al - slack <= rnd M (3 * a) <= 3 * ah + slack)
    by (apply rnd_bounds; lra).
  assert (B3aa : (3 * al - slack) * al <= rnd M (3 * a) * a
                 <= (3 * ah + slack) * ah)
    by (apply mult_bounds; lra).
  assert (Hlo2 : 0 <= (3 * al - slack) * al) by (apply Rmult_le_pos; lra).
  assert (Hhi2 : (3 * ah + slack) * ah <= 4 * 1)
    by (apply Rmult_le_compat; lra).
  assert (Br3aa : (3 * al - slack) * al - slack <= rnd M (rnd M (3 * a) * a)
                  <= (3 * ah + slack) * ah + slack)
    by (apply rnd_bounds; lra).
  assert (Bz1sq : z1l * z1l <= z1' * z1' <= z1h * z1h)
    by (apply mult_bounds; lra).
  assert (Hlo3 : 0 <= z1l * z1l) by (apply Rmult_le_pos; lra).
  assert (Hhi3 : z1h * z1h <= 3 * 3) by (apply Rmult_le_compat; lra).
  assert (Brz1sq : z1l * z1l - slack <= rnd M (z1' * z1') <= z1h * z1h + slack)
    by (apply rnd_bounds; lra).
  assert (Barg : 3 * (al * al) + z1l * z1l - stage
                 <= rnd M (rnd M (rnd M (3 * a) * a) + rnd M (z1' * z1'))
                 <= 3 * (ah * ah) + z1h * z1h + stage).
  { assert (Hin : (3 * al - slack) * al - slack + (z1l * z1l - slack) - slack
            <= rnd M (rnd M (rnd M (3 * a) * a) + rnd M (z1' * z1'))
            <= (3 * ah + slack) * ah + slack + (z1h * z1h + slack) + slack)
      by (apply rnd_bounds; lra).
    clear - Hin Hal Hah a_bounds. unfold slack, stage in *. lra. }
  destruct (@msqrt_rounded
              (rnd M (rnd M (rnd M (3 * a) * a) + rnd M (z1' * z1')))
              (z2l + stage) (z2h - stage))
    as (z2' & -> & Bz2); try lra.
  rewrite bind_Ok.
  (* the outer square root *)
  assert (BA : 3 - z1h - slack <= rnd M (3 - z1') <= 3 - z1l + slack)
    by (apply rnd_bounds; lra).
  assert (B3z : 3 + z1l - slack <= rnd M (3 + z1') <= 3 + z1h + slack)
    by (apply rnd_bounds; lra).
  assert (B2z : 2 * z2l - slack <= rnd M (2 * z2') <= 2 * z2h + slack)
    by (apply rnd_bounds; lra).
  assert (BB : 3 + z1l + 2 * z2l - 3 * slack
               <= rnd M (rnd M (3 + z1') + rnd M (2 * z2'))
               <= 3 + z1h + 2 * z2h + 3 * slack).
  { assert (3 + z1l - slack + (2 * z2l - slack) - slack
            <= rnd M (rnd M (3 + z1') + rnd M (2 * z2'))
            <= 3 + z1h + slack + (2 * z2h + slack) + slack)
      by (apply rnd_bounds; lra).
    lra. }
  assert (BAB : (3 - z1h - slack) * (3 + z1l + 2 * z2l - 3 * slack)
                <= rnd M (3 - z1') * rnd M (rnd M (3 + z1') + rnd M (2 * z2'))
                <= (3 - z1l + slack) * (3 + z1h + 2 * z2h + 3 * slack))
    by (apply mult_bounds; lra).
  assert (Hlo4 : 0 <= (3 - z1h - slack) * (3 + z1l + 2 * z2l - 3 * slack))
    by (apply Rmult_le_pos; lra).
  assert (Hhi4 : (3 - z1l + slack) * (3 + z1h + 2 * z2h + 3 * slack)
                 <= 31 / 10 * 27)
    by (apply Rmult_le_compat; lra).
  assert (Brad : (3 - z1h) * (3 + z1l + 2 * z2l) - stage
                 <= rnd M (rnd M (3 - z1')
                           * rnd M (rnd M (3 + z1') + rnd M (2 * z2')))
                 <= (3 - z1l) * (3 + z1h + 2 * z2h) + stage).
  { assert (Hin : (3 - z1h - slack) * (3 + z1l + 2 * z2l - 3 * slack) - slack
            <= rnd M (rnd M (3 - z1')
                      * rnd M (rnd M (3 + z1') + rnd M (2 * z2')))
            <= (3 - z1l + slack) * (3 + z1h + 2 * z2h + 3 * slack) + slack)
      by (apply rnd_bounds; lra).
    clear - Hin Bz1 Bz2 Hz1l0 Hz1h3 Hz2l0 Hz2h10.
    unfold slack, stage in *. lra. }
  destruct (@msqrt_rounded
              (rnd M (rnd M (3 - z1')
                      * rnd M (rnd M (3 + z1') + rnd M (2 * z2'))))
              (sl + stage) (sh - stage))
    as (s' & -> & Bs); try lra.
  rewrite bind_Ok.
  (* the result *)
  assert (Hsign : leb 0 a = true) by (apply leb_true; lra).
  rewrite Hsign, (rnd_IZR 1) by (cbn; lia). rewrite Rmult_1_l.
  eexists. split; [reflexivity | ].
  assert (B3z2 : 3 + z2l - slack <= rnd M (3 + z2') <= 3 + z2h + slack)
    by (apply rnd_bounds; lra).
  assert (Brs : sl - slack <= rnd M s' <= sh + slack)
    by (apply rnd_bounds; lra).
  assert (3 + z2l - slack - (sh + slack) - slack
          <= rnd M (rnd M (3 + z2') - rnd M s')
          <= 3 + z2h + slack - (sl - slack) + slack)
    by (apply rnd_bounds; lra).
  lra.
Qed.

End IscoRounded.

(** At spin 0 every step is exact. *)
Lemma rnd_exact (x : R) (z : Z) :
  x = IZR z -> (Z.abs z <= 2 ^ 53)%Z -> rnd M x = IZR z.
Proof. intros -> Hz. apply rnd_IZR. exact Hz. Qed.

Lemma pow_one (y : R) : y <> 0 -> pow M 1 y = Ok 1.
Proof.
  intro Hy. unfold pow.
  destruct (Req_dec_T y 0); [contradiction | ].
  destruct (Req_dec_T 1 0); [lra | ].
  destruct (Rlt_dec 1 0); [lra | ].
  destruct (Req_dec_T 1 1); [reflexivity | lra].
Qed.

Lemma msqrt_square (x : R) (z : Z) :
  0 <= IZR z -> x = IZR z * IZR z -> (Z.abs z <= 2 ^ 53)%Z ->
  msqrt M x = Ok (IZR z).
Proof.
  intros Hz -> Habs. unfold msqrt.
  assert (0 <= IZR z * IZR z) by (apply Rmult_le_pos; assumption).
  destruct (Rlt_dec (IZR z * IZR z) 0); [lra | ].
  rewrite sqrt_square by exact Hz. rewrite rnd_IZR by exact Habs. reflexivity.
Qed.

Ltac exactly x z :=
  rewrite (@rnd_exact x z) by (first [lra | cbn; lia]).

Lemma isco_rounded_0 (s : R) :
  isco_clamp (H := arith M) s = 0 -> isco_radius (H := arith M) s = Ok 6.
Proof.
  intro Hclamp. unfold isco_radius. rewrite Hclamp.
  cbn [f_div f_pow f_sub f_add f_mul of_int m_sqrt f_le f_ge arith].
  destruct third_rounded as (third & -> & Hthird). rewrite bind_Ok.
  rewrite (rnd_IZR 0), (rnd_IZR 1), (rnd_IZR 2), (rnd_IZR 3) by (cbn; lia).
  assert (Hne : third <> 0).
  { apply Rabs_le_inv in Hthird. unfold delta in Hthird. lra. }
  exactly (0 * 0) 0%Z. exactly (1 - 0) 1%Z. exactly (1 + 0) 1%Z.
  rewrite (pow_one Hne). rewrite !bind_Ok.
  exactly (1 + 1) 2%Z. exactly (1 * 2) 2%Z. exactly (1 + 2) 3%Z.
  exactly (3 * 0) 0%Z. exactly (0 * 0) 0%Z. exactly (3 * 3) 9%Z.
  exactly (0 + 9) 9%Z.
  rewrite (@msqrt_square 9 3) by (first [lra | cbn; lia]). rewrite bind_Ok.
  exactly (3 - 3) 0%Z. exactly (3 + 3) 6%Z. exactly (2 * 3) 6%Z.
  exactly (6 + 6) 12%Z. exactly (0 * 12) 0%Z.
  rewrite (@msqrt_square 0 0) by (first [lra | cbn; lia]). rewrite bind_Ok.
  assert (Hsign : leb 0 0 = true) by (apply leb_true; lra).
  rewrite Hsign, (rnd_IZR 1) by (cbn; lia).
  exactly (1 * 0) 0%Z. exactly (6 - 0) 6%Z. reflexivity.
Qed.

(** *** Literals and clamps *)

Lemma literal_close (x : R) :
  -100 <= x <= 100 -> x - slack <= rnd M x <= x + slack.
Proof. intro Hx. apply rnd_bounds; lra. Qed.

Lemma isco_clamp_keeps (s : R) :
  0 <= s <= rnd M (998 / 1000) -> isco_clamp (H := arith M) s = s.
Proof.
  intros [H0 Hc]. unfold isco_clamp, py_max, py_min, f_gt.
  cbn [f_lt f_neg of_decimal arith]. norm_lits. unfold ltb.
  repeat destruct (Rlt_dec _ _); try reflexivity; lra.
Qed.

Lemma photon_clamp_keeps (s : R) :
  rnd M (1 / 1000000) <= s <= rnd M (999 / 1000) ->
  photon_clamp (H := arith M) s = s.
Proof.
  intros [H0 Hc]. unfold photon_clamp, py_max, py_min, f_gt.
  cbn [f_lt f_abs of_decimal arith]. norm_lits.
  pose proof (@literal_close (1 / 1000000) ltac:(lra)) as Hlit.
  unfold slack in Hlit.
  rewrite (Rabs_pos_eq s) by lra. unfold ltb.
  repeat destruct (Rlt_dec _ _); try reflexivity; lra.
Qed.

Lemma photon_clamp_rounded_0 :
  photon_clamp (H := arith M) 0 = rnd M (1 / 1000000).
Proof.
  unfold photon_clamp, py_max, py_min, f_gt.
  cbn [f_lt f_abs of_decimal arith]. norm_lits.
  pose proof (@literal_close (1 / 1000000) ltac:(lra)) as Hlo.
  pose proof (@literal_close (999 / 1000) ltac:(lra)) as Hhi.
  unfold slack in *. rewrite Rabs_R0. unfold ltb.
  repeat destruct (Rlt_dec _ _); try reflexivity; lra.
Qed.

(** *** The photon-ring radius of an accurate machine *)

Lemma sin_abs_le (u : R) : Rabs (sin u) <= Rabs u.
Proof.
  assert (Hpos : forall v, 0 < v -> - v <= sin v <= v).
  { intros v Hv. split; [ | left; apply sin_lt_x; exact Hv].
    destruct (Rle_dec v 1) as [Hle | Hgt].
    - pose proof PI2_1. pose proof (sin_ge_0 v). lra.
    - pose proof (SIN_bound v). lra. }
  destruct (Rtotal_order u 0) as [Hneg | [-> | Hgt]].
  - assert (Hv : 0 < - u) by lra. apply Hpos in Hv. rewrite sin_neg in Hv.
    rewrite (Rabs_left u) by exact Hneg. apply Rabs_le. lra.
  - rewrite sin_0, Rabs_R0. lra.
  - pose proof (Hpos u Hgt). rewrite (Rabs_pos_eq u) by lra.
    apply Rabs_le. lra.
Qed.

Lemma cos_lipschitz (x y : R) : Rabs (cos x - cos y) <= Rabs (x - y).
Proof.
  rewrite form2, !Rabs_mult.
  pose proof (sin_abs_le ((x - y) / 2)) as Hs.
  assert (Hb : Rabs (sin ((x + y) / 2)) <= 1)
    by (apply Rabs_le; apply SIN_bound).
  assert (Hhalf : Rabs ((x - y) / 2) = Rabs (x - y) / 2).
  { unfold Rdiv. rewrite Rabs_mult. rewrite (Rabs_pos_eq (/ 2)) by lra.
    reflexivity. }
  rewrite Hhalf in Hs.
  replace (Rabs (-2)) with 2 by (rewrite Rabs_left; lra).
  pose proof (Rabs_pos (sin ((x - y) / 2))) as Hp1.
  pose proof (Rabs_pos (sin ((x + y) / 2))) as Hp2.
  pose proof (Rabs_pos (x - y)) as Hp3.
  assert (Hprod : Rabs (sin ((x - y) / 2)) * Rabs (sin ((x + y) / 2))
                  <= Rabs (x - y) / 2 * 1)
    by (apply Rmult_le_compat; lra).
  lra.
Qed.

Lemma photon_rounded_enclosure (s a al ah lo hi : R) :
  photon_clamp (H := arith M) s = a ->
  al <= a <= ah -> 0 <= al -> ah <= 1 ->
  1 / 2 <= lo -> 1 / 2 <= hi <= 1 ->
  4 * (lo * lo * lo) - 3 * lo <= - ah ->
  - al <= 4 * (hi * hi * hi) - 3 * hi ->
  exists v,
    photon_radius (H := arith M) s = Ok v
    /\ 4 * (lo * lo) - stage <= v <= 4 * (hi * hi) + stage.
Proof.
  intros Hclamp Ha Hal Hah Hlo Hhi Hcl Hch.
  unfold photon_radius. rewrite Hclamp.
  cbn [f_div f_neg f_mul f_add of_int of_decimal m_acos m_cos arith].
  norm_lits.
  exactly (20 / 10) 2%Z. exactly (30 / 10) 3%Z.
  rewrite (rnd_IZR 1), (rnd_IZR 2) by (cbn; lia).
  unfold div. destruct (Req_dec_T 3 0); [lra | ]. rewrite bind_Ok.
  unfold macos.
  destruct (Rle_dec (-1) (- a)); [ | lra].
  destruct (Rle_dec (- a) 1); [ | lra].
  rewrite !bind_Ok. eexists. split; [reflexivity | ].
  assert (Hrange : -1 <= - a <= 0) by lra.
  assert (Henc : 4 * (lo * lo) <= photon_value a <= 4 * (hi * hi))
    by (apply photon_enclosure; lra).
  unfold photon_value in Henc.
  set (A := acos (- a)) in *.
  pose proof (acos_bound (- a)) as HA. fold A in HA. pose proof PI_4 as Hpi.
  pose proof (rnd_close acc (2 / 3)) as Hk.
  rewrite (Rabs_pos_eq (2 / 3)), (Rmax_left 1 (2 / 3)) in Hk by lra.
  apply Rabs_le_inv in Hk.
  assert (Ht : Rabs (libm_acos M (- a) - A) <= delta)
    by (apply (acos_close acc); lra).
  apply Rabs_le_inv in Ht.
  set (k := rnd M (2 / 3)) in *. set (t := libm_acos M (- a)) in *.
  assert (Hd : delta = 1 / 10000000000) by reflexivity.
  assert (Hsl : slack = 1 / 100000000) by reflexivity.
  assert (Hst : stage = 1 / 100000) by reflexivity.
  (* the product k * t is close to 2/3 of the angle *)
  assert (Hkt : 2 / 3 * A - 6 * delta <= k * t <= 2 / 3 * A + 6 * delta).
  { assert (Hx : Rabs ((k - 2 / 3) * t) <= delta * 5).
    { rewrite Rabs_mult. apply Rmult_le_compat; try apply Rabs_pos.
      - apply Rabs_le. lra.
      - apply Rabs_le. lra. }
    apply Rabs_le_inv in Hx.
    replace (k * t) with ((k - 2 / 3) * t + 2 / 3 * t) by ring. lra. }
  assert (Hr : 2 / 3 * A - 6 * delta - slack <= rnd M (k * t)
               <= 2 / 3 * A + 6 * delta + slack)
    by (apply rnd_bounds; lra).
  pose proof (cos_lipschitz (rnd M (k * t)) (2 / 3 * A)) as Hlip.
  assert (Hdist : Rabs (rnd M (k * t) - 2 / 3 * A) <= 2 * slack)
    by (apply Rabs_le; lra).
  assert (Hcos : Rabs (cos (rnd M (k * t)) - cos (2 / 3 * A)) <= 2 * slack)
    by lra.
  apply Rabs_le_inv in Hcos.
  pose proof (cos_close acc (rnd M (k * t))) as Hc. apply Rabs_le_inv in Hc.
  set (c := libm_cos M (rnd M (k * t))) in *.
  set (c0 := cos (2 / 3 * A)) in *. set (c1 := cos (rnd M (k * t))) in *.
  assert (Hlolo : 1 / 2 * (1 / 2) <= lo * lo)
    by (apply Rmult_le_compat; lra).
  assert (Hhihi : hi * hi <= 1 * 1) by (apply Rmult_le_compat; lra).
  assert (B1 : 2 * (lo * lo) - 3 * slack - slack <= rnd M (1 + c)
               <= 2 * (hi * hi) + 3 * slack + slack)
    by (apply rnd_bounds; lra).
  assert (B2 : 2 * (2 * (lo * lo) - 3 * slack - slack) - slack
               <= rnd M (2 * rnd M (1 + c))
               <= 2 * (2 * (hi * hi) + 3 * slack + slack) + slack)
    by (apply rnd_bounds; lra).
  lra.
Qed.

(** *** The relative error of an accurate machine *)

Lemma quotient_le (d e b : R) : 0 < e -> d <= b * e -> d / e <= b.
Proof.
  intros He Hd. apply Rmult_le_reg_r with e; [exact He | ].
  unfold Rdiv. rewrite Rmult_assoc, Rinv_l, Rmult_1_r by lra. exact Hd.
Qed.

Lemma check_row_rounded (fn : R -> result R) (label : string)
    (s e v lo hi : R) :
  fn s = Ok v -> lo <= v <= hi -> 1 <= e <= 10 ->
  e - 7 / 1000 * e <= lo -> hi <= e + 7 / 1000 * e ->
  row_passes M fn label (s, rnd M e).
Proof.
  intros Hv Bv He Hlo Hhi. unfold row_passes, small, check_row. cbn [fst snd].
  exists v. rewrite Hv, bind_Ok.
  cbn [f_div f_abs f_sub arith].
  pose proof (@literal_close e ltac:(lra)) as Be.
  assert (Hsl : slack = 1 / 100000000) by reflexivity.
  unfold div. destruct (Req_dec_T (rnd M e) 0); [lra | ].
  rewrite bind_Ok. eexists.
  split; [reflexivity | split; [ | split; [reflexivity | ]]];
    set (e' := rnd M e) in *; assert (He' : 0 < e') by lra.
  - assert (Habs : Rabs (v - e') <= 75 / 10000 * e') by (apply Rabs_le; lra).
    pose proof (@quotient_le _ _ _ He' Habs). lra.
  - assert (Bd : - (7 / 1000 * e) - slack - slack <= rnd M (v - e')
                 <= 7 / 1000 * e + slack + slack)
      by (apply rnd_bounds; lra).
    assert (Habs : Rabs (rnd M (v - e')) <= 75 / 10000 * e')
      by (apply Rabs_le; lra).
    pose proof (Rabs_pos (rnd M (v - e'))) as Hpos.
    set (d := Rabs (rnd M (v - e'))) in *.
    pose proof (@quotient_le _ _ _ He' Habs) as Hq.
    assert (Hq0 : 0 <= d / e').
    { unfold Rdiv. apply Rmult_le_pos; [exact Hpos | ].
      left. apply Rinv_0_lt_compat. exact He'. }
    assert (0 - slack <= rnd M (d / e') <= 75 / 10000 + slack)
      by (apply rnd_bounds; lra).
    lra.
Qed.

(** *** The rows of the two tables *)

Ltac certificate := unfold stage, slack in *; lra.

Ltac premises H :=
  repeat (lapply H; [clear H; intro H | certificate]).

Lemma spin_0 : rnd M (0 / 10) = 0.
Proof. exactly (0 / 10) 0%Z. reflexivity. Qed.

Lemma isco_row_0 :
  row_passes M (isco_radius (H := arith M)) "isco" (rnd M (0 / 10), rnd M (60 / 10)).
Proof.
  rewrite spin_0.
  pose proof (@literal_close (998 / 1000) ltac:(lra)) as Hc.
  unfold slack in Hc.
  assert (Hclamp : isco_clamp (H := arith M) 0 = 0)
    by (apply isco_clamp_keeps; lra).
  apply check_row_rounded with 6 6 6;
    [apply isco_rounded_0; exact Hclamp | lra ..].
Qed.

Lemma isco_row_05 :
  row_passes M (isco_radius (H := arith M)) "isco"
    (rnd M (5 / 10), rnd M (4233 / 1000)).
Proof.
  pose proof (@literal_close (5 / 10) ltac:(lra)) as Hs.
  pose proof (@literal_close (998 / 1000) ltac:(lra)) as Hc.
  assert (Hclamp : isco_clamp (H := arith M) (rnd M (5 / 10)) = rnd M (5 / 10))
    by (apply isco_clamp_keeps; certificate).
  assert (Henc := @isco_rounded_enclosure (rnd M (5 / 10))
    (499999 / 1000000) (500001 / 1000000) (908545 / 1000000)
    (908575 / 1000000) (1144701 / 1000000) (1144728 / 1000000)
    (793684 / 1000000) (793717 / 1000000) (2761099 / 1000000)
    (2761233 / 1000000) (2893716 / 1000000) (2893870 / 1000000)
    (1660531 / 1000000) (1661056 / 1000000)).
  premises Henc.
  destruct (Henc _ Hclamp) as (v & Hv & Bv).
  apply (@check_row_rounded _ _ _ _ _ _ _ Hv Bv); certificate.
Qed.

Lemma isco_row_09 :
  row_passes M (isco_radius (H := arith M)) "isco"
    (rnd M (9 / 10), rnd M (2320 / 1000)).
Proof.
  pose proof (@literal_close (9 / 10) ltac:(lra)) as Hs.
  pose proof (@literal_close (998 / 1000) ltac:(lra)) as Hc.
  assert (Hclamp : isco_clamp (H := arith M) (rnd M (9 / 10)) = rnd M (9 / 10))
    by (apply isco_clamp_keeps; certificate).
  assert (Henc := @isco_rounded_enclosure (rnd M (9 / 10))
    (899999 / 1000000) (900001 / 1000000) (574867 / 1000000)
    (574912 / 1000000) (1238549 / 1000000) (1238575 / 1000000)
    (464131 / 1000000) (464186 / 1000000) (1978804 / 1000000)
    (1978948 / 1000000) (2519047 / 1000000) (2519187 / 1000000)
    (3198077 / 1000000) (3198394 / 1000000)).
  premises Henc.
  destruct (Henc _ Hclamp) as (v & Hv & Bv).
  apply (@check_row_rounded _ _ _ _ _ _ _ Hv Bv); certificate.
Qed.

Lemma isco_row_0998 :
  row_passes M (isco_radius (H := arith M)) "isco"
    (rnd M (998 / 1000), rnd M (1237 / 1000)).
Proof.
  pose proof (@literal_close (998 / 1000) ltac:(lra)) as Hs.
  assert (Hclamp : isco_clamp (H := arith M) (rnd M (998 / 1000))
                   = rnd M (998 / 1000))
    by (apply isco_clamp_keeps; certificate).
  assert (Henc := @isco_rounded_enclosure (rnd M (998 / 1000))
    (997999 / 1000000) (998001 / 1000000) (158518 / 1000000)
    (158856 / 1000000) (1259488 / 1000000) (1259514 / 1000000)
    (125750 / 1000000) (126233 / 1000000) (1219575 / 1000000)
    (1220145 / 1000000) (2115494 / 1000000) (2115851 / 1000000)
    (3878232 / 1000000) (3879171 / 1000000)).
  premises Henc.
  destruct (Henc _ Hclamp) as (v & Hv & Bv).
  apply (@check_row_rounded _ _ _ _ _ _ _ Hv Bv); certificate.
Qed.

Lemma photon_row_0 :
  row_passes M (photon_radius (H := arith M)) "photon"
    (rnd M (0 / 10), rnd M (30 / 10)).
Proof.
  rewrite spin_0.
  pose proof (@literal_close (1 / 1000000) ltac:(lra)) as Hs.
  assert (Henc := @photon_rounded_enclosure 0 (rnd M (1 / 1000000))
    (9 / 10000000) (11 / 10000000) (866025 / 1000000) (866026 / 1000000)
    photon_clamp_rounded_0).
  premises Henc.
  destruct Henc as (v & Hv & Bv).
  apply (@check_row_rounded _ _ _ _ _ _ _ Hv Bv); certificate.
Qed.

Lemma photon_row_05 :
  row_passes M (photon_radius (H := arith M)) "photon"
    (rnd M (5 / 10), rnd M (23472963553 / 10000000000)).
Proof.
  pose proof (@literal_close (5 / 10) ltac:(lra)) as Hs.
  pose proof (@literal_close (1 / 1000000) ltac:(lra)) as Hlo.
  pose proof (@literal_close (999 / 1000) ltac:(lra)) as Hhi.
  assert (Hclamp : photon_clamp (H := arith M) (rnd M (5 / 10))
                   = rnd M (5 / 10))
    by (apply photon_clamp_keeps; certificate).
  assert (Henc := @photon_rounded_enclosure _ (rnd M (5 / 10))
    (4999999 / 10000000) (5000001 / 10000000)
    (766044 / 1000000) (766045 / 1000000) Hclamp).
  premises Henc.
  destruct Henc as (v & Hv & Bv).
  apply (@check_row_rounded _ _ _ _ _ _ _ Hv Bv); certificate.
Qed.

Lemma photon_row_09 :
  row_passes M (photon_radius (H := arith M)) "photon"
    (rnd M (9 / 10), rnd M (15578546274 / 10000000000)).
Proof.
  pose proof (@literal_close (9 / 10) ltac:(lra)) as Hs.
  pose proof (@literal_close (1 / 1000000) ltac:(lra)) as Hlo.
  pose proof (@literal_close (999 / 1000) ltac:(lra)) as Hhi.
  assert (Hclamp : photon_clamp (H := arith M) (rnd M (9 / 10))
                   = rnd M (9 / 10))
    by (apply photon_clamp_keeps; certificate).
  assert (Henc := @photon_rounded_enclosure _ (rnd M (9 / 10))
    (8999999 / 10000000) (9000001 / 10000000)
    (624070 / 1000000) (624071 / 1000000) Hclamp).
  premises Henc.
  destruct Henc as (v & Hv & Bv).
  apply (@check_row_rounded _ _ _ _ _ _ _ Hv Bv); certificate.
Qed.

Lemma photon_row_0998 :
  row_passes M (photon_radius (H := arith M)) "photon"
    (rnd M (998 / 1000), rnd M (10739092577 / 10000000000)).
Proof.
  pose proof (@literal_close (998 / 1000) ltac:(lra)) as Hs.
  pose proof (@literal_close (1 / 1000000) ltac:(lra)) as Hlo.
  pose proof (@literal_close (999 / 1000) ltac:(lra)) as Hhi.
  assert (Hclamp : photon_clamp (H := arith M) (rnd M (998 / 1000))
                   = rnd M (998 / 1000))
    by (apply photon_clamp_keeps; certificate).
  assert (Henc := @photon_rounded_enclosure _ (rnd M (998 / 1000))
    (9979999 / 10000000) (9980001 / 10000000)
    (518147 / 1000000) (518149 / 1000000) Hclamp).
  premises Henc.
  destruct Henc as (v & Hv & Bv).
  apply (@check_row_rounded _ _ _ _ _ _ _ Hv Bv); certificate.
Qed.

Lemma isco_rows :
  Forall (row_passes M (isco_radius (H := arith M)) "isco")
         (REFERENCE_ISCO (H := arith M)).
Proof.
  unfold REFERENCE_ISCO. cbn [of_decimal arith]. norm_lits.
  repeat apply Forall_cons; try apply Forall_nil.
  - apply isco_row_0.
  - apply isco_row_05.
  - apply isco_row_09.
  - apply isco_row_0998.
Qed.

Lemma photon_rows :
  Forall (row_passes M (photon_radius (H := arith M)) "photon")
         (REFERENCE_PHOTON (H := arith M)).
Proof.
  unfold REFERENCE_PHOTON. cbn [of_decimal arith]. norm_lits.
  repeat apply Forall_cons; try apply Forall_nil.
  - apply photon_row_0.
  - apply photon_row_05.
  - apply photon_row_09.
  - apply photon_row_0998.
Qed.

Lemma row_within_tolerance (fn : R -> result R) (label : string)
    (row : R * R) :
  row_passes M fn label row -> within_tolerance fn row.
Proof.
  intros (v & r & Hv & Htol & _). exists v. split; assumption.
Qed.

(** *** The series, the summary and the run *)

Lemma check_series_rounded (fn : R -> result R) (label : string)
    (rows : list (R * R)) :
  Forall (row_passes M fn label) rows ->
  exists es,
    check_series (H := arith M) rows fn label = Ok es
    /\ List.length es = List.length rows
    /\ Forall (fun e : entry => small (snd e)) es.
Proof.
  unfold check_series. induction 1 as [|row rows (v & r & _ & _ & Hrow & Hr) _ IH].
  - exists []. repeat split. constructor.
  - destruct IH as (es & Hes & Hlen & Hall).
    exists ((label, fst row, r) :: es). cbn [mapM].
    rewrite Hrow, bind_Ok, Hes, bind_Ok. repeat split.
    + cbn [List.length]. rewrite Hlen. reflexivity.
    + constructor; [exact Hr | exact Hall].
Qed.

Lemma of_int_nonzero (z : Z) : (1 <= z)%Z -> rnd M (IZR z) <> 0.
Proof.
  intro Hz. assert (H1 : 1 <= IZR z) by (apply IZR_le; exact Hz).
  pose proof (rnd_large H1). lra.
Qed.

Lemma gravitational_radius_rounded (m : R) :
  exists g, gravitational_radius (H := arith M) m = Ok g.
Proof.
  unfold gravitational_radius. cbn [f_div of_int arith]. unfold div.
  destruct (Req_dec_T _ 0) as [Hz | _]; [ | eexists; reflexivity].
  exfalso. revert Hz. apply of_int_nonzero. unfold C. lia.
Qed.

Lemma summarize_rounded (e : entry) (es : list entry) :
  Forall (fun e : entry => small (snd e)) (e :: es) ->
  exists summary,
    summarize (H := arith M) (e :: es) = Ok summary
    /\ small (summary_max_rel_error summary).
Proof.
  intro Hall. unfold summarize, fmean. cbn [map max_list bind].
  cbn [m_fsum f_div of_int arith]. unfold fsum. cbn [bind]. unfold div.
  destruct (Req_dec_T _ 0) as [Hz | _].
  - exfalso. revert Hz. apply of_int_nonzero. cbn [List.length]. lia.
  - eexists. split; [reflexivity | ]. cbn [summary_max_rel_error].
    apply (@fold_max_lt (map (fun e0 : entry => snd e0) es) (snd e)
                        (79 / 10000)).
    inversion Hall as [|? ? He Hes]; subst.
    split; [exact He | ]. rewrite Forall_map. exact Hes.
Qed.

Lemma threshold_rounded : 79 / 10000 < threshold (H := arith M).
Proof.
  unfold threshold. cbn [of_decimal arith]. norm_lits.
  pose proof (@literal_close (8 / 1000) ltac:(lra)). certificate.
Qed.

Lemma run_checks_rounded (m : R) (output : string) :
  exists report,
    run_checks (H := arith M) m output = Ok (report, [WriteText output report])
    /\ List.length (entries report) = 8%nat
    /\ Forall (fun e => relative_error e < threshold (H := arith M))
              (entries report)
    /\ ok report = true.
Proof.
  unfold run_checks.
  destruct (gravitational_radius_rounded m) as (g & ->). rewrite bind_Ok.
  destruct (check_series_rounded isco_rows) as (isco & -> & Hlen & Hisco).
  rewrite bind_Ok.
  destruct (check_series_rounded photon_rows) as (photon & -> & Hlen' & Hphoton).
  rewrite bind_Ok.
  assert (Hall : Forall (fun e : entry => small (snd e)) (isco ++ photon))
    by (apply Forall_app; split; assumption).
  destruct isco as [|e isco]; [discriminate Hlen | ].
  change ((e :: isco) ++ photon)%list with (e :: (isco ++ photon))%list in *.
  destruct (summarize_rounded Hall) as (summary & Hsum & Hmax).
  rewrite Hsum, bind_Ok.
  eexists. split; [reflexivity | ]. cbn [entries ok].
  pose proof threshold_rounded as Hthr. unfold small in *.
  repeat split.
  - rewrite length_map. cbn [List.length] in *. rewrite length_app.
    rewrite Hlen'. injection Hlen as ->. reflexivity.
  - rewrite Forall_map. revert Hall. apply Forall_impl.
    intros row Hrow. rewrite relative_error_to_Entry. lra.
  - cbn [f_lt arith]. apply ltb_true. lra.
Qed.

End Machine.

(** The machine that does not round is accurate. *)
Lemma exact_accurate : accurate exact.
Proof.
  assert (Hzero : forall x, Rabs (x - x) <= delta).
  { intro x. replace (x - x) with 0 by ring. rewrite Rabs_R0.
    unfold delta. lra. }
  constructor; cbn [rnd libm_pow libm_cos libm_acos exact]; intros.
  - replace (x - x) with 0 by ring. rewrite Rabs_R0.
    apply Rmult_le_pos; [unfold delta; lra | ].
    apply Rle_trans with 1; [lra | apply Rmax_l].
  - reflexivity.
  - apply Hzero.
  - apply Hzero.
  - apply Hzero.
Qed.

(** The machine that rounds to the grid is accurate. *)
Lemma to_grid_close (x : R) : Rabs (to_grid x - x) <= delta.
Proof.
  unfold to_grid.
  destruct (base_Int_part (x * 1000000000000 + 1 / 2)) as [Hle Hgt].
  set (i := IZR (Int_part (x * 1000000000000 + 1 / 2))) in *.
  unfold delta. apply Rabs_le. lra.
Qed.

Lemma to_grid_IZR (z : Z) : to_grid (IZR z) = IZR z.
Proof.
  unfold to_grid.
  assert (Hint : Int_part (IZR z * 1000000000000 + 1 / 2)
                 = (z * 1000000000000)%Z).
  { symmetry. apply Int_part_spec. rewrite mult_IZR. lra. }
  rewrite Hint, mult_IZR. field.
Qed.

Lemma grid_accurate : accurate grid.
Proof.
  constructor; cbn [rnd libm_pow libm_cos libm_acos grid]; intros.
  - apply Rle_trans with (delta * 1); [rewrite Rmult_1_r; apply to_grid_close | ].
    apply Rmult_le_compat_l; [unfold delta; lra | apply Rmax_l].
  - apply to_grid_IZR.
  - apply to_grid_close.
  - apply to_grid_close.
  - apply to_grid_close.
Qed.

End RoundedModel.

(** ** Further facts of the exact arithmetic *)

Module RealFurther.

Import RealArith RealFormulas RealModel.

Local Open Scope R_scope.

(** *** The sign and the size of the ISCO radius *)

Section IscoSign.

Variable a : R.
Hypothesis a_range : - (998 / 1000) <= a <= 998 / 1000.

(** The outer square root stays below [3 + z2]: the difference of the
    squares is [(z1 + z2)^2]. *)
Lemma sqrt_radicand_lt : sqrt (radicand a) < 3 + z2 a.
Proof.
  pose proof (@z1_range a a_range) as Hz1. pose proof (z2_nonneg a) as Hz2.
  pose proof (@radicand_nonneg a a_range) as Hrad.
  assert (Hsq : radicand a < (3 + z2 a) * (3 + z2 a)).
  { unfold radicand.
    assert (Hpos : 0 < (z1 a + z2 a) * (z1 a + z2 a))
      by (apply Rmult_lt_0_compat; lra).
    replace ((3 + z2 a) * (3 + z2 a))
      with ((3 - z1 a) * (3 + z1 a + 2 * z2 a)
            + (z1 a + z2 a) * (z1 a + z2 a)) by ring.
    lra. }
  rewrite <- (sqrt_square (3 + z2 a)) by lra.
  apply sqrt_lt_1_alt. lra.
Qed.

Lemma isco_value_pos : 0 < isco_value a.
Proof.
  pose proof sqrt_radicand_lt as Hs. pose proof (z2_nonneg a) as Hz2.
  pose proof (sqrt_pos (radicand a)) as Hpos.
  unfold isco_value. destruct (leb 0 a); lra.
Qed.

End IscoSign.

(** *** The photon-ring radius as a function of the spin *)

Section PhotonShape.

Variables a b : R.
Hypothesis a_range : 1 / 1000000 <= a <= 999 / 1000.
Hypothesis b_range : 1 / 1000000 <= b <= 999 / 1000.

Lemma cos_third_gt_half : 1 / 2 < cos_third a.
Proof.
  assert (Hr : -1 <= - a <= 0) by lra.
  pose proof (cos_third_range a) as [Hlo _].
  pose proof (@cos_third_cubic a Hr) as Hcubic.
  destruct (Req_dec_T (cos_third a) (1 / 2)) as [Heq | Hne]; [ | lra].
  rewrite Heq in Hcubic. lra.
Qed.

Lemma photon_value_range : 1 < photon_value a < 3.
Proof.
  assert (Hr : -1 <= - a <= 0) by lra.
  pose proof cos_third_gt_half as Hc.
  pose proof (@cos_third_cubic a Hr) as Hcubic.
  rewrite (photon_value_square a).
  set (c := cos_third a) in *. split.
  - assert (1 / 2 * (1 / 2) < c * c) by (apply Rmult_le_0_lt_compat; lra).
    lra.
  - destruct (Rlt_dec (4 * (c * c)) 3) as [Hlt | Hge]; [exact Hlt | ].
    exfalso.
    assert (Hprod : 0 <= c * (4 * (c * c) - 3))
      by (apply Rmult_le_pos; lra).
    replace (c * (4 * (c * c) - 3)) with (4 * (c * c * c) - 3 * c) in Hprod
      by ring.
    lra.
Qed.

Lemma cos_third_decreasing : a <= b -> cos_third b <= cos_third a.
Proof.
  intro Hab.
  assert (Hra : -1 <= - a <= 0) by lra. assert (Hrb : -1 <= - b <= 0) by lra.
  pose proof (cos_third_range a) as [Hca _].
  pose proof (@cos_third_cubic a Hra) as Hcubic_a.
  pose proof (@cos_third_cubic b Hrb) as Hcubic_b.
  destruct (Rle_lt_dec (cos_third b) (cos_third a)) as [Hle | Hlt];
    [exact Hle | ].
  pose proof (cubic_increasing Hca Hlt). lra.
Qed.

Lemma cos_third_strictly_decreasing : a < b -> cos_third b < cos_third a.
Proof.
  intro Hab.
  assert (Hra : -1 <= - a <= 0) by lra. assert (Hrb : -1 <= - b <= 0) by lra.
  pose proof (@cos_third_cubic a Hra) as Hcubic_a.
  pose proof (@cos_third_cubic b Hrb) as Hcubic_b.
  pose proof (cos_third_decreasing (Rlt_le _ _ Hab)) as Hle.
  destruct (Req_dec_T (cos_third b) (cos_third a)) as [Heq | Hne]; [ | lra].
  rewrite Heq in Hcubic_b. lra.
Qed.

Lemma photon_value_decreasing : a <= b -> photon_value b <= photon_value a.
Proof.
  intro Hab.
  assert (Hra : -1 <= - a <= 0) by lra. assert (Hrb : -1 <= - b <= 0) by lra.
  pose proof (cos_third_decreasing Hab) as Hc.
  pose proof (cos_third_range b) as [Hcb _].
  rewrite (photon_value_square a), (photon_value_square b).
  assert (cos_third b * cos_third b <= cos_third a * cos_third a)
    by (apply Rmult_le_compat; lra).
  lra.
Qed.

Lemma photon_value_strictly_decreasing :
  a < b -> photon_value b < photon_value a.
Proof.
  intro Hab.
  assert (Hra : -1 <= - a <= 0) by lra. assert (Hrb : -1 <= - b <= 0) by lra.
  pose proof (cos_third_strictly_decreasing Hab) as Hc.
  pose proof (cos_third_range b) as [Hcb _].
  rewrite (photon_value_square a), (photon_value_square b).
  assert (cos_third b * cos_third b < cos_third a * cos_third a)
    by (apply Rmult_le_0_lt_compat; lra).
  lra.
Qed.

End PhotonShape.

Lemma photon_clamp_monotone (s t : R) :
  Rabs s <= Rabs t -> photon_clamp s <= photon_clamp t.
Proof.
  intro Hst. rewrite !photon_clamp_real.
  apply Rle_max_compat_r. apply Rle_min_compat_r. exact Hst.
Qed.

Lemma photon_clamp_abs (s : R) :
  1 / 1000000 <= Rabs s <= 999 / 1000 -> photon_clamp s = Rabs s.
Proof.
  intro Hs. rewrite photon_clamp_real.
  rewrite Rmin_left by lra. rewrite Rmax_left by lra. reflexivity.
Qed.

(** *** The relative error *)

Lemma rel_error_sign (v e : R) :
  (0 < e -> 0 <= rel_error v e) /\ (e < 0 -> rel_error v e <= 0).
Proof.
  unfold rel_error. pose proof (Rabs_pos (v - e)) as Hpos. split; intro He.
  - apply Rmult_le_pos; [exact Hpos | ].
    left. apply Rinv_0_lt_compat. exact He.
  - assert (Hinv : / e < 0) by (apply Rinv_lt_0_compat; exact He).
    unfold Rdiv.
    replace (Rabs (v - e) * / e) with (- (Rabs (v - e) * - / e)) by ring.
    assert (0 <= Rabs (v - e) * - / e) by (apply Rmult_le_pos; lra).
    lra.
Qed.

Lemma check_row_inv (fn : R -> result R) (label : string) (s e : R)
    (en : entry) :
  check_row fn label (s, e) = Ok en ->
  exists v, fn s = Ok v /\ e <> 0 /\ en = (label, s, rel_error v e).
Proof.
  unfold check_row. intro Hrow.
  apply bind_inv in Hrow. destruct Hrow as (v & Hv & Hrow).
  cbn [f_div f_abs f_sub arith] in Hrow. unfold div in Hrow.
  destruct (Req_dec_T e 0) as [He | He]; [discriminate Hrow | ].
  cbn [bind] in Hrow. exists v. repeat split; try assumption.
  unfold rel_error. congruence.
Qed.

(** *** The maximum and the mean *)

Lemma fold_max_ge (rest : list R) (x : R) :
  x <= fold_left py_max rest x
  /\ Forall (fun y => y <= fold_left py_max rest x) rest.
Proof.
  revert x. induction rest as [|y rest IH]; intro x; cbn [fold_left].
  - split; [lra | constructor].
  - destruct (IH (py_max x y)) as [Hacc Hrest].
    rewrite py_max_real in *.
    pose proof (Rmax_l x y). pose proof (Rmax_r x y).
    split; [lra | constructor; [lra | exact Hrest]].
Qed.

Lemma fold_max_in (rest : list R) (x : R) :
  In (fold_left py_max rest x) (x :: rest).
Proof.
  revert x. induction rest as [|y rest IH]; intro x; cbn [fold_left].
  - left. reflexivity.
  - destruct (IH (py_max x y)) as [Heq | Hin].
    + rewrite <- Heq. rewrite py_max_real.
      unfold Rmax. destruct (Rle_dec x y); [right; left | left]; reflexivity.
    + right. right. exact Hin.
Qed.

Lemma sum_le_max (xs : list R) (m : R) :
  Forall (fun y => y <= m) xs ->
  fold_right Rplus 0 xs <= INR (List.length xs) * m.
Proof.
  induction 1 as [|y ys Hy _ IH].
  - cbn. lra.
  - cbn [fold_right List.length]. rewrite S_INR. lra.
Qed.

Lemma sum_permutation (xs ys : list R) :
  Permutation xs ys -> fold_right Rplus 0 xs = fold_right Rplus 0 ys.
Proof.
  induction 1; cbn [fold_right]; lra.
Qed.

(** The maximum of a list is the item that is above every item. *)
Lemma max_list_spec (xs : list R) (m : R) :
  max_list xs = Ok m <-> In m xs /\ Forall (fun y => y <= m) xs.
Proof.
  destruct xs as [|x rest]; cbn [max_list].
  - split; [discriminate | intros [[] _]].
  - split.
    + intro Hm. injection Hm as <-. split; [apply fold_max_in | ].
      destruct (fold_max_ge rest x) as [Hx Hrest].
      constructor; assumption.
    + intros [Hin Hall]. f_equal.
      pose proof (fold_max_in rest x) as Hin'.
      destruct (fold_max_ge rest x) as [Hx Hrest].
      assert (Hall' : Forall (fun y => y <= fold_left py_max rest x) (x :: rest))
        by (constructor; assumption).
      rewrite Forall_forall in Hall, Hall'.
      apply Rle_antisym; [apply Hall; exact Hin' | apply Hall'; exact Hin].
Qed.

Lemma max_list_permutation (xs ys : list R) :
  Permutation xs ys -> max_list xs = max_list ys.
Proof.
  intro Hperm. destruct xs as [|x rest].
  - apply Permutation_nil in Hperm. subst. reflexivity.
  - destruct (max_list (x :: rest)) as [m|ex] eqn:Hm; [ | discriminate Hm].
    symmetry. apply max_list_spec. apply max_list_spec in Hm.
    destruct Hm as [Hin Hall]. split.
    + apply (Permutation_in _ Hperm). exact Hin.
    + apply (Permutation_Forall Hperm). exact Hall.
Qed.

End RealFurther.

(** ** Facts of the binary64 arithmetic *)

Module Binary64Facts.

Import PrimFloat SpecFloat FloatOps FloatAxioms Binary64.

Local Open Scope float_scope.
Local Set Warnings "-inexact-float".

(** The literals of the script, read by this arithmetic, are the doubles
    Rocq's own parser reads. *)
Example literals_agree :
  forallb (fun xy => Leibniz.eqb (fst xy) (snd xy))
    [ (decimal 998 (-3), 0.998); (decimal 999 (-3), 0.999);
      (decimal 1 (-6), 1e-6); (decimal 8 (-3), 8e-3);
      (decimal 5 (-1), 0.5); (decimal 9 (-1), 0.9);
      (decimal 0 (-1), 0.0); (decimal 60 (-1), 6.0);
      (decimal 4233 (-3), 4.233); (decimal 2320 (-3), 2.320);
      (decimal 1237 (-3), 1.237); (decimal 30 (-1), 3.0);
      (decimal 23472963553 (-10), 2.3472963553);
      (decimal 15578546274 (-10), 1.5578546274);
      (decimal 10739092577 (-10), 1.0739092577);
      (decimal 667430 (-16), 6.67430e-11);
      (decimal 198847 25, 1.98847e30);
      (decimal 65 7, 6.5e8);
      (decimal 1 (-20), 1e-20);
      (of_int (299792458 * 299792458), 89875517873681764) ] = true.
Proof. vm_compute. reflexivity. Qed.

Example format_examples :
  map (format 4) [0.001; 8e-3; 0.00038065; 123456.5; 0; 9.99996; -2.5e-7; 1e100]
  = ["1.0000e-03"; "8.0000e-03"; "3.8065e-04"; "1.2346e+05"; "0.0000e+00";
     "1.0000e+01"; "-2.5000e-07"; "1.0000e+100"]%string.
Proof. vm_compute. reflexivity. Qed.

(** *** The order of the doubles *)

Local Open Scope Z_scope.

Lemma SFcompare_key (x y : spec_float) :
  x <> S754_nan -> y <> S754_nan -> SFcompare x y = Some (lex (key x) (key y)).
Proof.
  intros Hx Hy.
  destruct x as [sx|sx| |sx mx ex]; try contradiction;
  destruct y as [sy|sy| |sy my ey]; try contradiction;
  try (destruct sx); try (destruct sy); try reflexivity.
  cbn [SFcompare key lex]. rewrite Z.compare_opp.
  change (-1 ?= -1) with Eq. cbn iota.
  rewrite (Z.compare_antisym ex ey).
  destruct (ex ?= ey); reflexivity.
Qed.

Lemma lex_Lt (k k' : Z * Z * Z) : lex k k' = Lt <-> lex_lt k k'.
Proof.
  destruct k as [[a b] c], k' as [[a' b'] c']. unfold lex, lex_lt.
  destruct (Z.compare_spec a a'), (Z.compare_spec b b'), (Z.compare_spec c c');
    split; intro Hc; try discriminate Hc; try reflexivity; lia.
Qed.

Lemma lex_not_Gt (k k' : Z * Z * Z) : lex k k' <> Gt <-> lex_le k k'.
Proof.
  destruct k as [[a b] c], k' as [[a' b'] c']. unfold lex, lex_le.
  destruct (Z.compare_spec a a'), (Z.compare_spec b b'), (Z.compare_spec c c');
    split; intro Hc; try congruence; try lia.
Qed.

Local Open Scope float_scope.

Lemma not_nan (x : float) : is_nan x = false -> Prim2SF x <> S754_nan.
Proof.
  unfold is_nan. rewrite eqb_spec. intros Hx Hnan. rewrite Hnan in Hx.
  discriminate Hx.
Qed.

Lemma ltb_key (x y : float) :
  is_nan x = false -> is_nan y = false ->
  (x <? y) = true <-> lex_lt (key (Prim2SF x)) (key (Prim2SF y)).
Proof.
  intros Hx Hy. rewrite ltb_spec. unfold SFltb.
  rewrite (SFcompare_key (not_nan x Hx) (not_nan y Hy)).
  rewrite <- lex_Lt.
  destruct (lex _ _); split; intro Hc; congruence.
Qed.

Lemma leb_key (x y : float) :
  is_nan x = false -> is_nan y = false ->
  (x <=? y) = true <-> lex_le (key (Prim2SF x)) (key (Prim2SF y)).
Proof.
  intros Hx Hy. rewrite leb_spec. unfold SFleb.
  rewrite (SFcompare_key (not_nan x Hx) (not_nan y Hy)).
  rewrite <- lex_not_Gt.
  destruct (lex _ _); split; intro Hc; congruence.
Qed.

(** Orders of non-NaN doubles. *)
Lemma ltb_false_leb (x y : float) :
  is_nan x = false -> is_nan y = false -> (x <? y) = false -> (y <=? x) = true.
Proof.
  intros Hx Hy Hlt. apply (leb_key _ _ Hy Hx).
  assert (Hn : ~ lex_lt (key (Prim2SF x)) (key (Prim2SF y))).
  { intro Hk. apply (ltb_key _ _ Hx Hy) in Hk. congruence. }
  destruct (key (Prim2SF x)) as [[a b] c], (key (Prim2SF y)) as [[a' b'] c'].
  unfold lex_lt in Hn. unfold lex_le. lia.
Qed.

Lemma leb_trans (x y z : float) :
  is_nan x = false -> is_nan y = false -> is_nan z = false ->
  (x <=? y) = true -> (y <=? z) = true -> (x <=? z) = true.
Proof.
  intros Hx Hy Hz Hxy Hyz.
  apply (leb_key _ _ Hx Hy) in Hxy. apply (leb_key _ _ Hy Hz) in Hyz.
  apply (leb_key _ _ Hx Hz).
  destruct (key (Prim2SF x)) as [[a b] c], (key (Prim2SF y)) as [[a' b'] c'],
           (key (Prim2SF z)) as [[a'' b''] c''].
  unfold lex_le in *. lia.
Qed.

Lemma ltb_leb_trans (x y z : float) :
  is_nan x = false -> is_nan y = false -> is_nan z = false ->
  (x <? y) = true -> (y <=? z) = true -> (x <? z) = true.
Proof.
  intros Hx Hy Hz Hxy Hyz.
  apply (ltb_key _ _ Hx Hy) in Hxy. apply (leb_key _ _ Hy Hz) in Hyz.
  apply (ltb_key _ _ Hx Hz).
  destruct (key (Prim2SF x)) as [[a b] c], (key (Prim2SF y)) as [[a' b'] c'],
           (key (Prim2SF z)) as [[a'' b''] c''].
  unfold lex_le, lex_lt in *. lia.
Qed.

Lemma leb_ltb_trans (x y z : float) :
  is_nan x = false -> is_nan y = false -> is_nan z = false ->
  (x <=? y) = true -> (y <? z) = true -> (x <? z) = true.
Proof.
  intros Hx Hy Hz Hxy Hyz.
  apply (leb_key _ _ Hx Hy) in Hxy. apply (ltb_key _ _ Hy Hz) in Hyz.
  apply (ltb_key _ _ Hx Hz).
  destruct (key (Prim2SF x)) as [[a b] c], (key (Prim2SF y)) as [[a' b'] c'],
           (key (Prim2SF z)) as [[a'' b''] c''].
  unfold lex_le, lex_lt in *. lia.
Qed.

Lemma opp_not_nan (x : float) : is_nan x = false -> is_nan (- x) = false.
Proof.
  intro Hx. pose proof (not_nan x Hx) as Hn.
  unfold is_nan. rewrite eqb_spec, opp_spec. unfold SFeqb.
  destruct (Prim2SF x) as [s|s| |s m e]; try contradiction.
  - reflexivity.
  - destruct s; reflexivity.
  - cbn [SFopp]. rewrite SFcompare_key by discriminate.
    destruct s; cbn [negb key lex]; rewrite ?Z.compare_refl; cbn iota;
      rewrite ?Z.compare_refl; try reflexivity.
Qed.

Lemma abs_not_nan (x : float) : is_nan x = false -> is_nan (abs x) = false.
Proof.
  intro Hx. pose proof (not_nan x Hx) as Hn.
  unfold is_nan. rewrite eqb_spec, abs_spec. unfold SFeqb.
  destruct (Prim2SF x) as [s|s| |s m e]; try contradiction.
  - reflexivity.
  - reflexivity.
  - cbn [SFabs]. rewrite SFcompare_key by discriminate.
    cbn [key lex]. rewrite ?Z.compare_refl. cbn iota.
    rewrite ?Z.compare_refl. cbn iota. rewrite ?Z.compare_refl. reflexivity.
Qed.

Lemma key_opp (x : spec_float) :
  key (SFopp x)
  = (let '(a, b, c) := key x in (- a, - b, - c))%Z.
Proof. destruct x as [s|s| |s m e]; try destruct s; cbn; rewrite ?Z.opp_involutive; reflexivity. Qed.

(** Negation reverses the order. *)
Lemma leb_opp (x y : float) :
  is_nan x = false -> is_nan y = false ->
  (x <=? y) = true -> (- y <=? - x) = true.
Proof.
  intros Hx Hy Hxy. apply (leb_key _ _ Hx Hy) in Hxy.
  apply (leb_key _ _ (opp_not_nan y Hy) (opp_not_nan x Hx)).
  rewrite !opp_spec, !key_opp.
  destruct (key (Prim2SF x)) as [[a b] c], (key (Prim2SF y)) as [[a' b'] c'].
  unfold lex_le in *. lia.
Qed.

(** Only one double compares equal to a finite non-zero one. *)
Lemma compare_Eq_finite (s : bool) (m : positive) (e : Z) (y : spec_float) :
  SFcompare (S754_finite s m e) y = Some Eq -> y = S754_finite s m e.
Proof.
  destruct y as [sy|sy| |sy my ey]; cbn [SFcompare]; intro Hc;
    try (destruct s; discriminate Hc); try (destruct sy; discriminate Hc);
    try discriminate Hc.
  assert (He : forall c, match (e ?= ey)%Z with
                         | Eq => c | Lt => Lt | Gt => Gt end = Eq ->
                         e = ey /\ c = Eq).
  { intros c. destruct (Z.compare_spec e ey); intro Hm;
      [split; [assumption | exact Hm] | discriminate Hm | discriminate Hm]. }
  assert (He' : forall c, match (e ?= ey)%Z with
                          | Eq => c | Lt => Gt | Gt => Lt end = Eq ->
                          e = ey /\ c = Eq).
  { intros c. destruct (Z.compare_spec e ey); intro Hm;
      [split; [assumption | exact Hm] | discriminate Hm | discriminate Hm]. }
  destruct s, sy; injection Hc as Hc; try discriminate Hc.
  - apply He' in Hc. destruct Hc as [-> Hm].
    apply (f_equal CompOpp) in Hm. rewrite CompOpp_involutive in Hm.
    apply Pos.compare_eq in Hm. subst. reflexivity.
  - apply He in Hc. destruct Hc as [-> Hm].
    apply Pos.compare_eq in Hm. subst. reflexivity.
Qed.

Lemma leb_not_ltb_eq (c x : float) :
  (exists s m e, Prim2SF c = S754_finite s m e) ->
  (c <=? x) = true -> (c <? x) = false -> x = c.
Proof.
  intros (s & m & e & Hc) Hle Hlt.
  rewrite leb_spec in Hle. rewrite ltb_spec in Hlt.
  unfold SFleb in Hle. unfold SFltb in Hlt.
  apply Prim2SF_inj. rewrite Hc in *.
  apply compare_Eq_finite.
  destruct (SFcompare (S754_finite s m e) (Prim2SF x)) as [[ | | ]|];
    try discriminate; reflexivity.
Qed.

(** *** The clamps and special inputs, with any C library *)

Section AnyLibm.

Variable L : Libm.



(** Spins above the clamp are replaced by [0.998] before anything is
    computed. *)
Lemma isco_clamp_saturates :
  map (isco_clamp (H := arith L)) [1.5; 0.998; 1e300; infinity]
  = [0.998; 0.998; 0.998; 0.998].
Proof. vm_compute. reflexivity. Qed.

(** At spin zero every step is exact and the radius is [6.0]. *)
Lemma isco_radius_zero :
  isco_radius (H := arith L) (decimal 0 (-1)) = Ok 6.
Proof. vm_compute. reflexivity. Qed.

(** A NaN passes through the clamp and every later step of
    [isco_radius]; nothing is raised. *)
Lemma isco_radius_nan :
  isco_radius (H := arith L) nan = Ok nan.
Proof. vm_compute. reflexivity. Qed.

(** The gravitational radius of the default mass, and of twice that
    mass: here doubling the mass doubles the result exactly. *)
Lemma gravitational_radius_default :
  gravitational_radius (H := arith L) (decimal 65 7)
  = Ok 0x1.bef548bac778ap+40
  /\ gravitational_radius (H := arith L) (decimal 130 7)
     = Ok 0x1.bef548bac778ap+41.
Proof. split; vm_compute; reflexivity. Qed.

(** [max] keeps an earlier number over a later NaN: the test of the
    maximum against the tolerance does not see such an entry. *)
Lemma max_list_ignores_later_nan :
  max_list (H := arith L) [decimal 1 (-3); nan] = Ok (decimal 1 (-3))
  /\ f_lt (PyFloat := arith L) (decimal 1 (-3)) (threshold (H := arith L))
     = true
  /\ f_lt (PyFloat := arith L) nan (threshold (H := arith L)) = false.
Proof. repeat split; vm_compute; reflexivity. Qed.

Lemma isco_clamp_at_or_above (s : float) :
  (decimal 998 (-3) <=? s) = true -> isco_clamp (H := arith L) s = decimal 998 (-3).
Proof.
  intro Hs. unfold isco_clamp, py_max, py_min, f_gt.
  cbn [f_lt f_neg of_decimal arith].
  destruct (decimal 998 (-3) <? s) eqn:Hlt.
  - vm_compute. reflexivity.
  - assert (Heq : s = decimal 998 (-3)).
    { apply leb_not_ltb_eq; [ | exact Hs | exact Hlt].
      vm_compute. eexists. eexists. eexists. reflexivity. }
    rewrite Heq. vm_compute. reflexivity.
Qed.

Lemma isco_clamp_bounded (s : float) :
  is_nan s = false ->
  (- decimal 998 (-3) <=? isco_clamp (H := arith L) s) = true
  /\ (isco_clamp (H := arith L) s <=? decimal 998 (-3)) = true.
Proof.
  intro Hs. unfold isco_clamp, py_max, py_min, f_gt.
  cbn [f_lt f_neg of_decimal arith].
  destruct (decimal 998 (-3) <? s) eqn:Hhi.
  - split; vm_compute; reflexivity.
  - destruct (s <? - decimal 998 (-3)) eqn:Hlo.
    + split; vm_compute; reflexivity.
    + split; apply ltb_false_leb; try assumption; vm_compute; reflexivity.
Qed.

Lemma photon_clamp_bounded (s : float) :
  is_nan s = false ->
  (decimal 1 (-6) <=? photon_clamp (H := arith L) s) = true
  /\ (photon_clamp (H := arith L) s <=? decimal 999 (-3)) = true
  /\ is_nan (photon_clamp (H := arith L) s) = false.
Proof.
  intro Hs. apply abs_not_nan in Hs.
  unfold photon_clamp, py_max, py_min, f_gt.
  cbn [f_lt f_abs of_decimal arith].
  destruct (decimal 999 (-3) <? abs s) eqn:Hhi.
  - repeat split; vm_compute; reflexivity.
  - destruct (abs s <? decimal 1 (-6)) eqn:Hlo.
    + repeat split; vm_compute; reflexivity.
    + repeat split; try exact Hs;
        apply ltb_false_leb; try assumption; vm_compute; reflexivity.
Qed.

End AnyLibm.

End Binary64Facts.

(** ** Further facts of the binary64 arithmetic *)

Module Binary64Further.

Import PrimFloat SpecFloat FloatOps FloatAxioms Binary64 Binary64Facts.

Local Open Scope float_scope.
Local Set Warnings "-inexact-float".

(** *** NaN and the comparisons *)

Lemma lex_refl (k : Z * Z * Z) : lex k k = Eq.
Proof.
  destruct k as [[a b] c]. unfold lex. rewrite !Z.compare_refl. reflexivity.
Qed.

Lemma lex_Eq_sym (k k' : Z * Z * Z) : lex k k' = Eq -> lex k' k = Eq.
Proof.
  destruct k as [[a b] c], k' as [[a' b'] c']. unfold lex.
  destruct (Z.compare_spec a a'); try discriminate;
  destruct (Z.compare_spec b b'); try discriminate;
  destruct (Z.compare_spec c c'); try discriminate.
  intros _. subst. rewrite !Z.compare_refl. reflexivity.
Qed.

Lemma is_nan_false (x : float) :
  is_nan x = false <-> Prim2SF x <> S754_nan.
Proof.
  split; [apply not_nan | ].
  intro Hx. unfold is_nan. rewrite eqb_spec. unfold SFeqb.
  rewrite (SFcompare_key Hx Hx), lex_refl. reflexivity.
Qed.

Lemma is_nan_true (x : float) : is_nan x = true -> x = nan.
Proof.
  intro Hx. apply Prim2SF_inj.
  destruct (Prim2SF x) eqn:Hsf; try reflexivity;
    assert (Hn : is_nan x = false)
      by (apply is_nan_false; rewrite Hsf; discriminate);
    congruence.
Qed.

Lemma ltb_not_nan (x y : float) :
  (x <? y) = true -> is_nan x = false /\ is_nan y = false.
Proof.
  rewrite ltb_spec. unfold SFltb. intro Hlt.
  split; apply is_nan_false; intro Hn; rewrite Hn in Hlt;
    [ | destruct (Prim2SF x) as [s|s| |s m e]; try destruct s];
    discriminate Hlt.
Qed.

Lemma leb_not_nan (x y : float) :
  (x <=? y) = true -> is_nan x = false /\ is_nan y = false.
Proof.
  rewrite leb_spec. unfold SFleb. intro Hle.
  split; apply is_nan_false; intro Hn; rewrite Hn in Hle;
    [ | destruct (Prim2SF x) as [s|s| |s m e]; try destruct s];
    discriminate Hle.
Qed.

Lemma ltb_nan_l (y : float) : (nan <? y) = false.
Proof.
  destruct (nan <? y) eqn:Hlt; [ | reflexivity].
  apply ltb_not_nan in Hlt. destruct Hlt as [Hn _]. discriminate Hn.
Qed.

Lemma ltb_nan_r (x : float) : (x <? nan) = false.
Proof.
  destruct (x <? nan) eqn:Hlt; [ | reflexivity].
  apply ltb_not_nan in Hlt. destruct Hlt as [_ Hn]. discriminate Hn.
Qed.

Lemma leb_refl (x : float) : is_nan x = false -> (x <=? x) = true.
Proof.
  intro Hx. apply (leb_key _ _ Hx Hx).
  destruct (key (Prim2SF x)) as [[a b] c]. unfold lex_le. lia.
Qed.

Lemma ltb_leb (x y : float) : (x <? y) = true -> (x <=? y) = true.
Proof.
  intro Hlt. destruct (ltb_not_nan Hlt) as [Hx Hy].
  apply (ltb_key _ _ Hx Hy) in Hlt. apply (leb_key _ _ Hx Hy).
  destruct (key (Prim2SF x)) as [[a b] c], (key (Prim2SF y)) as [[a' b'] c'].
  unfold lex_le, lex_lt in *. lia.
Qed.

Lemma leb_ltb_false (x y : float) : (x <=? y) = true -> (y <? x) = false.
Proof.
  intro Hle. destruct (leb_not_nan Hle) as [Hx Hy].
  apply (leb_key _ _ Hx Hy) in Hle.
  destruct (y <? x) eqn:Hlt; [ | reflexivity].
  apply (ltb_key _ _ Hy Hx) in Hlt.
  destruct (key (Prim2SF x)) as [[a b] c], (key (Prim2SF y)) as [[a' b'] c'].
  unfold lex_le, lex_lt in *. lia.
Qed.

(** Only one double compares equal to a finite non-zero one, from
    either side. *)
Lemma compare_Eq_finite_r (s : bool) (m : positive) (e : Z) (y : spec_float) :
  SFcompare y (S754_finite s m e) = Some Eq -> y = S754_finite s m e.
Proof.
  intro Hc. apply compare_Eq_finite.
  assert (Hy : y <> S754_nan).
  { intro Hn. rewrite Hn in Hc. discriminate Hc. }
  assert (Hf : S754_finite s m e <> S754_nan) by discriminate.
  rewrite (SFcompare_key Hy Hf) in Hc. rewrite (SFcompare_key Hf Hy).
  injection Hc as Hc. apply lex_Eq_sym in Hc. f_equal. exact Hc.
Qed.

Lemma leb_not_ltb_eq_r (c x : float) :
  (exists s m e, Prim2SF c = S754_finite s m e) ->
  (x <=? c) = true -> (x <? c) = false -> x = c.
Proof.
  intros (s & m & e & Hc) Hle Hlt.
  rewrite leb_spec in Hle. rewrite ltb_spec in Hlt.
  unfold SFleb in Hle. unfold SFltb in Hlt.
  apply Prim2SF_inj. rewrite Hc in *.
  apply compare_Eq_finite_r.
  destruct (SFcompare (Prim2SF x) (S754_finite s m e)) as [[ | | ]|];
    try discriminate; reflexivity.
Qed.

Lemma abs_opp (x : float) : abs (- x) = abs x.
Proof.
  apply Prim2SF_inj. rewrite !abs_spec, opp_spec.
  destruct (Prim2SF x) as [s|s| |s m e]; reflexivity.
Qed.

Ltac finite_literal := vm_compute; eexists; eexists; eexists; reflexivity.
Ltac by_computation := vm_compute; reflexivity.

(** *** The clamps, with any C library *)

Section AnyLibm.

Variable L : Libm.

Lemma isco_clamp_within (s : float) :
  (- decimal 998 (-3) <=? s) = true -> (s <=? decimal 998 (-3)) = true ->
  isco_clamp (H := arith L) s = s.
Proof.
  intros Hlo Hhi. unfold isco_clamp, py_max, py_min, f_gt.
  cbn [f_lt f_neg of_decimal arith].
  rewrite (leb_ltb_false Hhi), (leb_ltb_false Hlo). reflexivity.
Qed.

Lemma isco_clamp_at_or_below (s : float) :
  (s <=? - decimal 998 (-3)) = true ->
  isco_clamp (H := arith L) s = - decimal 998 (-3).
Proof.
  intro Hs. unfold isco_clamp, py_max, py_min, f_gt.
  cbn [f_lt f_neg of_decimal arith].
  destruct (leb_not_nan Hs) as [Hn _].
  assert (Hhi : (s <=? decimal 998 (-3)) = true).
  { apply leb_trans with (- decimal 998 (-3));
      try assumption; by_computation. }
  rewrite (leb_ltb_false Hhi).
  destruct (s <? - decimal 998 (-3)) eqn:Hlt; [reflexivity | ].
  apply leb_not_ltb_eq_r; [finite_literal | exact Hs | exact Hlt].
Qed.

Lemma isco_clamp_nan : isco_clamp (H := arith L) nan = nan.
Proof. by_computation. Qed.

Lemma isco_clamp_idempotent (s : float) :
  isco_clamp (H := arith L) (isco_clamp (H := arith L) s)
  = isco_clamp (H := arith L) s.
Proof.
  destruct (is_nan s) eqn:Hn.
  - apply is_nan_true in Hn. subst. by_computation.
  - destruct (@isco_clamp_bounded L s Hn) as [Hlo Hhi].
    apply isco_clamp_within; assumption.
Qed.

Lemma photon_clamp_opp (s : float) :
  photon_clamp (H := arith L) (- s) = photon_clamp (H := arith L) s.
Proof.
  unfold photon_clamp. cbn [f_abs f_neg arith]. rewrite abs_opp. reflexivity.
Qed.

Lemma photon_clamp_small (s : float) :
  (abs s <=? decimal 1 (-6)) = true ->
  photon_clamp (H := arith L) s = decimal 1 (-6).
Proof.
  intro Hs. unfold photon_clamp, py_max, py_min, f_gt.
  cbn [f_lt f_abs of_decimal arith].
  destruct (leb_not_nan Hs) as [Hn _].
  assert (Hhi : (abs s <=? decimal 999 (-3)) = true).
  { apply leb_trans with (decimal 1 (-6)); try assumption; by_computation. }
  rewrite (leb_ltb_false Hhi).
  destruct (abs s <? decimal 1 (-6)) eqn:Hlt; [reflexivity | ].
  apply leb_not_ltb_eq_r; [finite_literal | exact Hs | exact Hlt].
Qed.

Lemma photon_clamp_large (s : float) :
  (decimal 999 (-3) <=? abs s) = true ->
  photon_clamp (H := arith L) s = decimal 999 (-3).
Proof.
  intro Hs. unfold photon_clamp, py_max, py_min, f_gt.
  cbn [f_lt f_abs of_decimal arith].
  destruct (decimal 999 (-3) <? abs s) eqn:Hlt.
  - by_computation.
  - assert (Heq : abs s = decimal 999 (-3)).
    { apply leb_not_ltb_eq; [finite_literal | exact Hs | exact Hlt]. }
    rewrite Heq. by_computation.
Qed.

Lemma photon_clamp_within (s : float) :
  (decimal 1 (-6) <=? abs s) = true -> (abs s <=? decimal 999 (-3)) = true ->
  photon_clamp (H := arith L) s = abs s.
Proof.
  intros Hlo Hhi. unfold photon_clamp, py_max, py_min, f_gt.
  cbn [f_lt f_abs of_decimal arith].
  rewrite (leb_ltb_false Hhi), (leb_ltb_false Hlo). reflexivity.
Qed.

(** *** The maximum of a list of doubles *)

Lemma py_max_nan_r (x : float) : py_max (H := arith L) x nan = x.
Proof.
  unfold py_max, f_gt. cbn [f_lt arith]. rewrite ltb_nan_r. reflexivity.
Qed.

Lemma py_max_nan_l (y : float) : py_max (H := arith L) nan y = nan.
Proof.
  unfold py_max, f_gt. cbn [f_lt arith]. rewrite ltb_nan_l. reflexivity.
Qed.

Lemma py_max_not_nan (x y : float) :
  is_nan x = false -> is_nan (py_max (H := arith L) x y) = false.
Proof.
  intro Hx. unfold py_max, f_gt. cbn [f_lt arith].
  destruct (x <? y) eqn:Hlt; [ | exact Hx].
  apply ltb_not_nan in Hlt. apply Hlt.
Qed.

Lemma fold_max_nan (rest : list float) :
  fold_left (py_max (H := arith L)) rest nan = nan.
Proof.
  induction rest as [|y rest IH]; cbn [fold_left]; [reflexivity | ].
  rewrite py_max_nan_l. exact IH.
Qed.

Lemma fold_max_not_nan (rest : list float) (x : float) :
  is_nan x = false ->
  is_nan (fold_left (py_max (H := arith L)) rest x) = false.
Proof.
  revert x. induction rest as [|y rest IH]; intros x Hx; cbn [fold_left].
  - exact Hx.
  - apply IH. apply py_max_not_nan. exact Hx.
Qed.

Lemma fold_max_skips_nan (rest : list float) (x : float) :
  fold_left (py_max (H := arith L)) rest x
  = fold_left (py_max (H := arith L))
              (filter (fun y => negb (is_nan y)) rest) x.
Proof.
  revert x. induction rest as [|y rest IH]; intro x; cbn [fold_left filter].
  - reflexivity.
  - destruct (is_nan y) eqn:Hy; cbn [negb].
    + apply is_nan_true in Hy. subst y. rewrite py_max_nan_r. apply IH.
    + cbn [fold_left]. apply IH.
Qed.

Lemma fold_max_upper (rest : list float) (x : float) :
  is_nan x = false -> Forall (fun y => is_nan y = false) rest ->
  (x <=? fold_left (py_max (H := arith L)) rest x) = true
  /\ Forall (fun y => (y <=? fold_left (py_max (H := arith L)) rest x) = true)
            rest.
Proof.
  revert x. induction rest as [|y rest IH]; intros x Hx Hall; cbn [fold_left].
  - split; [apply leb_refl; exact Hx | constructor].
  - inversion Hall as [|? ? Hy Hrest]; subst.
    assert (Hm : is_nan (py_max (H := arith L) x y) = false)
      by (apply py_max_not_nan; exact Hx).
    destruct (IH _ Hm Hrest) as [Hacc Hbelow].
    assert (Hf : is_nan (fold_left (py_max (H := arith L)) rest
                                   (py_max (H := arith L) x y)) = false)
      by (apply fold_max_not_nan; exact Hm).
    assert (Hxy : (x <=? py_max (H := arith L) x y) = true
                  /\ (y <=? py_max (H := arith L) x y) = true).
    { unfold py_max, f_gt. cbn [f_lt arith].
      destruct (x <? y) eqn:Hlt.
      - split; [apply ltb_leb; exact Hlt | apply leb_refl; exact Hy].
      - split; [apply leb_refl; exact Hx | apply ltb_false_leb; assumption]. }
    destruct Hxy as [Hxm Hym].
    split; [ | constructor; [ | exact Hbelow]].
    + apply leb_trans with (py_max (H := arith L) x y); assumption.
    + apply leb_trans with (py_max (H := arith L) x y); assumption.
Qed.

Lemma fold_max_in_list (rest : list float) (x : float) :
  In (fold_left (py_max (H := arith L)) rest x) (x :: rest).
Proof.
  revert x. induction rest as [|y rest IH]; intro x; cbn [fold_left].
  - left. reflexivity.
  - destruct (IH (py_max (H := arith L) x y)) as [Heq | Hin].
    + rewrite <- Heq. unfold py_max, f_gt. cbn [f_lt arith].
      destruct (x <? y); [right; left | left]; reflexivity.
    + right. right. exact Hin.
Qed.

Lemma gravitational_radius_returns (m : float) :
  exists g, gravitational_radius (H := arith L) m = Ok g.
Proof.
  unfold gravitational_radius. cbn [f_div of_int arith]. unfold div.
  replace (of_int (C * C) =? 0) with false by by_computation.
  eexists. reflexivity.
Qed.

End AnyLibm.

End Binary64Further.

(** ** Strings *)

Lemma has_space_append (s t : string) :
  has_space (s ++ t) = has_space s || has_space t.
Proof.
  induction s as [|c s IH]; cbn [append has_space].
  - reflexivity.
  - rewrite IH. apply orb_assoc.
Qed.

Lemma append_cancel_l (s t u : string) : (s ++ t = s ++ u -> t = u)%string.
Proof.
  induction s as [|c s IH]; cbn [append]; intro Heq.
  - exact Heq.
  - injection Heq as Heq. apply IH. exact Heq.
Qed.

Lemma length_append (s t : string) :
  String.length (s ++ t) = (String.length s + String.length t)%nat.
Proof.
  induction s as [|c s IH]; cbn [append String.length].
  - reflexivity.
  - rewrite IH. reflexivity.
Qed.

Lemma digits_fixed_length (n : nat) (x : Z) :
  String.length (digits_fixed n x) = n.
Proof.
  revert x. induction n as [|n IH]; intro x; cbn [digits_fixed].
  - reflexivity.
  - rewrite length_append, IH. cbn [String.length]. lia.
Qed.

(** * The claims *)

Section AnyArithmetic.

Context {F : Type} `{PyFloat F}.

Local Open Scope string_scope.

(** C2. [run_checks] sets [ok] to the outcome of the test
    [max_rel_error < 8e-3], and [main] returns exit status 0 when [ok]
    is true and 1 when it is false. This holds in every arithmetic. *)
Theorem ok_is_the_threshold_test (args : Namespace) (report : Report)
    (trace : list event) :
  run_checks (mass args) (out args) = Ok (report, trace) ->
  ok report = f_lt (max_rel_error report) (of_decimal 8 (-3))
  /\ exists trace',
       main args = Ok ((if ok report then 0 else 1)%Z, trace').
Proof.
  intro Hrun. split.
  - apply run_checks_ok in Hrun. exact Hrun.
  - apply main_of_run in Hrun. eexists. exact Hrun.
Qed.

(** C6. In every report produced by [run_checks] the entries with
    quantity "isco" come before those with quantity "photon", and
    each group follows the table's order of spins 0.0, 0.5, 0.9,
    0.998. *)
Theorem entries_isco_then_photon (m : F) (output : string) (report : Report)
    (trace : list event) :
  run_checks m output = Ok (report, trace) ->
  map (fun e => (quantity e, spin e)) (entries report)
  = [ ("isco", of_decimal 0 (-1)); ("isco", of_decimal 5 (-1));
      ("isco", of_decimal 9 (-1)); ("isco", of_decimal 998 (-3));
      ("photon", of_decimal 0 (-1)); ("photon", of_decimal 5 (-1));
      ("photon", of_decimal 9 (-1)); ("photon", of_decimal 998 (-3)) ].
Proof.
  intro Hrun. apply run_checks_keys in Hrun. exact Hrun.
Qed.

(** C8. [summarize] of the empty sequence does not reach the division
    of the mean: [max] of the empty list raises [ValueError] first, so
    what is raised is not a [ZeroDivisionError]. *)
Theorem summarize_empty_raises :
  summarize [] = Raise ValueError
  /\ summarize [] <> Raise ZeroDivisionError.
Proof.
  split; [reflexivity | discriminate].
Qed.

(** C9. Whatever the mass and the output path, a report of
    [run_checks] has exactly 8 entries, 4 "isco" and 4 "photon", one
    per row of each table, and the entries do not depend on the mass:
    two runs produce the same entries. *)
Theorem report_has_eight_entries (m : F) (output : string) (report : Report)
    (trace : list event) :
  run_checks m output = Ok (report, trace) ->
  List.length (entries report) = 8%nat
  /\ count_occ string_dec (map quantity (entries report)) "isco" = 4%nat
  /\ count_occ string_dec (map quantity (entries report)) "photon" = 4%nat
  /\ map spin (entries report)
     = (map fst REFERENCE_ISCO ++ map fst REFERENCE_PHOTON)%list
  /\ forall (m' : F) (output' : string) (report' : Report)
       (trace' : list event),
       run_checks m' output' = Ok (report', trace') ->
       entries report' = entries report.
Proof.
  intro Hrun.
  pose proof Hrun as Hkeys. apply run_checks_keys in Hkeys.
  assert (Hq : map quantity (entries report)
               = map fst (keys (entries report))).
  { unfold keys. rewrite map_map. reflexivity. }
  assert (Hs : map spin (entries report)
               = map snd (keys (entries report))).
  { unfold keys. rewrite map_map. reflexivity. }
  rewrite Hkeys in Hq, Hs.
  repeat split.
  - rewrite <- (length_map quantity), Hq. reflexivity.
  - rewrite Hq. reflexivity.
  - rewrite Hq. reflexivity.
  - rewrite Hs. reflexivity.
  - intros m' output' report' trace' Hrun'.
    apply run_checks_inv in Hrun, Hrun'.
    destruct Hrun as (g & isco & photon & summary & _ & Hi & Hp & _ & -> & _).
    destruct Hrun' as (g' & isco' & photon' & summary' & _ & Hi' & Hp' & _ & -> & _).
    cbn [entries]. rewrite Hi in Hi'. rewrite Hp in Hp'.
    assert (isco' = isco) by congruence.
    assert (photon' = photon) by congruence.
    subst. reflexivity.
Qed.

(** C7, as the code has it. [main] prints exactly one line; on PASS
    and on FAIL alike it holds both errors,
    [[PASS] max_rel_error=<e> mean_rel_error=<e>] or
    [[FAIL] max_rel_error=<e> mean_rel_error=<e>], each formatted
    by [.4e]: scientific notation with four digits after the decimal
    point, five significant digits in all. *)
Theorem verdict_line_printed (args : Namespace) (code : Z)
    (trace : list event) :
  main args = Ok (code, trace) ->
  (exists report,
     run_checks (mass args) (out args)
     = Ok (report, [WriteText (out args) report])
     /\ stdout trace
        = [ "[" ++ (if ok report then "PASS" else "FAIL")
            ++ "] max_rel_error=" ++ format_e 4 (max_rel_error report)
            ++ " mean_rel_error=" ++ format_e 4 (mean_rel_error report) ])
  /\ forall (neg : bool) (n e : Z),
       exists (lead : ascii) (fraction : string),
         render_e 4 neg n e
         = (if neg then "-" else EmptyString)
           ++ String lead ("." ++ fraction ++ "e" ++ render_exponent e)
         /\ String.length fraction = 4%nat.
Proof.
  intro Hmain. split.
  - apply main_inv in Hmain. destruct Hmain as (report & Hrun & _ & ->).
    exists report. split; [exact Hrun | reflexivity].
  - intros neg n e.
    exists (digit_char (n / 10 ^ Z.of_nat 4)), (digits_fixed 4 n).
    split.
    + unfold render_e. destruct neg; cbn [append];
        rewrite <- ?append_assoc; reflexivity.
    + apply digits_fixed_length.
Qed.

End AnyArithmetic.

Section ExactArithmetic.

Import RealArith RealFormulas RealModel.

Local Open Scope R_scope.

(** C1. At each spin of 0.0, 0.5, 0.9 and 0.998, [isco_radius] is
    within 0.8% relative error of the ISCO table and [photon_radius]
    within 0.8% of the photon table (in exact real arithmetic). *)
Theorem reference_values_within_tolerance :
  map fst REFERENCE_ISCO = [0 / 10; 5 / 10; 9 / 10; 998 / 1000]
  /\ map fst REFERENCE_PHOTON = [0 / 10; 5 / 10; 9 / 10; 998 / 1000]
  /\ Forall (within_tolerance isco_radius) REFERENCE_ISCO
  /\ Forall (within_tolerance photon_radius) REFERENCE_PHOTON.
Proof.
  split; [reflexivity | split; [reflexivity | split]].
  - pose proof isco_errors_small as Hsmall. rewrite Forall_map in Hsmall.
    revert Hsmall. apply Forall_impl. intros row Hrow.
    exists (isco_value (isco_clamp (fst row))).
    split; [apply isco_radius_unfold | exact Hrow].
  - pose proof photon_errors_small as Hsmall. rewrite Forall_map in Hsmall.
    revert Hsmall. apply Forall_impl. intros row Hrow.
    exists (photon_value (photon_clamp (fst row))).
    split; [apply photon_radius_unfold | exact Hrow].
Qed.


(** C5, in exact real arithmetic. For every spin at or above 0.998,
    for instance 1.5, [isco_radius] returns, and returns the value of
    [isco_radius(0.998)]. *)
Theorem isco_radius_saturates (s : R) :
  998 / 1000 <= s ->
  exists value,
    isco_radius s = Ok value
    /\ isco_radius (of_decimal 998 (-3)) = Ok value.
Proof.
  intro Hs. exists (isco_value (998 / 1000)). split.
  - rewrite isco_radius_unfold, isco_clamp_above by exact Hs. reflexivity.
  - rewrite isco_radius_unfold. cbn [of_decimal arith]. norm_lits.
    rewrite isco_clamp_above by lra. reflexivity.
Qed.

Lemma isco_radius_saturates_at_1_5 :
  998 / 1000 <= 15 / 10
  /\ exists value,
       isco_radius (15 / 10) = Ok value
       /\ isco_radius (of_decimal 998 (-3)) = Ok value.
Proof.
  split; [lra | apply (@isco_radius_saturates (15 / 10)); lra].
Defined.






Lemma ok_is_the_threshold_test_default :
  exists report,
    run_checks (mass default_args) (out default_args)
    = Ok (report, [WriteText default_out report])
    /\ ok report = f_lt (max_rel_error report) (of_decimal 8 (-3))
    /\ exists trace',
         main default_args = Ok ((if ok report then 0 else 1)%Z, trace').
Proof.
  destruct (run_checks_total default_mass default_out) as [report Hrun].
  exists report. split; [exact Hrun | ].
  exact (@ok_is_the_threshold_test _ _ _ _ _ Hrun).
Defined.

Lemma entries_isco_then_photon_default :
  exists report,
    run_checks default_mass default_out
    = Ok (report, [WriteText default_out report])
    /\ map (fun e => (quantity e, spin e)) (entries report)
       = [ ("isco"%string, 0 / 10); ("isco"%string, 5 / 10);
           ("isco"%string, 9 / 10); ("isco"%string, 998 / 1000);
           ("photon"%string, 0 / 10); ("photon"%string, 5 / 10);
           ("photon"%string, 9 / 10); ("photon"%string, 998 / 1000) ].
Proof.
  destruct (run_checks_total default_mass default_out) as [report Hrun].
  exists report. split; [exact Hrun | ].
  exact (@entries_isco_then_photon _ _ _ _ _ _ Hrun).
Defined.

Lemma report_has_eight_entries_default :
  exists report,
    run_checks default_mass default_out
    = Ok (report, [WriteText default_out report])
    /\ List.length (entries report) = 8%nat
    /\ count_occ string_dec (map quantity (entries report)) "isco"%string = 4%nat
    /\ count_occ string_dec (map quantity (entries report)) "photon"%string = 4%nat
    /\ map spin (entries report)
       = (map fst REFERENCE_ISCO ++ map fst REFERENCE_PHOTON)%list
    /\ forall (m' : R) (output' : string) (report' : Report)
         (trace' : list event),
         run_checks m' output' = Ok (report', trace') ->
         entries report' = entries report.
Proof.
  destruct (run_checks_total default_mass default_out) as [report Hrun].
  exists report. split; [exact Hrun | ].
  exact (@report_has_eight_entries _ _ _ _ _ _ Hrun).
Defined.

Lemma main_default_total :
  exists code trace, main default_args = Ok (code, trace).
Proof.
  destruct (run_checks_total default_mass default_out) as [report Hrun].
  apply (@main_of_run _ _ default_args) in Hrun.
  eexists. eexists. exact Hrun.
Qed.

End ExactArithmetic.

Section PrintedLine.

Import RealArith RealFormulas RealModel.

Local Open Scope string_scope.

Lemma verdict_line_printed_default :
  exists code trace,
    main (F := R) default_args = Ok (code, trace)
    /\ (exists report,
          run_checks (mass default_args) (out default_args)
          = Ok (report, [WriteText (out default_args) report])
          /\ stdout trace
             = [ "[" ++ (if ok report then "PASS" else "FAIL")
                 ++ "] max_rel_error=" ++ format_e 4 (max_rel_error report)
                 ++ " mean_rel_error=" ++ format_e 4 (mean_rel_error report) ])
    /\ forall (neg : bool) (n e : Z),
         exists (lead : ascii) (fraction : string),
           render_e 4 neg n e
           = (if neg then "-" else EmptyString)
             ++ String lead ("." ++ fraction ++ "e" ++ render_exponent e)
           /\ String.length fraction = 4%nat.
Proof.
  destruct main_default_total as (code & trace & Hmain).
  exists code, trace. split; [exact Hmain | ].
  exact (@verdict_line_printed _ _ _ _ _ Hmain).
Defined.

(** C7, as stated, fails. The default run passes in exact arithmetic,
    and the one line it prints continues after the maximum with
    [ mean_rel_error=...]: it is none of the lines
    [[PASS] max_rel_error=<e>], whatever number stands for [<e>]. And
    the numbers carry five significant digits, not four: [0.001] is
    printed as [1.0000e-03], where four significant digits would be
    [1.000e-03]. *)
Lemma pass_line_also_reports_the_mean :
  (exists code report line,
     main (F := R) default_args
     = Ok (code, [WriteText (out default_args) report; Print line])
     /\ ok report = true
     /\ forall e : string,
          has_space e = false -> line <> "[PASS] max_rel_error=" ++ e)
  /\ Binary64.format 4 (Binary64.decimal 1 (-3)) = "1.0000e-03"
  /\ Binary64.format 3 (Binary64.decimal 1 (-3)) = "1.000e-03".
Proof.
  split; [ | split; vm_compute; reflexivity].
  destruct main_default_total as (code & trace & Hmain).
  apply main_inv in Hmain. destruct Hmain as (report & Hrun & -> & ->).
  exists (exit_status report), report, (verdict_line report).
  split; [ | split].
  - apply main_of_run in Hrun. exact Hrun.
  - apply run_checks_passes in Hrun. exact Hrun.
  - intros e He Heq.
    apply run_checks_passes in Hrun.
    unfold verdict_line in Heq. rewrite Hrun in Heq.
    change ("[" ++ "PASS" ++ "] max_rel_error="
            ++ format_e 4 (max_rel_error report)
            ++ " mean_rel_error=" ++ format_e 4 (mean_rel_error report))
      with ("[PASS] max_rel_error="
            ++ (format_e 4 (max_rel_error report)
                ++ " mean_rel_error=" ++ format_e 4 (mean_rel_error report)))
      in Heq.
    apply append_cancel_l in Heq. rewrite <- Heq in He.
    rewrite has_space_append in He.
    cbn [append has_space] in He.
    change (Ascii.eqb " " " ") with true in He.
    rewrite orb_true_l, orb_true_r in He. discriminate He.
Qed.

End PrintedLine.


(** * Further properties *)

Section DoublePrecision.

Import PrimFloat Binary64.

Local Open Scope float_scope.

(** In double precision, with any C library, every spin at or above
    [0.998] (infinity included) is clamped to [0.998] itself, so
    [isco_radius] does there exactly what it does at [0.998]: the same
    value, or the same exception. *)
Theorem isco_radius_saturates_binary64 (s : float) :
  (decimal 998 (-3) <=? s) = true ->
  forall L : Libm,
    isco_radius (H := arith L) s
    = isco_radius (H := arith L) (decimal 998 (-3)).
Proof.
  intros Hs L. unfold isco_radius.
  rewrite (@Binary64Facts.isco_clamp_at_or_above L s Hs).
  rewrite (@Binary64Facts.isco_clamp_at_or_above L (decimal 998 (-3))).
  - reflexivity.
  - vm_compute. reflexivity.
Qed.

Lemma isco_radius_saturates_binary64_at_1_5 :
  (decimal 998 (-3) <=? decimal 15 (-1)) = true
  /\ forall L : Libm,
       isco_radius (H := arith L) (decimal 15 (-1))
       = isco_radius (H := arith L) (decimal 998 (-3)).
Proof.
  split; [vm_compute; reflexivity | ].
  apply (@isco_radius_saturates_binary64 (decimal 15 (-1))).
  vm_compute. reflexivity.
Defined.

(** In double precision, for every spin that is not NaN, the clamped
    spin of [isco_radius] lies in [-0.998, 0.998] and the argument
    that [photon_radius] passes to [acos] lies in [-1, 1]. *)
Theorem clamped_arguments_binary64 (s : float) :
  is_nan s = false ->
  forall L : Libm,
    (- decimal 998 (-3) <=? isco_clamp (H := arith L) s) = true
    /\ (isco_clamp (H := arith L) s <=? decimal 998 (-3)) = true
    /\ (-1 <=? - photon_clamp (H := arith L) s) = true
    /\ (- photon_clamp (H := arith L) s <=? 1) = true.
Proof.
  intros Hs L.
  destruct (@Binary64Facts.isco_clamp_bounded L s Hs) as [Hlo Hhi].
  destruct (@Binary64Facts.photon_clamp_bounded L s Hs) as (Hplo & Hphi & Hnan).
  split; [exact Hlo | split; [exact Hhi | split]].
  - apply Binary64Facts.leb_trans with (- decimal 999 (-3));
      try (vm_compute; reflexivity).
    + apply Binary64Facts.opp_not_nan. exact Hnan.
    + apply Binary64Facts.leb_opp; [exact Hnan | vm_compute; reflexivity | exact Hphi].
  - apply Binary64Facts.leb_trans with (- decimal 1 (-6));
      try (vm_compute; reflexivity).
    + apply Binary64Facts.opp_not_nan. exact Hnan.
    + apply Binary64Facts.leb_opp; [vm_compute; reflexivity | exact Hnan | exact Hplo].
Qed.

Lemma clamped_arguments_binary64_at_huge :
  is_nan (decimal 1 300) = false
  /\ forall L : Libm,
       (- decimal 998 (-3) <=? isco_clamp (H := arith L) (decimal 1 300)) = true
       /\ (isco_clamp (H := arith L) (decimal 1 300) <=? decimal 998 (-3)) = true
       /\ (-1 <=? - photon_clamp (H := arith L) (decimal 1 300)) = true
       /\ (- photon_clamp (H := arith L) (decimal 1 300) <=? 1) = true.
Proof.
  split; [vm_compute; reflexivity | ].
  apply (@clamped_arguments_binary64 (decimal 1 300)).
  vm_compute. reflexivity.
Defined.

End DoublePrecision.

Section ExactArithmeticFurther.

Import RealArith RealFormulas RealModel.

Local Open Scope R_scope.

(** In exact arithmetic the gravitational radius is linear in the
    mass: doubling the mass doubles the radius. *)
Theorem gravitational_radius_doubles (m : R) :
  exists g,
    gravitational_radius m = Ok g
    /\ gravitational_radius (2 * m) = Ok (2 * g).
Proof.
  unfold gravitational_radius. cbn [f_div f_mul of_int arith].
  assert (Hc : IZR (C * C) <> 0) by (apply not_0_IZR; discriminate).
  rewrite !div_ok by exact Hc.
  eexists. split; [reflexivity | ].
  f_equal. unfold Rdiv. ring.
Qed.

(** In exact arithmetic [summarize] of a single entry reports that
    entry's error as the maximum and as the mean. *)
Theorem summarize_single_entry (label : string) (s err : R) :
  summarize [(label, s, err)] = Ok (mkSummary err err).
Proof.
  unfold summarize, fmean. cbn [map snd max_list fold_left bind].
  cbn [m_fsum f_div of_int arith]. unfold fsum.
  cbn [fold_right bind List.length Z.of_nat].
  rewrite div_ok by (apply not_0_IZR; discriminate).
  cbn [bind]. f_equal. f_equal. change (IZR (Z.of_nat 1)) with 1. field.
Qed.

(** End to end, in exact arithmetic: the default run (mass 6.5e8,
    report written to validation_report.json) produces a report with
    [ok] true and a maximal relative error below [8e-3], prints the
    PASS line and returns exit status 0. *)
Theorem default_run_passes :
  exists report,
    main default_args
    = Ok (0%Z, [ WriteText "validation_report.json" report;
                 Print (verdict_line report) ])
    /\ mass_solar report = 650000000
    /\ ok report = true
    /\ max_rel_error report < 8 / 1000
    /\ verdict_line report
       = ("[PASS] max_rel_error=" ++ format_e 4 (max_rel_error report)
          ++ " mean_rel_error=" ++ format_e 4 (mean_rel_error report))%string.
Proof.
  destruct (run_checks_total default_mass default_out) as [report Hrun].
  exists report.
  pose proof Hrun as Hok. apply run_checks_passes in Hok.
  pose proof Hrun as Hmain. apply (@main_of_run _ _ default_args) in Hmain.
  pose proof Hrun as Hthr. apply run_checks_ok in Hthr.
  pose proof Hrun as Hinv. apply run_checks_inv in Hinv.
  destruct Hinv as (g & isco & photon & summary & _ & _ & _ & _ & Hrep & _).
  split; [ | split; [ | split; [exact Hok | split]]].
  - rewrite Hmain. unfold exit_status. rewrite Hok. reflexivity.
  - rewrite Hrep. cbn [mass_solar]. unfold default_mass, default_args.
    cbn [mass of_decimal arith]. unfold decimal. cbn. reflexivity.
  - rewrite Hok in Hthr. symmetry in Hthr. apply ltb_true in Hthr.
    exact Hthr.
  - unfold verdict_line. rewrite Hok. reflexivity.
Qed.

End ExactArithmeticFurther.

Section RoundedArithmetic.

Import RealArith RealFormulas RoundedArith RoundedModel.

Local Open Scope R_scope.

(** The comparison with the tables does not rest on exact
    arithmetic. On every machine whose operations and library
    functions are accurate to [1e-10], at each spin of 0.0, 0.5, 0.9
    and 0.998 [isco_radius] and [photon_radius] return a value within
    0.8% relative error of the table entry. *)
Theorem reference_values_within_tolerance_rounded (M : Machine) :
  accurate M ->
  Forall (within_tolerance (isco_radius (H := arith M)))
         (REFERENCE_ISCO (H := arith M))
  /\ Forall (within_tolerance (photon_radius (H := arith M)))
            (REFERENCE_PHOTON (H := arith M)).
Proof.
  intro acc. split.
  - pose proof (isco_rows acc) as Hrows. revert Hrows.
    apply Forall_impl. intro row. apply row_within_tolerance.
  - pose proof (photon_rows acc) as Hrows. revert Hrows.
    apply Forall_impl. intro row. apply row_within_tolerance.
Qed.

Lemma reference_values_within_tolerance_on_the_grid :
  accurate grid
  /\ Forall (within_tolerance (isco_radius (H := arith grid)))
            (REFERENCE_ISCO (H := arith grid))
  /\ Forall (within_tolerance (photon_radius (H := arith grid)))
            (REFERENCE_PHOTON (H := arith grid)).
Proof.
  split; [exact grid_accurate | ].
  exact (@reference_values_within_tolerance_rounded grid grid_accurate).
Defined.

(** On every machine whose operations and library functions are
    accurate to [1e-10], for every mass and output path, the run
    writes a report of eight entries, each with a relative error below
    the threshold, sets [ok], prints the line and returns exit
    status 0. *)
Theorem accurate_run_passes (M : Machine) (m : R) (output : string) :
  accurate M ->
  exists report,
    main (H := arith M) (mkNamespace m output)
    = Ok (0%Z, [ WriteText output report;
                 Print (verdict_line (H := arith M) report) ])
    /\ List.length (entries report) = 8%nat
    /\ Forall (fun e => relative_error e < threshold (H := arith M))
              (entries report)
    /\ ok report = true.
Proof.
  intro acc.
  destruct (run_checks_rounded acc m output)
    as (report & Hrun & Hlen & Hall & Hok).
  exists report. split; [ | split; [exact Hlen | split; [exact Hall | exact Hok]]].
  rewrite (@main_of_run _ (arith M) (mkNamespace m output) report _ Hrun).
  unfold exit_status. rewrite Hok. reflexivity.
Qed.

Lemma accurate_run_passes_on_the_grid :
  accurate grid
  /\ exists report,
       main (H := arith grid) (mkNamespace 650000000 "validation_report.json")
       = Ok (0%Z, [ WriteText "validation_report.json" report;
                    Print (verdict_line (H := arith grid) report) ])
       /\ List.length (entries report) = 8%nat
       /\ Forall (fun e => relative_error e < threshold (H := arith grid))
                 (entries report)
       /\ ok report = true.
Proof.
  split; [exact grid_accurate | ].
  exact (@accurate_run_passes grid 650000000 "validation_report.json"
                              grid_accurate).
Defined.

End RoundedArithmetic.

Section AnyArithmeticFurther.

Context {F : Type} `{PyFloat F}.

(** The loop of [check_series] stops at the first spin at which the
    formula raises: the exception is that one, whatever the later
    rows hold. *)
Theorem check_series_stops_at_first_failure (pre post : list (F * F))
    (row : F * F) (fn : F -> result F) (label : string) (ex : exn) :
  Forall (fun r => exists en, check_row fn label r = Ok en) pre ->
  fn (fst row) = Raise ex ->
  check_series (pre ++ row :: post) fn label = Raise ex.
Proof.
  intros Hpre Hrow. apply check_series_raises; [exact Hpre | ].
  destruct row as [s e]. unfold check_row. cbn [fst] in Hrow.
  rewrite Hrow. reflexivity.
Qed.

(** The mass and the output path reach the report only through
    [mass_solar] and [grav_radius_m]: two runs agree on the maximum,
    the mean, the verdict, the entries and the exit status. *)
Theorem verdict_independent_of_mass (m m' : F) (output output' : string)
    (report report' : Report) (trace trace' : list event) :
  run_checks m output = Ok (report, trace) ->
  run_checks m' output' = Ok (report', trace') ->
  max_rel_error report = max_rel_error report'
  /\ mean_rel_error report = mean_rel_error report'
  /\ ok report = ok report'
  /\ entries report = entries report'
  /\ exit_status report = exit_status report'
  /\ mass_solar report = m /\ mass_solar report' = m'.
Proof.
  intros Hrun Hrun'. apply run_checks_inv in Hrun, Hrun'.
  destruct Hrun as (g & isco & photon & summary & _ & Hi & Hp & Hs & -> & _).
  destruct Hrun' as (g' & isco' & photon' & summary' & _ & Hi' & Hp' & Hs' & -> & _).
  rewrite Hi in Hi'. rewrite Hp in Hp'.
  assert (isco' = isco) by congruence.
  assert (photon' = photon) by congruence. subst.
  rewrite Hs in Hs'. assert (summary' = summary) by congruence. subst.
  unfold exit_status. cbn [max_rel_error mean_rel_error ok entries mass_solar].
  repeat split.
Qed.

End AnyArithmeticFurther.

Section AnyArithmeticWitnesses.

Import RealArith RealFormulas RealModel.

Local Open Scope R_scope.

Lemma check_series_stops_at_negative_root :
  Forall (fun r => exists en, check_row m_sqrt "root" r = Ok en) [(4, 2)]
  /\ m_sqrt (fst (-1, 1)) = Raise ValueError
  /\ check_series ([(4, 2)] ++ (-1, 1) :: [(-4, 1); (9, 3)]) m_sqrt "root"
     = Raise ValueError.
Proof.
  assert (Hpre : Forall (fun r => exists en, check_row m_sqrt "root" r = Ok en)
                        [(4, 2)]).
  { constructor; [ | constructor]. eexists.
    apply check_row_real; [apply msqrt_ok; lra | lra]. }
  assert (Hrow : m_sqrt (fst (-1, 1)) = Raise ValueError)
    by (apply msqrt_neg; cbn [fst]; lra).
  split; [exact Hpre | split; [exact Hrow | ]].
  exact (@check_series_stops_at_first_failure R _ [(4, 2)] [(-4, 1); (9, 3)]
           (-1, 1) m_sqrt "root" ValueError Hpre Hrow).
Defined.

Lemma verdict_independent_of_mass_1_and_2 :
  exists report report',
    run_checks 1 "a.json" = Ok (report, [WriteText "a.json" report])
    /\ run_checks 2 "b.json" = Ok (report', [WriteText "b.json" report'])
    /\ max_rel_error report = max_rel_error report'
    /\ mean_rel_error report = mean_rel_error report'
    /\ ok report = ok report'
    /\ entries report = entries report'
    /\ exit_status report = exit_status report'
    /\ mass_solar report = 1 /\ mass_solar report' = 2.
Proof.
  destruct (run_checks_total 1 "a.json") as [report Hrun].
  destruct (run_checks_total 2 "b.json") as [report' Hrun'].
  exists report, report'. split; [exact Hrun | split; [exact Hrun' | ]].
  exact (@verdict_independent_of_mass R _ _ _ _ _ _ _ _ _ Hrun Hrun').
Defined.

End AnyArithmeticWitnesses.

Section ExactArithmeticShape.

Import RealArith RealFormulas RealModel RealFurther.

Local Open Scope R_scope.

(** In exact arithmetic [isco_radius] returns a positive radius for
    every spin, clamped or not. *)
Theorem isco_radius_positive (s : R) :
  exists v, isco_radius s = Ok v /\ 0 < v.
Proof.
  exists (isco_value (isco_clamp s)).
  split; [apply isco_radius_unfold | ].
  apply isco_value_pos. apply isco_clamp_range.
Qed.

(** In exact arithmetic, for every positive spin, also above the clamp
    at 0.998, the prograde radius is strictly below the retrograde
    one; their sum is [2 (3 + z2)] and their product [(z1 + z2)^2],
    taken at the clamped spin. *)
Theorem prograde_and_retrograde (a : R) :
  0 < a ->
  exists v w,
    isco_radius a = Ok v /\ isco_radius (- a) = Ok w
    /\ v < w
    /\ v + w = 2 * (3 + z2 (isco_clamp a))
    /\ v * w = (z1 (isco_clamp a) + z2 (isco_clamp a))
               * (z1 (isco_clamp a) + z2 (isco_clamp a)).
Proof.
  intro Ha.
  assert (Hc : 0 < isco_clamp a <= 998 / 1000).
  { pose proof (isco_clamp_range a) as [_ Hhi]. split; [ | exact Hhi].
    rewrite isco_clamp_real. unfold Rmax, Rmin.
    destruct (Rle_dec a (998 / 1000)); destruct (Rle_dec _ _); lra. }
  assert (Hneg : isco_clamp (- a) = - isco_clamp a).
  { rewrite !isco_clamp_real. unfold Rmax, Rmin.
    repeat destruct (Rle_dec _ _); lra. }
  set (c := isco_clamp a) in *.
  assert (Hr : - (998 / 1000) <= c <= 998 / 1000) by lra.
  exists (isco_value c), (isco_value (- c)).
  split; [apply isco_radius_unfold | ].
  split; [rewrite isco_radius_unfold, Hneg; reflexivity | ].
  split; [apply isco_value_gap; exact Hc | ].
  rewrite isco_value_prograde by lra.
  rewrite isco_value_retrograde by lra.
  pose proof (@radicand_nonneg c Hr) as Hrad.
  pose proof (sqrt_sqrt _ Hrad) as Hsq.
  split; [ring | ].
  replace ((3 + z2 c - sqrt (radicand c)) * (3 + z2 c + sqrt (radicand c)))
    with ((3 + z2 c) * (3 + z2 c) - sqrt (radicand c) * sqrt (radicand c))
    by ring.
  rewrite Hsq. unfold radicand. ring.
Qed.

Lemma prograde_and_retrograde_at_5 :
  0 < 5
  /\ exists v w,
       isco_radius 5 = Ok v /\ isco_radius (- 5) = Ok w
       /\ v < w
       /\ v + w = 2 * (3 + z2 (isco_clamp 5))
       /\ v * w = (z1 (isco_clamp 5) + z2 (isco_clamp 5))
                  * (z1 (isco_clamp 5) + z2 (isco_clamp 5)).
Proof.
  split; [lra | apply (@prograde_and_retrograde 5); lra].
Defined.

(** In exact arithmetic [photon_radius] returns, for every spin, a
    value strictly between 1 and 3: the clamp keeps it off both
    ends. *)
Theorem photon_radius_between_1_and_3 (s : R) :
  exists v, photon_radius s = Ok v /\ 1 < v < 3.
Proof.
  exists (photon_value (photon_clamp s)).
  split; [apply photon_radius_unfold | ].
  apply photon_value_range. apply photon_clamp_range.
Qed.

(** In exact arithmetic [photon_radius] does not grow with the size of
    the spin, and between the clamps at [1e-6] and [0.999] it falls
    strictly. *)
Theorem photon_radius_decreasing (s t : R) :
  Rabs s <= Rabs t ->
  exists v w,
    photon_radius s = Ok v /\ photon_radius t = Ok w
    /\ w <= v
    /\ (1 / 1000000 <= Rabs s -> Rabs s < Rabs t -> Rabs t <= 999 / 1000 ->
        w < v).
Proof.
  intro Hst.
  exists (photon_value (photon_clamp s)), (photon_value (photon_clamp t)).
  split; [apply photon_radius_unfold | ].
  split; [apply photon_radius_unfold | ].
  split.
  - apply photon_value_decreasing; try apply photon_clamp_range.
    apply photon_clamp_monotone. exact Hst.
  - intros Hlo Hlt Hhi.
    rewrite (photon_clamp_abs s), (photon_clamp_abs t) by lra.
    apply photon_value_strictly_decreasing; lra.
Qed.

Lemma photon_radius_decreasing_at_half :
  Rabs (5 / 10) <= Rabs (- (9 / 10))
  /\ exists v w,
       photon_radius (5 / 10) = Ok v /\ photon_radius (- (9 / 10)) = Ok w
       /\ w <= v
       /\ (1 / 1000000 <= Rabs (5 / 10) ->
           Rabs (5 / 10) < Rabs (- (9 / 10)) ->
           Rabs (- (9 / 10)) <= 999 / 1000 -> w < v).
Proof.
  assert (H : Rabs (5 / 10) <= Rabs (- (9 / 10))).
  { rewrite Rabs_Ropp, !Rabs_pos_eq; lra. }
  split; [exact H | exact (@photon_radius_decreasing _ _ H)].
Defined.

(** In exact arithmetic the relative error has the sign of the
    reference value: against a positive reference it is never
    negative, and against a negative one it is never positive, so it
    is below the tolerance however far the value lies. *)
Theorem relative_error_sign (fn : R -> result R) (label : string)
    (s e : R) (en : entry) :
  check_row fn label (s, e) = Ok en ->
  (0 < e -> 0 <= snd en)
  /\ (e < 0 -> snd en <= 0 /\ f_lt (snd en) threshold = true).
Proof.
  intro Hrow. apply check_row_inv in Hrow.
  destruct Hrow as (v & _ & _ & ->). cbn [snd].
  destruct (rel_error_sign v e) as [Hpos Hneg].
  split; [exact Hpos | ].
  intro He. split; [apply Hneg; exact He | ].
  cbn [f_lt arith]. apply ltb_true.
  unfold threshold. cbn [of_decimal arith]. norm_lits.
  pose proof (Hneg He). lra.
Qed.

Lemma relative_error_sign_negative_reference :
  exists en,
    check_row isco_radius "isco" (0, -6) = Ok en
    /\ (0 < -6 -> 0 <= snd en)
    /\ (-6 < 0 -> snd en <= 0 /\ f_lt (snd en) threshold = true).
Proof.
  assert (Hrow : check_row isco_radius "isco" (0, -6)
                 = Ok ("isco"%string, 0, rel_error (isco_value (isco_clamp 0)) (-6)))
    by (apply check_row_real; [apply isco_radius_unfold | lra]).
  eexists. split; [exact Hrow | exact (@relative_error_sign _ _ _ _ _ Hrow)].
Defined.

(** In exact arithmetic the summary's maximum is the error of one of
    the entries and no entry exceeds it; the mean is the sum over the
    count, and it never exceeds the maximum. *)
Theorem summary_max_and_mean (errors : list entry) (summary : Summary) :
  summarize errors = Ok summary ->
  In (summary_max_rel_error summary) (map (fun e : entry => snd e) errors)
  /\ Forall (fun e : entry => snd e <= summary_max_rel_error summary) errors
  /\ summary_mean_rel_error summary
     = fold_right Rplus 0 (map (fun e : entry => snd e) errors)
       / INR (List.length errors)
  /\ summary_mean_rel_error summary <= summary_max_rel_error summary.
Proof.
  unfold summarize. intro Hsum.
  apply bind_inv in Hsum. destruct Hsum as (mx & Hmx & Hsum).
  apply bind_inv in Hsum. destruct Hsum as (mean & Hmean & Hsum).
  injection Hsum as <-. cbn [summary_max_rel_error summary_mean_rel_error].
  apply max_list_spec in Hmx. destruct Hmx as [Hin Hall].
  set (xs := map (fun e : entry => snd e) errors) in *.
  assert (Hlen : List.length xs = List.length errors)
    by (unfold xs; apply length_map).
  assert (Hxs : xs <> []) by (intro Hnil; rewrite Hnil in Hin; destruct Hin).
  unfold fmean in Hmean. cbn [m_fsum f_div of_int arith] in Hmean.
  unfold fsum in Hmean. cbn [bind] in Hmean.
  assert (Hn : 0 < INR (List.length xs)).
  { apply lt_0_INR. destruct xs; [contradiction | cbn; lia]. }
  assert (Hdiv : mean = fold_right Rplus 0 xs / INR (List.length xs)).
  { destruct xs as [|x rest]; [contradiction | ].
    rewrite <- INR_IZR_INZ in Hmean. rewrite div_ok in Hmean by lra.
    congruence. }
  split; [exact Hin | split; [ | split]].
  - unfold xs in Hall. rewrite Forall_map in Hall. exact Hall.
  - rewrite <- Hlen. exact Hdiv.
  - rewrite Hdiv. pose proof (sum_le_max Hall) as Hsumle.
    apply Rmult_le_reg_r with (INR (List.length xs)); [exact Hn | ].
    unfold Rdiv. rewrite Rmult_assoc, Rinv_l, Rmult_1_r by lra. lra.
Qed.

Lemma summary_max_and_mean_of_two :
  exists summary,
    summarize [("isco"%string, 0, 1 / 1000); ("photon"%string, 0, 3 / 1000)]
    = Ok summary
    /\ In (summary_max_rel_error summary) [1 / 1000; 3 / 1000]
    /\ Forall (fun e : entry => snd e <= summary_max_rel_error summary)
              [("isco"%string, 0, 1 / 1000); ("photon"%string, 0, 3 / 1000)]
    /\ summary_mean_rel_error summary
       = fold_right Rplus 0 [1 / 1000; 3 / 1000] / INR 2
    /\ summary_mean_rel_error summary <= summary_max_rel_error summary.
Proof.
  destruct (summarize_total ("isco"%string, 0, 1 / 1000)
                            [("photon"%string, 0, 3 / 1000)])
    as [summary Hsum].
  exists summary. split; [exact Hsum | ].
  exact (@summary_max_and_mean _ _ Hsum).
Defined.

(** In exact arithmetic the summary does not depend on the order of
    the entries. *)
Theorem summarize_order_free (errors errors' : list entry) :
  Permutation errors errors' -> summarize errors = summarize errors'.
Proof.
  intro Hperm. unfold summarize, fmean.
  assert (Hmap : Permutation (map (fun e : entry => snd e) errors)
                             (map (fun e : entry => snd e) errors'))
    by (apply Permutation_map; exact Hperm).
  rewrite (max_list_permutation Hmap).
  cbn [m_fsum f_div of_int arith]. unfold fsum. cbn [bind].
  rewrite (sum_permutation Hmap), (Permutation_length Hmap).
  destruct (map (fun e : entry => snd e) errors) as [|x xs] eqn:Hxs.
  - apply Permutation_nil in Hmap. rewrite Hmap. reflexivity.
  - destruct (map (fun e : entry => snd e) errors') as [|y ys] eqn:Hys.
    + apply Permutation_sym in Hmap. apply Permutation_nil in Hmap.
      discriminate Hmap.
    + reflexivity.
Qed.

Lemma summarize_order_free_swap :
  Permutation [("isco"%string, 0, 1 / 1000); ("photon"%string, 0, 3 / 1000)]
              [("photon"%string, 0, 3 / 1000); ("isco"%string, 0, 1 / 1000)]
  /\ summarize [("isco"%string, 0, 1 / 1000); ("photon"%string, 0, 3 / 1000)]
     = summarize [("photon"%string, 0, 3 / 1000); ("isco"%string, 0, 1 / 1000)].
Proof.
  assert (H : Permutation
                [("isco"%string, 0, 1 / 1000); ("photon"%string, 0, 3 / 1000)]
                [("photon"%string, 0, 3 / 1000); ("isco"%string, 0, 1 / 1000)])
    by apply perm_swap.
  split; [exact H | exact (@summarize_order_free _ _ H)].
Defined.

End ExactArithmeticShape.

Section DoublePrecisionRun.

Import PrimFloat SpecFloat FloatOps FloatAxioms.
Import Binary64 Binary64Facts Binary64Further CorrectlyRounded.

Local Open Scope float_scope.
Local Set Warnings "-inexact-float".

Example exact_sum_examples :
  exact_sum errors = 0x1.a9040427a4a4cp-12
  /\ exact_sum [0x1p+53; 1; -0x1p+53] = 1
  /\ exact_sum (repeat 0.1 10) = 1.
Proof. repeat split; vm_compute; reflexivity. Qed.

Ltac ask_the_library :=
  vm_compute;
  repeat (match goal with H : _ = _ |- _ => rewrite H; clear H end;
          vm_compute).

Lemma recorded_report (L : Libm) (m : float) (output : string) :
  answers L ->
  exists g,
    gravitational_radius (H := arith L) m = Ok g
    /\ run_checks (H := arith L) m output
       = Ok (report_of m g, [WriteText output (report_of m g)]).
Proof.
  intro Hans. destruct L as [pw cs ac fs].
  vm_compute in Hans.
  repeat match goal with H : _ /\ _ |- _ => destruct H end.
  set (L := mkLibm pw cs ac fs).
  destruct (gravitational_radius_returns L m) as [g Hg].
  exists g. split; [exact Hg | ].
  assert (Hisco :
    check_series (H := arith L) (REFERENCE_ISCO (H := arith L))
                 (isco_radius (H := arith L)) "isco"
    = Ok [ ("isco"%string, decimal 0 (-1), 0);
           ("isco"%string, decimal 5 (-1), 0x1.40d1f2ab6c31ap-21);
           ("isco"%string, decimal 9 (-1), 0x1.8f1c4ad0dfee6p-12);
           ("isco"%string, decimal 998 (-3), 0x1.8dffaea5112d5p-16) ]).
  { unfold check_series, REFERENCE_ISCO. apply mapM_of_Forall2.
    repeat apply Forall2_cons; try apply Forall2_nil;
      ask_the_library; reflexivity. }
  assert (Hphoton :
    check_series (H := arith L) (REFERENCE_PHOTON (H := arith L))
                 (photon_radius (H := arith L)) "photon"
    = Ok [ ("photon"%string, decimal 0 (-1), 0x1.9d48937aaaaabp-22);
           ("photon"%string, decimal 5 (-1), 0x1.fb8b9cbff886cp-37);
           ("photon"%string, decimal 9 (-1), 0x1.080d73274c182p-36);
           ("photon"%string, decimal 998 (-3), 0x1.486c01405c715p-36) ]).
  { unfold check_series, REFERENCE_PHOTON. apply mapM_of_Forall2.
    repeat apply Forall2_cons; try apply Forall2_nil;
      ask_the_library; reflexivity. }
  unfold run_checks. rewrite Hg, bind_Ok, Hisco, bind_Ok, Hphoton, bind_Ok.
  match goal with
  | |- context [summarize ?errs] =>
      assert (Hsum : summarize (H := arith L) errs
                     = Ok (mkSummary 0x1.8f1c4ad0dfee6p-12
                                     0x1.a9040427a4a4cp-15))
        by (ask_the_library; reflexivity)
  end.
  rewrite Hsum, bind_Ok.
  assert (Hrep : forall r, r = report_of m g ->
            Ok (r, [WriteText output r])
            = Ok (report_of m g, [WriteText output (report_of m g)]))
    by (intros r ->; reflexivity).
  apply Hrep. vm_compute. reflexivity.
Qed.

(** In double precision, with a C library that gives the correctly
    rounded answers at the seventeen arguments the run passes, and
    the exact sum for the mean, the run passes whatever the mass: the
    eight relative errors, the maximum and the mean are the doubles
    listed, and the line printed is the one shown. *)
Theorem correctly_rounded_run (L : Libm) (m : float) (output : string) :
  answers L ->
  exists report,
    main (H := arith L) (mkNamespace m output)
    = Ok (0%Z, [ WriteText output report;
                 Print "[PASS] max_rel_error=3.8062e-04 mean_rel_error=5.0666e-05" ])
    /\ ok report = true
    /\ map relative_error (entries report) = errors
    /\ max_rel_error report = 0x1.8f1c4ad0dfee6p-12
    /\ mean_rel_error report = 0x1.a9040427a4a4cp-15.
Proof.
  intro Hans.
  destruct (recorded_report m output Hans) as (g & _ & Hrun).
  exists (report_of m g). split; [ | repeat split].
  rewrite (@main_of_run _ (arith L) (mkNamespace m output) _ _ Hrun).
  reflexivity.
Qed.

Lemma correctly_rounded_run_default :
  answers libm
  /\ exists report,
       main (H := arith libm) (mkNamespace (decimal 65 7) "validation_report.json")
       = Ok (0%Z, [ WriteText "validation_report.json" report;
                    Print "[PASS] max_rel_error=3.8062e-04 mean_rel_error=5.0666e-05" ])
       /\ ok report = true
       /\ map relative_error (entries report) = errors
       /\ max_rel_error report = 0x1.8f1c4ad0dfee6p-12
       /\ mean_rel_error report = 0x1.a9040427a4a4cp-15.
Proof.
  assert (Hans : answers libm) by (vm_compute; repeat split; reflexivity).
  split; [exact Hans | ].
  exact (@correctly_rounded_run libm (decimal 65 7) "validation_report.json" Hans).
Defined.

End DoublePrecisionRun.

Section DoublePrecisionFurther.

Import PrimFloat SpecFloat FloatOps FloatAxioms.
Import Binary64 Binary64Facts Binary64Further CorrectlyRounded.

Local Open Scope float_scope.
Local Set Warnings "-inexact-float".

(** In double precision, with any C library, every spin at or below
    [-0.998] (minus infinity included) is clamped to [-0.998], and
    [isco_radius] does there exactly what it does at [-0.998]. *)
Theorem isco_radius_saturates_below_binary64 (s : float) :
  (s <=? - decimal 998 (-3)) = true ->
  forall L : Libm,
    isco_radius (H := arith L) s
    = isco_radius (H := arith L) (- decimal 998 (-3)).
Proof.
  intros Hs L. unfold isco_radius.
  rewrite (isco_clamp_at_or_below L Hs).
  replace (isco_clamp (H := arith L) (- decimal 998 (-3)))
    with (- decimal 998 (-3)) by by_computation.
  reflexivity.
Qed.

Lemma isco_radius_saturates_below_binary64_at_minus_infinity :
  (neg_infinity <=? - decimal 998 (-3)) = true
  /\ forall L : Libm,
       isco_radius (H := arith L) neg_infinity
       = isco_radius (H := arith L) (- decimal 998 (-3)).
Proof.
  split; [by_computation | ].
  apply (@isco_radius_saturates_below_binary64 neg_infinity). by_computation.
Defined.

(** In double precision, with any C library, clamping a spin twice is
    clamping it once, NaN included; a spin between [-0.998] and
    [0.998] is left as it is; and [isco_radius] of the clamped spin
    is [isco_radius] of the spin. *)
Theorem isco_radius_clamps_once_binary64 (L : Libm) (s : float) :
  isco_clamp (H := arith L) (isco_clamp (H := arith L) s)
  = isco_clamp (H := arith L) s
  /\ isco_radius (H := arith L) (isco_clamp (H := arith L) s)
     = isco_radius (H := arith L) s
  /\ ((- decimal 998 (-3) <=? s) = true /\ (s <=? decimal 998 (-3)) = true ->
      isco_clamp (H := arith L) s = s).
Proof.
  split; [apply isco_clamp_idempotent | split].
  - unfold isco_radius. rewrite isco_clamp_idempotent. reflexivity.
  - intros [Hlo Hhi]. apply isco_clamp_within; assumption.
Qed.

(** In double precision, with any C library, [photon_radius] does not
    see the sign of the spin. *)
Theorem photon_radius_even_binary64 (L : Libm) (s : float) :
  photon_radius (H := arith L) (- s) = photon_radius (H := arith L) s.
Proof. unfold photon_radius. rewrite photon_clamp_opp. reflexivity. Qed.

(** In double precision, with any C library, every spin of size at
    most [1e-6], zero included, gives what [photon_radius(1e-6)]
    gives, and every spin of size at least [0.999], the infinities
    included, what [photon_radius(0.999)] gives. *)
Theorem photon_radius_saturates_binary64 (L : Libm) (s : float) :
  ((abs s <=? decimal 1 (-6)) = true ->
   photon_radius (H := arith L) s
   = photon_radius (H := arith L) (decimal 1 (-6)))
  /\ ((decimal 999 (-3) <=? abs s) = true ->
      photon_radius (H := arith L) s
      = photon_radius (H := arith L) (decimal 999 (-3))).
Proof.
  split; intro Hs; unfold photon_radius.
  - rewrite (photon_clamp_small L Hs).
    replace (photon_clamp (H := arith L) (decimal 1 (-6)))
      with (decimal 1 (-6)) by by_computation.
    reflexivity.
  - rewrite (photon_clamp_large L Hs).
    replace (photon_clamp (H := arith L) (decimal 999 (-3)))
      with (decimal 999 (-3)) by by_computation.
    reflexivity.
Qed.

(** In double precision [max] of a list is NaN exactly when the first
    item is; NaN items after the first are passed over; and when the
    first item is a number the result is one of the numbers of the
    list and no number of the list is above it. *)
Theorem max_of_doubles (L : Libm) (x : float) (rest : list float) :
  exists m,
    max_list (H := arith L) (x :: rest) = Ok m
    /\ is_nan m = is_nan x
    /\ max_list (H := arith L) (x :: filter (fun y => negb (is_nan y)) rest)
       = Ok m
    /\ (is_nan x = false ->
        In m (x :: filter (fun y => negb (is_nan y)) rest)
        /\ Forall (fun y => is_nan y = true \/ (y <=? m) = true) (x :: rest)).
Proof.
  exists (fold_left (py_max (H := arith L)) rest x). cbn [max_list].
  split; [reflexivity | split; [ | split]].
  - destruct (is_nan x) eqn:Hx.
    + apply is_nan_true in Hx. subst x. rewrite fold_max_nan. reflexivity.
    + apply fold_max_not_nan. exact Hx.
  - rewrite <- fold_max_skips_nan. reflexivity.
  - intro Hx. rewrite (fold_max_skips_nan L rest x).
    set (numbers := filter (fun y => negb (is_nan y)) rest).
    assert (Hnum : Forall (fun y => is_nan y = false) numbers).
    { apply Forall_forall. intros y Hy. apply filter_In in Hy.
      destruct Hy as [_ Hy]. destruct (is_nan y); [discriminate Hy | reflexivity]. }
    destruct (@fold_max_upper L numbers x Hx Hnum) as [Hxm Hbelow].
    split; [apply fold_max_in_list | ].
    constructor; [right; exact Hxm | ].
    apply Forall_forall. intros y Hy.
    destruct (is_nan y) eqn:Hnan; [left; reflexivity | right].
    rewrite Forall_forall in Hbelow. apply Hbelow.
    apply filter_In. split; [exact Hy | rewrite Hnan; reflexivity].
Qed.

(** In double precision, with any C library, the first entry of a
    report is the ISCO at spin 0.0 with a relative error of exactly 0,
    so the maximum is never NaN; and [ok] is true if and only if every
    entry is either NaN or strictly below [8e-3]: a NaN entry is not
    seen by the verdict. *)
Theorem ok_in_double_precision (L : Libm) (m : float) (output : string)
    (report : Report) (trace : list event) :
  run_checks (H := arith L) m output = Ok (report, trace) ->
  (exists rest, entries report = mkEntry "isco" (decimal 0 (-1)) 0 :: rest)
  /\ is_nan (max_rel_error report) = false
  /\ (ok report = true
      <-> Forall (fun e => is_nan (relative_error e) = true
                           \/ (relative_error e <? decimal 8 (-3)) = true)
                 (entries report)).
Proof.
  intro Hrun. apply run_checks_inv in Hrun.
  destruct Hrun as (g & isco & photon & summary & _ & Hi & _ & Hs & -> & _).
  cbn [entries ok max_rel_error].
  unfold check_series, REFERENCE_ISCO in Hi. cbn [mapM] in Hi.
  apply bind_inv in Hi. destruct Hi as (e0 & He0 & Hi).
  apply bind_inv in Hi. destruct Hi as (isco' & _ & Hi).
  injection Hi as <-.
  vm_compute in He0. injection He0 as <-.
  unfold summarize in Hs.
  apply bind_inv in Hs. destruct Hs as (mx & Hmx & Hs).
  apply bind_inv in Hs. destruct Hs as (mean & _ & Hs).
  injection Hs as <-. cbn [summary_max_rel_error].
  cbn [app map snd] in *.
  set (others := (isco' ++ photon)%list) in *.
  destruct (max_of_doubles L 0 (map (fun e : entry => snd e) others))
    as (mx' & Hmx' & Hnan & _ & Hspec).
  rewrite Hmx in Hmx'. injection Hmx' as <-.
  assert (H0 : is_nan 0 = false) by by_computation.
  destruct (Hspec H0) as [Hin Hall]. rewrite H0 in Hnan.
  assert (Hthr : is_nan (decimal 8 (-3)) = false) by by_computation.
  split; [eexists; reflexivity | split; [exact Hnan | ]].
  cbn [f_lt arith]. change (threshold (H := arith L)) with (decimal 8 (-3)).
  split.
  - intro Hok. inversion Hall as [|? ? _ Hrest]; subst.
    constructor; [right; by_computation | ].
    rewrite Forall_map. rewrite Forall_map in Hrest.
    revert Hrest. apply Forall_impl.
    intros e [Hn | Hle]; rewrite relative_error_of_entry;
      [left; exact Hn | right].
    destruct (leb_not_nan Hle) as [He _].
    apply leb_ltb_trans with mx; assumption.
  - intro Hsmall.
    destruct Hin as [<- | Hin]; [by_computation | ].
    apply filter_In in Hin. destruct Hin as [Hin Hnum].
    apply in_map_iff in Hin. destruct Hin as (e & <- & He).
    inversion Hsmall as [|? ? _ Hrest]; subst.
    rewrite Forall_map in Hrest. rewrite Forall_forall in Hrest.
    specialize (Hrest e He). rewrite relative_error_of_entry in Hrest.
    destruct Hrest as [Hn | Hlt]; [ | exact Hlt].
    rewrite Hn in Hnum. discriminate Hnum.
Qed.

Lemma ok_in_double_precision_default :
  exists report,
    run_checks (H := arith libm) (decimal 65 7) "validation_report.json"
    = Ok (report, [WriteText "validation_report.json" report])
    /\ (exists rest, entries report = mkEntry "isco" (decimal 0 (-1)) 0 :: rest)
    /\ is_nan (max_rel_error report) = false
    /\ (ok report = true
        <-> Forall (fun e => is_nan (relative_error e) = true
                             \/ (relative_error e <? decimal 8 (-3)) = true)
                   (entries report)).
Proof.
  assert (Hrun : exists report,
    run_checks (H := arith libm) (decimal 65 7) "validation_report.json"
    = Ok (report, [WriteText "validation_report.json" report]))
    by (eexists; by_computation).
  destruct Hrun as [report Hrun]. exists report. split; [exact Hrun | ].
  exact (@ok_in_double_precision libm _ _ _ _ Hrun).
Defined.

(** In double precision a reference value of zero, [0.0] or [-0.0],
    makes [check_series] raise [ZeroDivisionError] at that row, when
    the rows before it pass and the formula returns there. *)
Theorem zero_reference_raises (L : Libm) (pre post : list (float * float))
    (fn : float -> result float) (label : string) (s e v : float) :
  Forall (fun r => exists en, check_row (H := arith L) fn label r = Ok en) pre ->
  fn s = Ok v -> (e =? 0) = true ->
  check_series (H := arith L) (pre ++ (s, e) :: post) fn label
  = Raise ZeroDivisionError.
Proof.
  intros Hpre Hv He. apply check_series_raises; [exact Hpre | ].
  unfold check_row. rewrite Hv, bind_Ok. cbn [f_div arith]. unfold div.
  rewrite He. reflexivity.
Qed.

Lemma zero_reference_raises_at_minus_zero :
  Forall (fun r => exists en,
            check_row (H := arith libm) (isco_radius (H := arith libm)) "isco" r
            = Ok en) [(0, 6)]
  /\ isco_radius (H := arith libm) 0.5 = Ok 0x1.0ee983710e175p+2
  /\ (neg_zero =? 0) = true
  /\ check_series (H := arith libm) ([(0, 6)] ++ (0.5, neg_zero) :: [(0.9, 2.32)])
                  (isco_radius (H := arith libm)) "isco"
     = Raise ZeroDivisionError.
Proof.
  assert (Hpre : Forall (fun r => exists en,
            check_row (H := arith libm) (isco_radius (H := arith libm)) "isco" r
            = Ok en) [(0, 6)])
    by (repeat constructor; eexists; by_computation).
  assert (Hv : isco_radius (H := arith libm) 0.5 = Ok 0x1.0ee983710e175p+2)
    by by_computation.
  assert (He : (neg_zero =? 0) = true) by by_computation.
  split; [exact Hpre | split; [exact Hv | split; [exact He | ]]].
  exact (@zero_reference_raises libm [(0, 6)] [(0.9, 2.32)]
           (isco_radius (H := arith libm)) "isco" 0.5 neg_zero _ Hpre Hv He).
Defined.

End DoublePrecisionFurther.

Section ReportText.

Import PrimFloat SpecFloat FloatOps FloatAxioms.
Import Binary64 Binary64Facts Binary64Further CorrectlyRounded Repr Json.

Local Open Scope float_scope.
Local Set Warnings "-inexact-float".

Example repr_examples :
  map repr
    [ 0.1; 0.2; 0.3; 0x1.5555555555555p-2; 2.5; 1; 100; 123456789;
      1e15; 1e16; 9999999999999998; 1e22; 1e23; 1e-4; 1e-5; 0.0001234;
      0x0.0000000000001p-1022; 0x1p-1022; 0x1.fffffffffffffp+1023;
      0x1p+53; 0x1.0000000000001p+53; 0x1p-60; 9.5; -1.5; -2e-7; 4.35;
      0x1.0000000000001p+0; 0x1.fffffffffffffp-1; 0; neg_zero ]
  = [ "0.1"; "0.2"; "0.3"; "0.3333333333333333"; "2.5"; "1.0"; "100.0";
      "123456789.0"; "1000000000000000.0"; "1e+16"; "9999999999999998.0";
      "1e+22"; "1e+23"; "0.0001"; "1e-05"; "0.0001234"; "5e-324";
      "2.2250738585072014e-308"; "1.7976931348623157e+308";
      "9007199254740992.0"; "9007199254740994.0"; "8.673617379884035e-19";
      "9.5"; "-1.5"; "-2e-07"; "4.35"; "1.0000000000000002";
      "0.9999999999999999"; "0.0"; "-0.0" ]%string.
Proof. vm_compute. reflexivity. Qed.

(** In double precision, with the correctly rounded answers of the C
    library, the report of the default run is written as a text of 49
    lines and 1016 characters, and the numbers in it are the ones
    listed. *)
Theorem report_text_of_the_default_run (L : Libm) (output : string) :
  answers L ->
  exists report,
    run_checks (H := arith L) (decimal 65 7) output
    = Ok (report, [WriteText output report])
    /\ map floatstr [ mass_solar report; grav_radius_m report;
                      max_rel_error report; mean_rel_error report ]
       = [ "650000000.0"; "1919670598343.4712"; "0.0003806214490893314";
           "5.066581826187032e-05" ]%string
    /\ map (fun e => (quantity e, floatstr (spin e),
                      floatstr (relative_error e)))
           (entries report)
       = [ ("isco", "0.0", "0.0");
           ("isco", "0.5", "5.975740199806881e-07");
           ("isco", "0.9", "0.0003806214490893314");
           ("isco", "0.998", "2.372257462847606e-05");
           ("photon", "0.0", "3.8490025359531427e-07");
           ("photon", "0.5", "1.442530676068388e-11");
           ("photon", "0.9", "1.500964903886145e-11");
           ("photon", "0.998", "1.8668623289102573e-11") ]%string
    /\ List.length (report_lines floatstr report) = 49%nat
    /\ String.length (dumps floatstr report) = 1016%nat
    /\ nth 5 (report_lines floatstr report) EmptyString
       = member "  " "ok" "true,".
Proof.
  intro Hans.
  destruct (recorded_report (decimal 65 7) output Hans) as (g & Hg & Hrun).
  assert (Hgrav : g = 0x1.bef548bac778ap+40).
  { destruct (gravitational_radius_default L) as [Hdef _].
    rewrite Hdef in Hg. congruence. }
  subst g. eexists. split; [exact Hrun | ].
  repeat split; vm_compute; reflexivity.
Qed.

Lemma report_text_of_the_default_run_witness :
  answers libm
  /\ exists report,
       run_checks (H := arith libm) (decimal 65 7) "validation_report.json"
       = Ok (report, [WriteText "validation_report.json" report])
       /\ map floatstr [ mass_solar report; grav_radius_m report;
                         max_rel_error report; mean_rel_error report ]
          = [ "650000000.0"; "1919670598343.4712"; "0.0003806214490893314";
              "5.066581826187032e-05" ]%string
       /\ map (fun e => (quantity e, floatstr (spin e),
                         floatstr (relative_error e)))
              (entries report)
          = [ ("isco", "0.0", "0.0");
              ("isco", "0.5", "5.975740199806881e-07");
              ("isco", "0.9", "0.0003806214490893314");
              ("isco", "0.998", "2.372257462847606e-05");
              ("photon", "0.0", "3.8490025359531427e-07");
              ("photon", "0.5", "1.442530676068388e-11");
              ("photon", "0.9", "1.500964903886145e-11");
              ("photon", "0.998", "1.8668623289102573e-11") ]%string
       /\ List.length (report_lines floatstr report) = 49%nat
       /\ String.length (dumps floatstr report) = 1016%nat
       /\ nth 5 (report_lines floatstr report) EmptyString
          = member "  " "ok" "true,".
Proof.
  assert (Hans : answers libm) by (vm_compute; repeat split; reflexivity).
  split; [exact Hans | ].
  exact (@report_text_of_the_default_run libm "validation_report.json" Hans).
Defined.

Lemma not_finite (x : float) :
  is_finite x = false -> x = nan \/ x = infinity \/ x = neg_infinity.
Proof.
  intro Hx. destruct (Prim2SF x) as [s|s| |s m e] eqn:Hsf.
  - exfalso. assert (Hz : is_finite x = true).
    { unfold is_finite, is_infinity.
      replace (is_nan x) with false
        by (symmetry; apply is_nan_false; rewrite Hsf; discriminate).
      rewrite eqb_spec, abs_spec, Hsf. reflexivity. }
    congruence.
  - right. destruct s; [right | left]; apply Prim2SF_inj; rewrite Hsf;
      reflexivity.
  - left. apply Prim2SF_inj. rewrite Hsf. reflexivity.
  - exfalso. assert (Hz : is_finite x = true).
    { unfold is_finite, is_infinity.
      replace (is_nan x) with false
        by (symmetry; apply is_nan_false; rewrite Hsf; discriminate).
      rewrite eqb_spec, abs_spec, Hsf. reflexivity. }
    congruence.
Qed.

(** In double precision, with any C library, a mass that is not a
    finite number is not refused: it is written to the report, and
    so is the gravitational radius, as [NaN], [Infinity] or
    [-Infinity], which JSON does not have. *)
Theorem non_finite_mass_is_written (L : Libm) (m : float) (output : string)
    (report : Report) (trace : list event) :
  run_checks (H := arith L) m output = Ok (report, trace) ->
  is_finite m = false ->
  exists token,
    In token ["NaN"; "Infinity"; "-Infinity"]%string
    /\ nth 1 (report_lines floatstr report) EmptyString
       = member "  " "mass_solar" (token ++ ",")
    /\ nth 2 (report_lines floatstr report) EmptyString
       = member "  " "grav_radius_m" (token ++ ",").
Proof.
  intros Hrun Hm. apply run_checks_inv in Hrun.
  destruct Hrun as (g & isco & photon & summary & Hg & _ & _ & _ & -> & _).
  unfold report_lines. cbn [mass_solar grav_radius_m app nth].
  destruct (not_finite m Hm) as [-> | [-> | ->]];
    vm_compute in Hg; injection Hg as <-.
  - exists "NaN"%string. split; [left; reflexivity | split; reflexivity].
  - exists "Infinity"%string.
    split; [right; left; reflexivity | split; reflexivity].
  - exists "-Infinity"%string.
    split; [right; right; left; reflexivity | split; reflexivity].
Qed.

Lemma non_finite_mass_is_written_nan :
  exists report,
    run_checks (H := arith libm) nan "validation_report.json"
    = Ok (report, [WriteText "validation_report.json" report])
    /\ is_finite nan = false
    /\ exists token,
         In token ["NaN"; "Infinity"; "-Infinity"]%string
         /\ nth 1 (report_lines floatstr report) EmptyString
            = member "  " "mass_solar" (token ++ ",")
         /\ nth 2 (report_lines floatstr report) EmptyString
            = member "  " "grav_radius_m" (token ++ ",").
Proof.
  assert (Hrun : exists report,
    run_checks (H := arith libm) nan "validation_report.json"
    = Ok (report, [WriteText "validation_report.json" report]))
    by (eexists; vm_compute; reflexivity).
  assert (Hm : is_finite nan = false) by (vm_compute; reflexivity).
  destruct Hrun as [report Hrun]. exists report.
  split; [exact Hrun | split; [exact Hm | ]].
  exact (@non_finite_mass_is_written libm nan _ _ _ Hrun Hm).
Defined.

End ReportText.
